(** * OSCAL MCP server: control identifiers, baselines and SSP validation

    A shallow embedding of the JavaScript sources

      - [src/utils/controlUtils.js]   (normalize, parse, getFamily,
        hasEnhancement, getBaseControl, compareControlIds),
      - [src/services/oscalService.js] (getControl, searchControls,
        loadBaselineProfiles, getBaselineControls; the stand-in version and
        the profile-backed version),
      - [src/services/sspService.js]  (createSSP, getSSP,
        addControlImplementation, getControlImplementation,
        listControlImplementations, validateSSP),
      - [src/services/extensionControlsService.js] (loadControls,
        getControlById, listControlFamilies, getControlsByFamily,
        searchControls),

    followed by the properties of the specification that were checked
    against them, and by further properties of the code.

    Conventions of the embedding.
      - A JavaScript string is a [string]; the identifiers handled here are
        ASCII, and [toUpperCase] is the ASCII one.
      - A JavaScript Number is an IEEE 754 binary64 value: [spec_float] at
        precision 53 and maximal exponent 1024.  The Numbers that
        [parseInt] returns on a digit string are represented by their
        mathematical value ([IntNumber]).
      - [throw new Error(..)] is the [Throw] branch of [result]; the
        message template becomes a constructor of [Error].
      - The SSP directory is a finite map from document id to document;
        the clock and the UUID generator are passed as arguments. *)

From Stdlib Require Import ZArith NArith QArith Qround Qpower Lia Lqa Bool.
From Stdlib Require Import Strings.Ascii Strings.String.
From Stdlib Require Import Numbers.DecimalString Numbers.DecimalN Numbers.DecimalFacts.
From Stdlib Require Import Floats.SpecFloat.
From Stdlib Require OrderedTypeEx.
From stdpp Require Import base option list strings gmap.

#[local] Open Scope string_scope.
#[local] Open Scope Z_scope.

(** ** Errors and results *)

Inductive Error : Type :=
| ControlIdRequired
| BothControlIdsRequired
| InvalidControlIdFormat (controlId : string)
| InvalidSecurityLevel (securityLevel : string)
| SSPNotFound (sspId : string)
| InvalidImplementationStatus (implementationStatus : string)
| ControlImplementationNotFound (normalizedControlId : string)
| SecurityLevelNotFound (normalizedLevel profileType : string)
| NoPathFound (profileType normalizedLevel : string)
| NoControlsFound (profilePath : string)
| ProfilesDirectoryNotFound (profilesPath : string)
| NoProfileJsonFiles (profilesPath : string)
| NoSecurityLevelsIdentified
| FileReadError (path : string).

Inductive result (A : Type) : Type :=
| Ok (a : A)
| Throw (e : Error).
Arguments Ok {A} a.
Arguments Throw {A} e.

Definition bind {A B} (r : result A) (k : A -> result B) : result B :=
  match r with
  | Ok a => k a
  | Throw e => Throw e
  end.

Notation "'let*' x ':=' r 'in' k" := (bind r (fun x => k))
  (at level 10, x pattern, r at level 100, k at level 200).

Definition isOk {A} (r : result A) : bool :=
  match r with Ok _ => true | Throw _ => false end.

(** [array.map(f)] where [f] may throw: the first exception aborts the map. *)
Fixpoint mapM {A B} (f : A -> result B) (l : list A) : result (list B) :=
  match l with
  | [] => Ok []
  | a :: l' => let* b := f a in let* bs := mapM f l' in Ok (b :: bs)
  end.

(** ** Characters and digit strings *)

Module Char.

Definition code (c : ascii) : N := N_of_ascii c.

Definition isUpper (c : ascii) : bool := ((65 <=? code c) && (code c <=? 90))%N.
Definition isLower (c : ascii) : bool := ((97 <=? code c) && (code c <=? 122))%N.
Definition isDigit (c : ascii) : bool := ((48 <=? code c) && (code c <=? 57))%N.

(** The class [\s] restricted to ASCII: TAB, LF, VT, FF, CR and space. *)
Definition isSpace (c : ascii) : bool :=
(((9 <=? code c) && (code c <=? 13)) || (code c =? 32))%N.

Definition toUpper (c : ascii) : ascii :=
if isLower c then ascii_of_N (code c - 32) else c.

End Char.

Fixpoint toUpperCase (s : string) : string :=
  match s with
  | EmptyString => EmptyString
  | String c s' => String (Char.toUpper c) (toUpperCase s')
  end.

Fixpoint allDigits (s : string) : bool :=
  match s with
  | EmptyString => true
  | String c s' => Char.isDigit c && allDigits s'
  end.

(** ** Numbers *)

Module JSNumber.

Definition prec : Z := 53.
Definition emax : Z := 1024.

(** A Number is a binary64 value. *)
Definition Number : Type := spec_float.

(** [𝔽(z)]: the Number nearest to the integer [z], ties to even. *)
Definition ofZ (z : Z) : Number := binary_normalize prec emax z 0 false.

Definition add : Number -> Number -> Number := SFadd prec emax.
Definition mul : Number -> Number -> Number := SFmul prec emax.
Definition div : Number -> Number -> Number := SFdiv prec emax.

(** The literal [0.5]. *)
Definition half : Number := S754_finite false 4503599627370496 (-53).

(** The Numbers [parseInt] yields on a string of decimal digits, by
  their mathematical value: a non-negative integer that binary64
  represents exactly, or [+Infinity].  [IntFinite (-1)] also stands
  for the literal [-1] of [compareControlIds]. *)
Inductive IntNumber : Type :=
| IntFinite (z : Z)
| IntInfinity.

(** The mathematical value of a Number that holds an integer. *)
Definition toIntNumber (x : Number) : IntNumber :=
match x with
| S754_zero _ => IntFinite 0
| S754_finite s m e =>
    let v := if 0 <=? e then Z.pos m * 2 ^ e else Z.pos m / 2 ^ (- e) in
    IntFinite (if s then - v else v)
| _ => IntInfinity
end.

(** Rounding of a mathematical integer to the Number type. *)
Definition roundInt (z : Z) : IntNumber := toIntNumber (ofZ z).

(** The mathematical integer written by a string of decimal digits. *)
Definition digitsValue (s : string) : Z :=
match NilEmpty.uint_of_string s with
| Some d => Z.of_N (N.of_uint d)
| None => 0
end.

(** [parseInt(s, 10)] for [s] made of decimal digits only. *)
Definition parseInt (s : string) : IntNumber := roundInt (digitsValue s).

Definition decimal (z : Z) : string := NilZero.string_of_uint (N.to_uint (Z.to_N z)).

Definition ltb (a b : IntNumber) : bool :=
match a, b with
| IntFinite x, IntFinite y => x <? y
| IntFinite _, IntInfinity => true
| IntInfinity, _ => false
end.

(** *** Number::toString on integers

  The digits printed for [x] are those of the integer with the fewest
  significant digits among the integers that round to [x].  An
  integer below [2^53] is the only integer that rounds to itself, so
  it is printed in full.  Above, the candidates with [j] trailing
  zeros are the two multiples of [10^j] around [x]; the largest [j]
  with a candidate wins, the nearer candidate first. *)

Definition roundsTo (x y : Z) : bool :=
match roundInt y with
| IntFinite x' => x =? x'
| IntInfinity => false
end.

Fixpoint shortestFrom (x : Z) (j : nat) : Z :=
match j with
| O => x
| S j' =>
    let p := 10 ^ Z.of_nat j in
    let lo := x - x mod p in
    let hi := lo + p in
    let nearLo := x - lo <=? hi - x in
    let c1 := if nearLo then lo else hi in
    let c2 := if nearLo then hi else lo in
    if (0 <? c1) && roundsTo x c1 then c1
    else if (0 <? c2) && roundsTo x c2 then c2
    else shortestFrom x j'
end.

Definition shortest (x : Z) : Z :=
if x <? 2 ^ 53 then x else shortestFrom x 330.

Fixpoint stripZeros (fuel : nat) (z : Z) : Z :=
match fuel with
| O => z
| S f => if (0 <? z) && (z mod 10 =? 0) then stripZeros f (z / 10) else z
end.

(** [d.ddd], the significant digits of an exponent form. *)
Definition pointAfterFirst (digits : string) : string :=
match digits with
| String c EmptyString => digits
| String c rest => String c ("." ++ rest)
| EmptyString => digits
end.

Definition toString (x : IntNumber) : string :=
match x with
| IntInfinity => "Infinity"
| IntFinite z =>
    if z <? 0 then "-" ++ decimal (- z)
    else
      let y := shortest z in
      if y <? 10 ^ 21 then decimal y
      else
        let n := String.length (decimal y) in
        pointAfterFirst (decimal (stripZeros 330 y))
          ++ "e+" ++ decimal (Z.of_nat n - 1)
end.

End JSNumber.

Import JSNumber.


(** ** controlUtils.js *)

Module ControlUtils.

(** The capture groups of a successful [match]: [matches[1]],
  [matches[2]] and [matches[3]] ([None] when the optional group did
  not take part in the match). *)
Record Match : Type := mkMatch {
group1 : string;
group2 : string;
group3 : option string
}.

(** [^([A-Z]{2})]: two capital letters, and the rest of the input. *)
Definition twoUpper (s : string) : option (string * string) :=
match s with
| String a (String b rest) =>
    if Char.isUpper a && Char.isUpper b
    then Some (String a (String b EmptyString), rest)
    else None
| _ => None
end.

(** The longest run of digits at the start, and the rest. *)
Fixpoint spanDigits (s : string) : string * string :=
match s with
| EmptyString => (EmptyString, EmptyString)
| String c s' =>
    if Char.isDigit c
    then let (d, r) := spanDigits s' in (String c d, r)
    else (EmptyString, s)
end.

(** [([0-9]+)]: what follows in every pattern is a non-digit or the end
  of the input, so the group is the longest run. *)
Definition digits1 (s : string) : option (string * string) :=
match spanDigits s with
| (EmptyString, _) => None
| (d, r) => Some (d, r)
end.

Fixpoint dropSpaces (s : string) : string :=
match s with
| EmptyString => EmptyString
| String c s' => if Char.isSpace c then dropSpaces s' else s
end.

(** [\s+]: followed by a digit in the pattern, so the longest run. *)
Definition spaces1 (s : string) : option string :=
match s with
| String c s' => if Char.isSpace c then Some (dropSpaces s') else None
| EmptyString => None
end.

(** [/^([A-Z]{2})\.([0-9]+)(?:\.([0-9]+))?$/] *)
Definition dotNotationRegex (s : string) : option Match :=
match twoUpper s with
| Some (fam, String "." r1) =>
    match digits1 r1 with
    | Some (num, EmptyString) => Some (mkMatch fam num None)
    | Some (num, String "." r2) =>
        match digits1 r2 with
        | Some (enh, EmptyString) => Some (mkMatch fam num (Some enh))
        | _ => None
        end
    | _ => None
    end
| _ => None
end.

(** [/^([A-Z]{2})-([0-9]+)(?:\(([0-9]+)\))?$/] *)
Definition hyphenParensRegex (s : string) : option Match :=
match twoUpper s with
| Some (fam, String "-" r1) =>
    match digits1 r1 with
    | Some (num, EmptyString) => Some (mkMatch fam num None)
    | Some (num, String "(" r2) =>
        match digits1 r2 with
        | Some (enh, String ")" EmptyString) => Some (mkMatch fam num (Some enh))
        | _ => None
        end
    | _ => None
    end
| _ => None
end.

(** [/^([A-Z]{2})-([0-9]+)$/] *)
Definition hyphenRegex (s : string) : option Match :=
match twoUpper s with
| Some (fam, String "-" r1) =>
    match digits1 r1 with
    | Some (num, EmptyString) => Some (mkMatch fam num None)
    | _ => None
    end
| _ => None
end.

(** [/^([A-Z]{2})\s+([0-9]+)$/] *)
Definition spaceRegex (s : string) : option Match :=
match twoUpper s with
| Some (fam, r0) =>
    match spaces1 r0 with
    | Some r1 =>
        match digits1 r1 with
        | Some (num, EmptyString) => Some (mkMatch fam num None)
        | _ => None
        end
    | None => None
    end
| None => None
end.

(** [/^([A-Z]{2})([0-9]+)$/] *)
Definition noSepRegex (s : string) : option Match :=
match twoUpper s with
| Some (fam, r1) =>
    match digits1 r1 with
    | Some (num, EmptyString) => Some (mkMatch fam num None)
    | _ => None
    end
| None => None
end.

Record ParsedControl : Type := mkParsed {
family : string;
number : IntNumber;
enhancement : option IntNumber;   (* [None] is [undefined] *)
internal : string;
mcp : string;
display : string
}.

(** [matches[3] ? parseInt(matches[3], 10) : undefined]: an absent group
  and the empty string are falsy. *)
Definition enhancementOf (g : option string) : option IntNumber :=
match g with
| Some (String _ _ as digits) => Some (parseInt digits)
| _ => None
end.

Definition parse (controlId : string) : result ParsedControl :=
match controlId with
| EmptyString => Throw ControlIdRequired
| _ =>
    let upperControlId := toUpperCase controlId in
    let* fields :=
      match dotNotationRegex upperControlId with
      | Some matches =>
          Ok (group1 matches, parseInt (group2 matches), enhancementOf (group3 matches))
      | None =>
      match hyphenParensRegex upperControlId with
      | Some matches =>
          Ok (group1 matches, parseInt (group2 matches), enhancementOf (group3 matches))
      | None =>
      match hyphenRegex upperControlId with
      | Some matches => Ok (group1 matches, parseInt (group2 matches), None)
      | None =>
      match spaceRegex upperControlId with
      | Some matches => Ok (group1 matches, parseInt (group2 matches), None)
      | None =>
      match noSepRegex upperControlId with
      | Some matches => Ok (group1 matches, parseInt (group2 matches), None)
      | None => Throw (InvalidControlIdFormat controlId)
      end end end end end in
    let '(family, number, enhancement) := fields in
    let internal :=
      (family ++ "." ++ toString number) ++
      match enhancement with
      | Some e => "." ++ toString e
      | None => ""
      end in
    let mcp :=
      (family ++ "-" ++ toString number) ++
      match enhancement with
      | Some e => "(" ++ toString e ++ ")"
      | None => ""
      end in
    Ok (mkParsed family number enhancement internal mcp mcp)
end.

(** [normalize(controlId, format = 'hyphen')] *)
Definition normalize (controlId : string) (format : string) : result string :=
match controlId with
| EmptyString => Throw ControlIdRequired
| _ =>
    let* parsed := parse controlId in
    if String.eqb format "dot" then Ok (internal parsed) else Ok (mcp parsed)
end.

Definition getFamily (controlId : string) : result string :=
match controlId with
| EmptyString => Throw ControlIdRequired
| _ => let* parsed := parse controlId in Ok (family parsed)
end.

Definition hasEnhancement (controlId : string) : result bool :=
match controlId with
| EmptyString => Throw ControlIdRequired
| _ =>
    let* parsed := parse controlId in
    Ok (match enhancement parsed with Some _ => true | None => false end)
end.

Definition getBaseControl (controlId : string) : result string :=
match controlId with
| EmptyString => Throw ControlIdRequired
| _ =>
    let* parsed := parse controlId in
    Ok (family parsed ++ "-" ++ toString (number parsed))
end.

(** On strings [<] compares code units from the left. *)
Definition stringLt (a b : string) : bool := String.ltb a b.

Definition compareControlIds (controlIdA controlIdB : string) : result Z :=
match controlIdA, controlIdB with
| EmptyString, _ | _, EmptyString => Throw BothControlIdsRequired
| _, _ =>
    let* parsedA := parse controlIdA in
    let* parsedB := parse controlIdB in
    if stringLt (family parsedA) (family parsedB) then Ok (-1)
    else if stringLt (family parsedB) (family parsedA) then Ok 1
    else if ltb (number parsedA) (number parsedB) then Ok (-1)
    else if ltb (number parsedB) (number parsedA) then Ok 1
    else
      let enhA := match enhancement parsedA with None => IntFinite (-1) | Some e => e end in
      let enhB := match enhancement parsedB with None => IntFinite (-1) | Some e => e end in
      if ltb enhA enhB then Ok (-1)
      else if ltb enhB enhA then Ok 1
      else Ok 0
end.

End ControlUtils.

Import ControlUtils.

(** ** Array helpers *)

(** [array.includes(s)] on an array of strings. *)
Definition includes (l : list string) (s : string) : bool :=
  existsb (String.eqb s) l.

(** [array.findIndex(p)]; [None] is the result [-1]. *)
Fixpoint findIndex {A} (p : A -> bool) (l : list A) : option nat :=
  match l with
  | [] => None
  | a :: l' => if p a then Some O else option_map S (findIndex p l')
  end.

(** [s.includes(sub)]. *)
Fixpoint stringIncludes (sub s : string) : bool :=
  String.prefix sub s ||
  match s with
  | EmptyString => false
  | String _ s' => stringIncludes sub s'
  end.

(** [s.endsWith(suffix)]. *)
Definition endsWith (suffix s : string) : bool :=
  let n := String.length s in
  let k := String.length suffix in
  (k <=? n)%nat && String.eqb (String.substring (n - k) k s) suffix.

Fixpoint toLowerCase (s : string) : string :=
  match s with
  | EmptyString => EmptyString
  | String c s' =>
      String (if Char.isUpper c then ascii_of_N (Char.code c + 32) else c)
             (toLowerCase s')
  end.

(** [s.split(sep)[0]]: the text before the first [sep]. *)
Fixpoint beforeFirst (sep : ascii) (s : string) : string :=
  match s with
  | EmptyString => EmptyString
  | String c s' => if Ascii.eqb c sep then EmptyString else String c (beforeFirst sep s')
  end.

(** ** oscalService.js *)

Module OscalService.

Record Control : Type := mkControl {
control_id : string;
control_title : string;
control_description : string;
control_family : string;
control_enhancements : option (list string)
}.

Record Catalog : Type := mkCatalog {
catalog_id : string;
catalog_title : string;
catalog_families : list string;
catalog_controls : gmap string Control
}.

(** [loadControlCatalog]: the catalog both versions of the service
  install; its [controls] object is empty. *)
Definition loadControlCatalog : Catalog :=
mkCatalog "nist-800-53-rev5" "NIST SP 800-53 Revision 5"
  ["AC"; "AT"; "AU"; "CA"; "CM"; "CP"; "IA"; "IR"; "MA";
   "MP"; "PE"; "PL"; "PM"; "PS"; "PT"; "RA"; "SA"; "SC"; "SI"]
  ∅.

(** [getControl(controlId, includeEnhancements = false)], the same in
  both versions: the control is made up from the normalized id, the
  catalog is not read. *)
Definition getControl (controlId : string) (includeEnhancements : bool)
: result Control :=
let* normalizedId := normalize controlId "hyphen" in
Ok (mkControl
      normalizedId
      ("Control " ++ normalizedId)
      ("This is a placeholder for control " ++ normalizedId)
      (match beforeFirst "-" normalizedId with
       | EmptyString => beforeFirst "." normalizedId
       | fam => fam
       end)
      (if includeEnhancements then Some [] else None)).

(** [searchControls(query, family, baseline, limit = 20)], the same in
  both versions: the results are taken from four fixed controls. *)
Record ControlSummary : Type := mkSummary {
summary_id : string;
summary_title : string;
summary_family : string
}.

Definition sampleControls : list ControlSummary :=
[mkSummary "AC-1" "Policy and Procedures" "AC";
 mkSummary "AC-2" "Account Management" "AC";
 mkSummary "SI-4" "Information System Monitoring" "SI";
 mkSummary "CM-6" "Configuration Settings" "CM"].

(** [results.slice(0, limit)] for an integer [limit]: a negative
  [limit] counts from the end. *)
Definition slice0 {A} (limit : Z) (results : list A) : list A :=
if limit <? 0
then take (Z.to_nat (Z.of_nat (length results) + limit)) results
else take (Z.to_nat limit) results.

(** An argument that is [undefined] is [None]; the empty string is
  falsy as well.  [baseline] is not read. *)
Definition searchControls (query family baseline : option string) (limit : option Z)
: list ControlSummary :=
let results := sampleControls in
let results :=
  match family with
  | Some (String _ _ as wanted) =>
      List.filter (fun control => String.eqb (summary_family control) wanted) results
  | _ => results
  end in
let results :=
  match query with
  | Some (String _ _ as text) =>
      let lowerQuery := toLowerCase text in
      List.filter
        (fun control =>
           stringIncludes lowerQuery (toLowerCase (summary_id control))
           || stringIncludes lowerQuery (toLowerCase (summary_title control)))
        results
  | _ => results
  end in
slice0 (default 20 limit) results.

(** *** The stand-in version: fixed baselines *)
Module Placeholder.

Definition baselines : gmap string (list string) :=
<["LOW" := ["AC-1"; "AC-2"; "AC-3"; "AC-7"; "AC-8"; "AC-14"; "AC-17";
          "AC-18"; "AC-19"; "AC-20"; "AC-22"]]>
(<["MODERATE" := ["AC-1"; "AC-2"; "AC-2(1)"; "AC-2(2)"; "AC-2(3)";
                "AC-2(4)"; "AC-3"; "AC-4"; "AC-5"; "AC-6"]]>
(<["HIGH" := ["AC-1"; "AC-2"; "AC-2(1)"; "AC-2(2)"; "AC-2(3)"; "AC-2(4)";
            "AC-2(5)"; "AC-2(11)"; "AC-2(12)"; "AC-2(13)"]]> ∅)).


(** [return baselines[securityLevel] || []] (for a [securityLevel]
that is not one of [objectPrototypeMembers]). *)
Definition getBaselineControls (securityLevel : string) : result (list string) :=
Ok (default [] (baselines !! securityLevel)).

End Placeholder.

(** *** The profile-backed version *)
Module Profiles.

(** What [JSON.parse] gives for a profile document, as far as
[getBaselineControls] reads it: [profile.profile?.imports], each
import's ['include-controls'] and each entry's ['with-ids']. *)
Record IncludeControl : Type := mkInclude { with_ids : option (list string) }.
Record ImportObj : Type := mkImport { include_controls : option (list IncludeControl) }.
Record ProfileDoc : Type := mkProfileDoc { imports : option (list ImportObj) }.

(** The file-reading collaborator: [readdir] is [None] when
[fs.access] fails on the directory, [readProfile] is [None] when
[fs.readFile] or [JSON.parse] throws. *)
Record FileSystem : Type := mkFS {
readdir : string -> option (list string);
readProfile : string -> option ProfileDoc
}.

Record ProfileInfo : Type := mkProfileInfo {
profile_id : string;
profile_title : string;
profile_path : string
}.

(** The fields of the service object that the resolver reads and
writes; an [undefined] field is the empty map. *)
Record State : Type := mkState {
profiles : gmap string ProfileInfo;
baselineProfiles : gmap string ProfileInfo;
fedrampProfiles : gmap string ProfileInfo
}.

Definition PROFILES_BASE_PATH : string := "oscal-content/profiles".
Definition BASELINES_PATH : string := PROFILES_BASE_PATH ++ "/baselines".
Definition FEDRAMP_PATH : string := PROFILES_BASE_PATH ++ "/fedramp".

Definition pathJoin (dir file : string) : string := dir ++ "/" ++ file.

(** [path.basename(file, '.json')] on a file name. *)
Definition basenameJson (file : string) : string :=
if endsWith ".json" file
then String.substring 0 (String.length file - 5) file
else file.

(** The tier a file name stands for, by the first of ['low'],
['moderate'], ['high'] that its lower-cased name contains. *)
Definition levelOfFile (file : string) : option string :=
let name := toLowerCase file in
if stringIncludes "low" name then Some "LOW"
else if stringIncludes "moderate" name then Some "MODERATE"
else if stringIncludes "high" name then Some "HIGH"
else None.

(** [securityLevel.charAt(0) + securityLevel.slice(1).toLowerCase()] *)
Definition capitalized (securityLevel : string) : string :=
match securityLevel with
| EmptyString => EmptyString
| String c rest => String c (toLowerCase rest)
end.

(** The loop over [jsonFiles]: a later file of the same tier
replaces the earlier entry. *)
Fixpoint mapFiles (profileType profilesPath : string) (jsonFiles : list string)
              (acc : gmap string ProfileInfo) : gmap string ProfileInfo :=
match jsonFiles with
| [] => acc
| file :: rest =>
  match levelOfFile file with
  | Some securityLevel =>
      mapFiles profileType profilesPath rest
        (<[securityLevel :=
             mkProfileInfo
               (basenameJson file)
               ((if String.eqb profileType "fedramp" then "FedRAMP" else "")
                  ++ " " ++ capitalized securityLevel ++ " Impact Baseline")
               (pathJoin profilesPath file)]> acc)
  | None => mapFiles profileType profilesPath rest acc
  end
end.

(** [loadBaselineProfiles(profileType = 'baseline')]: the result and
the state the call leaves. *)
Definition loadBaselineProfiles (fs : FileSystem) (st : State) (profileType : string)
: result (gmap string ProfileInfo) * State :=
let profilesPath :=
if String.eqb profileType "fedramp" then FEDRAMP_PATH else BASELINES_PATH in
match readdir fs profilesPath with
| None => (Throw (ProfilesDirectoryNotFound profilesPath), st)
| Some profileFiles =>
  let jsonFiles := filter (fun file => Is_true (endsWith ".json" file)) profileFiles in
  match jsonFiles with
  | [] => (Throw (NoProfileJsonFiles profilesPath), st)
  | _ =>
      let found := mapFiles profileType profilesPath jsonFiles ∅ in
      let st1 := mkState found (baselineProfiles st) (fedrampProfiles st) in
      if bool_decide (found = ∅)
      then (Throw NoSecurityLevelsIdentified, st1)
      else
        (Ok found,
         if String.eqb profileType "fedramp"
         then mkState found (baselineProfiles st) found
         else mkState found found (fedrampProfiles st))
  end
end.

(** The walk over [profile.profile.imports] that collects the
['with-ids'] arrays, in order. *)
Definition idsOfImport (importObj : ImportObj) : list string :=
match include_controls importObj with
| Some includes =>
  flat_map (fun includeControl => default [] (with_ids includeControl)) includes
| None => []
end.

Definition extractControlIds (profile : ProfileDoc) : list string :=
match imports profile with
| Some importObjs => flat_map idsOfImport importObjs
| None => []
end.

(** The part of [getBaselineControls] after the profile set is
chosen: look the tier up, read its document, collect the ids. *)
Definition readControlIds (fs : FileSystem) (profileSet : gmap string ProfileInfo)
                      (normalizedLevel profileType : string)
: result (list string) :=
match profileSet !! normalizedLevel with
| None => Throw (SecurityLevelNotFound normalizedLevel profileType)
| Some info =>
  let profilePath := profile_path info in
  match profilePath with
  | EmptyString => Throw (NoPathFound profileType normalizedLevel)
  | _ =>
      match readProfile fs profilePath with
      | None => Throw (FileReadError profilePath)
      | Some profile =>
          let controlIds := extractControlIds profile in
          match controlIds with
          | [] => Throw (NoControlsFound profilePath)
          | _ => Ok controlIds
          end
      end
  end
end.

(** [getBaselineControls(securityLevel, profileType = 'baseline')]:
the result and the state the call leaves. *)
Definition getBaselineControls (fs : FileSystem) (st : State)
                           (securityLevel profileType : string)
: result (list string) * State :=
let normalizedLevel := toUpperCase securityLevel in
if String.eqb profileType "fedramp" then
if bool_decide (fedrampProfiles st = ∅) then
  match loadBaselineProfiles fs st "fedramp" with
  | (Throw e, st1) => (Throw e, st1)
  | (Ok _, st1) =>
      (readControlIds fs (fedrampProfiles st1) normalizedLevel profileType, st1)
  end
else (readControlIds fs (fedrampProfiles st) normalizedLevel profileType, st)
else
if bool_decide (baselineProfiles st = ∅) then
  match loadBaselineProfiles fs st "baseline" with
  | (Throw e, st1) => (Throw e, st1)
  | (Ok _, st1) =>
      (readControlIds fs (baselineProfiles st1) normalizedLevel profileType, st1)
  end
else (readControlIds fs (baselineProfiles st) normalizedLevel profileType, st).

End Profiles.

End OscalService.

(** ** sspService.js *)

Module SspService.

Record ControlImplementation : Type := mkImplementation {
controlId : string;
status : string;
description : option string;        (* [None]: [undefined], dropped by JSON *)
responsibleRoles : list string;
lastUpdated : option string          (* absent on the records [createSSP] seeds *)
}.

Record Metadata : Type := mkMetadata {
title : string;
lastModified : string;
version : string;
oscalVersion : string
}.

Record SystemCharacteristics : Type := mkCharacteristics {
systemName : string;
systemDescription : string;
securityImpactLevel : string;
systemStatus : string;
authorizationType : string
}.

Record SSP : Type := mkSSP {
id : string;
uuid : string;
metadata : Metadata;
systemCharacteristics : SystemCharacteristics;
controlImplementations : list ControlImplementation;
created : string;
updated : string
}.

(** The directory [SSP_DIR]: the document stored as [<id>.json], by id. *)
Abbreviation Store := (gmap string SSP).

(** Computations that read and write [SSP_DIR] and may throw: the
  outcome and the directory the computation leaves. *)
Definition Io (A : Type) : Type := Store -> result A * Store.

Definition ret {A} (a : A) : Io A := fun st => (Ok a, st).
Definition throw {A} (e : Error) : Io A := fun st => (Throw e, st).
Definition lift {A} (r : result A) : Io A := fun st => (r, st).
Definition iobind {A B} (m : Io A) (k : A -> Io B) : Io B :=
fun st =>
  match m st with
  | (Ok a, st') => k a st'
  | (Throw e, st') => (Throw e, st')
  end.

Notation "'do' x '<-' m ';' k" := (iobind m (fun x => k))
(at level 10, x name, m at level 100, k at level 200).

(** [fs.readFile] followed by [JSON.parse]. *)
Definition readFile (sspId : string) : Io SSP :=
fun st =>
  match st !! sspId with
  | Some ssp => (Ok ssp, st)
  | None => (Throw (FileReadError sspId), st)
  end.

(** [fs.writeFile(path, JSON.stringify(ssp))]: the file is replaced. *)
Definition writeFile (sspId : string) (ssp : SSP) : Io unit :=
fun st => (Ok tt, <[sspId := ssp]> st).

Definition validLevels : list string := ["LOW"; "MODERATE"; "HIGH"].

Definition validStatuses : list string :=
["IMPLEMENTED"; "PARTIALLY_IMPLEMENTED"; "PLANNED";
 "ALTERNATIVE_IMPLEMENTATION"; "NOT_APPLICABLE"].

Definition normalizeControlId (controlId : string) : result string :=
normalize controlId "hyphen".

(** What [createSSP] takes from [randomUUID()] and [new Date()], in the
  order of the calls. *)
Record CreateEnv : Type := mkCreateEnv {
uuidForId : string;
uuidForDocument : string;
nowLastModified : string;
nowCreated : string;
nowUpdated : string
}.

(** What [addControlImplementation] takes from [new Date()]. *)
Record UpdateEnv : Type := mkUpdateEnv {
nowLastUpdated : string;
nowDocumentUpdated : string
}.

Section WithOscalService.

(** [oscalService.getBaselineControls(securityLevel)] *)
Variable getBaselineControls : string -> result (list string).

(** The record seeded for one baseline entry. *)
Definition plannedImplementation (controlId : string) : result ControlImplementation :=
let* normalized := normalizeControlId controlId in
Ok (mkImplementation
    normalized
    "PLANNED"
    (Some ("Implementation of " ++ controlId ++ " is planned."))
    []
    None).

Definition createSSP (env : CreateEnv) (title description securityLevel : string)
                 (systemId : option string) : Io SSP :=
if negb (includes validLevels securityLevel)
then throw (InvalidSecurityLevel securityLevel)
else
let id :=
  match systemId with
  | Some (String _ _ as given) => given
  | _ => uuidForId env
  end in
let ssp :=
  mkSSP id (uuidForDocument env)
    (mkMetadata title (nowLastModified env) "1.0" "1.1.0")
    (mkCharacteristics title description securityLevel "operational" "fedramp")
    []
    (nowCreated env) (nowUpdated env) in
do baselineControls <- lift (getBaselineControls securityLevel);
do implementations <- lift (mapM plannedImplementation baselineControls);
let ssp :=
  mkSSP (SspService.id ssp) (uuid ssp) (metadata ssp) (systemCharacteristics ssp)
    implementations (created ssp) (updated ssp) in
do _ <- writeFile id ssp;
ret ssp.

Definition getSSP (sspId : string) : Io SSP :=
fun st =>
match readFile sspId st with
| (Ok ssp, st') => (Ok ssp, st')
| (Throw _, st') => (Throw (SSPNotFound sspId), st')
end.

(** The update of [ssp.controlImplementations]: the first record
with the normalized id is replaced, and without one the new
record is pushed. *)
Definition upsert (normalizedControlId : string) (implementation : ControlImplementation)
              (implementations : list ControlImplementation)
: list ControlImplementation :=
let implementationIndex :=
findIndex (fun impl => String.eqb (SspService.controlId impl) normalizedControlId)
          implementations in
match implementationIndex with
| Some i => <[i := implementation]> implementations
| None => (implementations ++ [implementation])%list
end.

(** [responsibleRoles = []] with [responsibleRoles || []]: [None] is
an [undefined] or [null] argument. *)
Definition addControlImplementation
(env : UpdateEnv) (sspId controlId implementationStatus : string)
(description : option string) (responsibleRoles : option (list string))
: Io ControlImplementation :=
do ssp <- getSSP sspId;
do normalizedControlId <- lift (normalizeControlId controlId);
if negb (includes validStatuses implementationStatus)
then throw (InvalidImplementationStatus implementationStatus)
else
let implementation :=
  mkImplementation normalizedControlId implementationStatus description
    (default [] responsibleRoles) (Some (nowLastUpdated env)) in
let ssp :=
  mkSSP (SspService.id ssp) (uuid ssp) (metadata ssp) (systemCharacteristics ssp)
    (upsert normalizedControlId implementation (controlImplementations ssp))
    (created ssp) (nowDocumentUpdated env) in
do _ <- writeFile sspId ssp;
ret implementation.

Definition getControlImplementation (sspId controlId : string) : Io ControlImplementation :=
do ssp <- getSSP sspId;
do normalizedControlId <- lift (normalizeControlId controlId);
match List.find (fun impl => String.eqb (SspService.controlId impl) normalizedControlId)
              (controlImplementations ssp) with
| Some implementation => ret implementation
| None => throw (ControlImplementationNotFound normalizedControlId)
end.

Definition listControlImplementations (sspId : string) (status : option string)
: Io (list ControlImplementation) :=
do ssp <- getSSP sspId;
match status with
| Some (String _ _ as wanted) =>
  ret (List.filter (fun impl => String.eqb (SspService.status impl) wanted)
                   (controlImplementations ssp))
| _ => ret (controlImplementations ssp)
end.

(** *** validateSSP *)

Abbreviation Counts := (gmap string nat).

Definition initialCounts : Counts :=
<["IMPLEMENTED" := O]> (<["PARTIALLY_IMPLEMENTED" := O]> (<["PLANNED" := O]>
(<["ALTERNATIVE_IMPLEMENTATION" := O]> (<["NOT_APPLICABLE" := O]> ∅)))).

(** [implementationByStatus[impl.status] =
 (implementationByStatus[impl.status] || 0) + 1], for each record
in turn (for statuses that are not names of members of
[Object.prototype]). *)
Definition countStatuses (implementations : list ControlImplementation) : Counts :=
fold_left
(fun counts impl =>
   <[SspService.status impl := S (default O (counts !! SspService.status impl))]> counts)
implementations initialCounts.

(** [x.toFixed(2)] for a finite [x] below [10^21]: the integer [n]
with [n / 100 - x] nearest to zero, the larger one of two; the
text is [n] with a point before its last two digits. *)
Definition toFixed2 (x : Number) : Z :=
match x with
| S754_finite s m e =>
  let n :=
    if 0 <=? e then Z.pos m * 2 ^ e * 100
    else (2 * 100 * Z.pos m + 2 ^ (- e)) / (2 * 2 ^ (- e)) in
  if s then - n else n
| _ => 0
end.

(** [parseFloat] of the text [toFixed(2)] wrote for [n]: the Number
nearest to [n / 100], which is the quotient of the two Numbers. *)
Definition parseFloat2 (n : Z) : Number := div (ofZ n) (ofZ 100).

(** [((implementedCount + (partiallyImplementedCount * 0.5)) /
  totalControls) * 100] *)
Definition rawPercentage (implementedCount partiallyImplementedCount totalControls : nat)
: Number :=
mul (div (add (ofZ (Z.of_nat implementedCount))
            (mul (ofZ (Z.of_nat partiallyImplementedCount)) half))
       (ofZ (Z.of_nat totalControls)))
  (ofZ 100).

Record ValidationReport : Type := mkReport {
valid : bool;
missingControls : list string;
implementationByStatus : Counts;
implementationPercentage : Number;
totalControls : nat
}.

Definition validateSSP (sspId : string) : Io ValidationReport :=
do ssp <- getSSP sspId;
let securityLevel := securityImpactLevel (systemCharacteristics ssp) in
do baselineControls <- lift (getBaselineControls securityLevel);
do normalizedBaselineControls <- lift (mapM normalizeControlId baselineControls);
let implementedControls := map SspService.controlId (controlImplementations ssp) in
let missingControls :=
List.filter (fun controlId => negb (includes implementedControls controlId))
            normalizedBaselineControls in
let implementationByStatus := countStatuses (controlImplementations ssp) in
let totalControls := length (controlImplementations ssp) in
let implementedCount := default O (implementationByStatus !! "IMPLEMENTED") in
let partiallyImplementedCount :=
default O (implementationByStatus !! "PARTIALLY_IMPLEMENTED") in
let implementationPercentage :=
if (totalControls =? 0)%nat then ofZ 0
else parseFloat2 (toFixed2
       (rawPercentage implementedCount partiallyImplementedCount totalControls)) in
ret (mkReport
     (length missingControls =? 0)%nat
     missingControls
     implementationByStatus
     implementationPercentage
     totalControls).

End WithOscalService.

End SspService.

(** ** extensionControlsService.js *)

Module ExtensionControls.

(** What [JSON.parse] gives for a controls file, as far as the service
  reads it.  A control has a string [id]; its other fields may be
  absent.  A family has a [name] and a [controls] array.  The data has
  either a [control_families] array or a flat [controls] array; a field
  that is absent or [null] is [None]. *)
Record Control : Type := mkControl {
id : string;
title : option string;
description : option string;
notes : option string;
family : option string
}.

Record Family : Type := mkFamily {
name : string;
controls : list Control
}.

Record ControlData : Type := mkData {
control_families : option (list Family);
data_controls : option (list Control)
}.

(** [fs.readFile] followed by [JSON.parse]: the call throws (or the
  value is [null], whose fields cannot be read), the value is one of
  the falsy ones ([0], [false], the empty string), or it is data. *)
Inductive FileContent : Type :=
| Unreadable
| Falsy
| Data (controlData : ControlData).

(** [controlsCache]: the data loaded so far, by path (for a path that
  is not the name of a member of [Object.prototype]). *)
Abbreviation Cache := (gmap string ControlData).

(** A call returns, or throws the error of [loadControls]:
  "Failed to load extension controls data: ...". *)
Inductive outcome (A : Type) : Type :=
| Returned (a : A)
| LoadFailed (controlsPath : string).
Arguments Returned {A} a.
Arguments LoadFailed {A} controlsPath.

Definition DEFAULT_CONTROLS_PATH : string :=
"oscal-content/extensions/nist-800-53/cloud-native/cloud-native-controls.json".

(** The fields of a falsy value: none. *)
Definition noData : ControlData := mkData None None.

Section WithFiles.

Variable readJson : string -> FileContent.

(** [loadControls(controlsPath = DEFAULT_CONTROLS_PATH)]: the result and
  the cache the call leaves.  A falsy value is stored as it is read,
  and is read again by the next call. *)
Definition loadControls (controlsPath : option string) (cache : Cache)
: outcome ControlData * Cache :=
let path := default DEFAULT_CONTROLS_PATH controlsPath in
match cache !! path with
| Some cached => (Returned cached, cache)
| None =>
    match readJson path with
    | Unreadable => (LoadFailed path, cache)
    | Falsy => (Returned noData, cache)
    | Data controlData => (Returned controlData, <[path := controlData]> cache)
    end
end.

(** [s.replace(/\\s+/g, '')]: the pattern is a backslash followed by
  one or more letters [s]; every such run is removed.  [inRun] holds
  while the letters of a run are being skipped. *)
Fixpoint removeBackslashS (inRun : bool) (s : string) : string :=
match s with
| EmptyString => EmptyString
| String c rest =>
    if inRun && Ascii.eqb c "s" then removeBackslashS true rest
    else
      match rest with
      | String "s" _ =>
          if Ascii.eqb c "\" then removeBackslashS true rest
          else String c (removeBackslashS false rest)
      | _ => String c (removeBackslashS false rest)
      end
end.

(** [id.toUpperCase().replace(/\\s+/g, '')] *)
Definition normalizedId (controlId : string) : string :=
removeBackslashS false (toUpperCase controlId).

(** The inner loop: the first control of the array with the id. *)
Definition firstWithId (normalizedInputId : string) (array : list Control)
: option Control :=
List.find (fun control => String.eqb (normalizedId (id control)) normalizedInputId) array.

(** The outer loop over the families. *)
Fixpoint firstInFamilies (normalizedInputId : string) (families : list Family)
: option Control :=
match families with
| [] => None
| family :: rest =>
    match firstWithId normalizedInputId (controls family) with
    | Some control => Some control
    | None => firstInFamilies normalizedInputId rest
    end
end.

(** [getControlById(controlId, controlsPath)]; [None] is [null]. *)
Definition getControlById (controlId : string) (controlsPath : option string)
                        (cache : Cache) : outcome (option Control) * Cache :=
match loadControls controlsPath cache with
| (LoadFailed path, cache') => (LoadFailed path, cache')
| (Returned controlData, cache') =>
    let normalizedInputId := normalizedId controlId in
    (Returned
       match control_families controlData with
       | Some families => firstInFamilies normalizedInputId families
       | None =>
           match data_controls controlData with
           | Some flat => firstWithId normalizedInputId flat
           | None => None
           end
       end, cache')
end.

(** A string field that is present and not empty. *)
Definition truthy (field : option string) : option string :=
match field with
| Some (String _ _ as text) => Some text
| _ => None
end.

(** [families.add(control.family)] on a [Set], kept in insertion order. *)
Definition addFamily (families : list string) (control : Control) : list string :=
match truthy (family control) with
| Some familyName =>
    if includes families familyName then families
    else (families ++ [familyName])%list
| None => families
end.

(** [listControlFamilies(controlsPath)] *)
Definition listControlFamilies (controlsPath : option string) (cache : Cache)
: outcome (list string) * Cache :=
match loadControls controlsPath cache with
| (LoadFailed path, cache') => (LoadFailed path, cache')
| (Returned controlData, cache') =>
    (Returned
       match control_families controlData with
       | Some families => map name families
       | None => fold_left addFamily (default [] (data_controls controlData)) []
       end, cache')
end.

(** [text && text.toLowerCase().includes(needle)] *)
Definition fieldIncludes (needle : string) (field : option string) : bool :=
match truthy field with
| Some text => stringIncludes needle (toLowerCase text)
| None => false
end.

(** [getControlsByFamily(familyName, controlsPath)] *)
Definition getControlsByFamily (familyName : string) (controlsPath : option string)
                             (cache : Cache) : outcome (list Control) * Cache :=
match loadControls controlsPath cache with
| (LoadFailed path, cache') => (LoadFailed path, cache')
| (Returned controlData, cache') =>
    let normalizedFamilyName := toLowerCase familyName in
    (Returned
       match control_families controlData with
       | Some families =>
           match List.find
                   (fun f => stringIncludes normalizedFamilyName (toLowerCase (name f)))
                   families with
           | Some found => controls found
           | None => []
           end
       | None =>
           match data_controls controlData with
           | Some flat =>
               List.filter (fun control => fieldIncludes normalizedFamilyName (family control))
                           flat
           | None => []
           end
       end, cache')
end.

(** The search criteria: [criteria.id], [criteria.familyName] and
  [criteria.keywords]. *)
Record Criteria : Type := mkCriteria {
criteria_id : option string;
criteria_familyName : option string;
criteria_keywords : option string
}.

(** The tests of the inner loop on one control: the id, then the
  keywords in the title, the description and the notes. *)
Definition matchesId (criteria : Criteria) (control : Control) : bool :=
match truthy (criteria_id criteria) with
| Some wanted => stringIncludes (toLowerCase wanted) (toLowerCase (id control))
| None => true
end.

Definition matchesKeywords (criteria : Criteria) (control : Control) : bool :=
match truthy (criteria_keywords criteria) with
| Some text =>
    let keywords := toLowerCase text in
    fieldIncludes keywords (title control)
    || fieldIncludes keywords (description control)
    || fieldIncludes keywords (notes control)
| None => true
end.

(** The test on a family of the nested form, and on the family field
  of a control of the flat form: a control without family passes. *)
Definition familyMatches (criteria : Criteria) (f : Family) : bool :=
match truthy (criteria_familyName criteria) with
| Some wanted => stringIncludes (toLowerCase wanted) (toLowerCase (name f))
| None => true
end.

Definition controlFamilyMatches (criteria : Criteria) (control : Control) : bool :=
match truthy (criteria_familyName criteria), truthy (family control) with
| Some wanted, Some own => stringIncludes (toLowerCase wanted) (toLowerCase own)
| _, _ => true
end.

(** [searchControls(criteria, controlsPath)] *)
Definition searchControls (criteria : Criteria) (controlsPath : option string)
                        (cache : Cache) : outcome (list Control) * Cache :=
match loadControls controlsPath cache with
| (LoadFailed path, cache') => (LoadFailed path, cache')
| (Returned controlData, cache') =>
    (Returned
       match control_families controlData with
       | Some families =>
           flat_map
             (fun f =>
                if familyMatches criteria f
                then List.filter
                       (fun control => matchesId criteria control
                                       && matchesKeywords criteria control)
                       (controls f)
                else [])
             families
       | None =>
           match data_controls controlData with
           | Some flat =>
               List.filter
                 (fun control => controlFamilyMatches criteria control
                                 && matchesId criteria control
                                 && matchesKeywords criteria control)
                 flat
           | None => []
           end
       end, cache')
end.

End WithFiles.

End ExtensionControls.

(** ** Vocabulary of the specification *)

(** The two renderings of an identifier: [FAMILY.NUMBER[.ENHANCEMENT]]
    and [FAMILY-NUMBER[(ENHANCEMENT)]], as [parse] builds them. *)
Definition dotted (family : string) (number : IntNumber)
                  (enhancement : option IntNumber) : string :=
  (family ++ "." ++ toString number) ++
  match enhancement with
  | Some e => "." ++ toString e
  | None => ""
  end.

Definition hyphenated (family : string) (number : IntNumber)
                      (enhancement : option IntNumber) : string :=
  (family ++ "-" ++ toString number) ++
  match enhancement with
  | Some e => "(" ++ toString e ++ ")"
  | None => ""
  end.

(** A family code: two capital letters. *)
Definition isFamily (family : string) : bool :=
  match family with
  | String a (String b EmptyString) => Char.isUpper a && Char.isUpper b
  | _ => false
  end.

(** The integers that a Number holds exactly and prints in full. *)
Definition isSafeInteger (n : IntNumber) : bool :=
  match n with
  | IntFinite z => (0 <=? z) && (z <? 2 ^ 53)
  | IntInfinity => false
  end.

Definition isSafeEnhancement (enhancement : option IntNumber) : bool :=
  match enhancement with
  | Some e => isSafeInteger e
  | None => true
  end.

(** The order of the specification on identifiers: family, then number,
    then enhancement, an absent enhancement first. *)
Definition compareInt (x y : IntNumber) : comparison :=
  if ltb x y then Lt else if ltb y x then Gt else Eq.

Definition compareEnhancement (x y : option IntNumber) : comparison :=
  match x, y with
  | None, None => Eq
  | None, Some _ => Lt
  | Some _, None => Gt
  | Some u, Some v => compareInt u v
  end.

Definition identifierCompare (a b : ParsedControl) : comparison :=
  match String.compare (family a) (family b) with
  | Eq =>
      match compareInt (number a) (number b) with
      | Eq => compareEnhancement (enhancement a) (enhancement b)
      | c => c
      end
  | c => c
  end.

Definition signOf (c : comparison) : Z :=
  match c with Lt => -1 | Eq => 0 | Gt => 1 end.

(** Equality of identifiers: the three fields. *)
Definition sameIdentifier (a b : ParsedControl) : Prop :=
  family a = family b /\ number a = number b /\ enhancement a = enhancement b.

(** The record [createSSP] seeds for the baseline entry [raw] whose
    normalized id is [normalizedId]. *)
Definition seeded (raw normalizedId : string) : SspService.ControlImplementation :=
  SspService.mkImplementation normalizedId "PLANNED"
    (Some ("Implementation of " ++ raw ++ " is planned.")) [] None.

(** A record without its [lastUpdated] stamp. *)
Definition withoutLastUpdated (r : SspService.ControlImplementation)
  : SspService.ControlImplementation :=
  SspService.mkImplementation (SspService.controlId r) (SspService.status r)
    (SspService.description r) (SspService.responsibleRoles r) None.

(** The ids stored in the records of a document. *)
Definition storedIds (ssp : SspService.SSP) : list string :=
  map SspService.controlId (SspService.controlImplementations ssp).

(** A stored id is in normalized form when it is the hyphen/paren
    rendering of what it parses to. *)
Definition isNormalizedId (s : string) : Prop :=
  exists p, parse s = Ok p /\ mcp p = s.

(** The error kinds of the specification, on the errors of the
    profile-backed resolver: no document for the tier, and a document
    without identifiers. *)
Definition isProfileNotFound (e : Error) : Prop :=
  match e with
  | SecurityLevelNotFound _ _ | ProfilesDirectoryNotFound _
  | NoProfileJsonFiles _ | NoSecurityLevelsIdentified => True
  | _ => False
  end.


(** The profile set that [getBaselineControls] consults for a profile
    type, and the directory it is loaded from. *)
Definition profileSetOf (profileType : string) (st : OscalService.Profiles.State)
  : gmap string OscalService.Profiles.ProfileInfo :=
  if String.eqb profileType "fedramp"
  then OscalService.Profiles.fedrampProfiles st
  else OscalService.Profiles.baselineProfiles st.


(** The rational value of a finite Number, and the unit roundoff of
    binary64 used in the error bounds. *)
Definition valueOf (x : Number) : Q :=
  match x with
  | S754_finite s m e =>
      ((if s then -1 else 1) * inject_Z (Z.pos m) * (2 # 1) ^ e)%Q
  | _ => 0%Q
  end.

Definition roundoff : Q := 1 # 4503599627370496.

(** A positive normal Number: mantissa of 53 digits. *)
Definition normal53 (x : Number) (m : positive) (e : Z) : Prop :=
  x = S754_finite false m e /\ Z.pos (digits2_pos m) = 53.

(** [r] is [v] up to [k] roundings. *)
Definition within (k : nat) (r v : Q) : Prop :=
  (v * (1 - roundoff) ^ Z.of_nat k <= r /\ r <= v * (1 + roundoff) ^ Z.of_nat k)%Q.

(** The counts [validateSSP] reads off a list of records. *)
Definition countStatus (wanted : string) (recs : list SspService.ControlImplementation) : nat :=
  length (List.filter (fun r => String.eqb (SspService.status r) wanted) recs).

(** The score formula of the specification, as a rational:
    [100 * (implementedCount + 0.5 * partiallyImplementedCount) / totalControls]. *)
Definition scoreFormula (implementedCount partiallyImplementedCount totalControls : nat) : Q :=
  (100 * (inject_Z (Z.of_nat implementedCount)
          + (1 # 2) * inject_Z (Z.of_nat partiallyImplementedCount))
   / inject_Z (Z.of_nat totalControls))%Q.

(** ** Vocabulary of the further properties *)

(** An ASCII letter, and a run of [\s] characters. *)
Definition isLetter (c : ascii) : bool := Char.isUpper c || Char.isLower c.

Fixpoint allSpaces (s : string) : bool :=
  match s with
  | EmptyString => true
  | String c s' => Char.isSpace c && allSpaces s'
  end.

(** The text that a pattern matched, from its groups. *)
Definition plainForm (u : string) (m : Match) (sep : string) : Prop :=
  isFamily (group1 m) = true /\ allDigits (group2 m) = true /\
  group2 m <> EmptyString /\ group3 m = None /\
  u = group1 m ++ sep ++ group2 m.

Definition enhancedForm (u : string) (m : Match) (sep1 sep2 close : string) : Prop :=
  isFamily (group1 m) = true /\ allDigits (group2 m) = true /\
  group2 m <> EmptyString /\
  exists d2, group3 m = Some d2 /\ allDigits d2 = true /\ d2 <> EmptyString /\
             u = group1 m ++ sep1 ++ group2 m ++ sep2 ++ d2 ++ close.

(** The record [parse] returns for three fields. *)
Definition parsedOf (family : string) (number : IntNumber)
                    (enhancement : option IntNumber) : ParsedControl :=
  mkParsed family number enhancement
    (dotted family number enhancement)
    (hyphenated family number enhancement)
    (hyphenated family number enhancement).

(** A record as the service writes it: a recognised status, and an id
    that is the normalized form of some text; a directory of such
    records. *)
Definition wellFormedRecord (r : SspService.ControlImplementation) : Prop :=
  In (SspService.status r) SspService.validStatuses /\
  exists raw p, parse raw = Ok p /\ SspService.controlId r = mcp p.

Definition wellFormedStore (st : gmap string SspService.SSP) : Prop :=
  forall sspId doc,
    st !! sspId = Some doc ->
    Forall wellFormedRecord (SspService.controlImplementations doc).

(** [report.implementationByStatus[status] || 0] *)
Definition reportedCount (report : SspService.ValidationReport) (status : string) : nat :=
  default O (SspService.implementationByStatus report !! status).



(** The two filters of [searchControls], before the limit. *)
Definition searchMatches (query family : option string)
  : list OscalService.ControlSummary :=
  let results := OscalService.sampleControls in
  let results :=
    match family with
    | Some (String _ _ as wanted) =>
        List.filter (fun control => String.eqb (OscalService.summary_family control) wanted) results
    | _ => results
    end in
  match query with
  | Some (String _ _ as text) =>
      let lowerQuery := toLowerCase text in
      List.filter
        (fun control =>
           stringIncludes lowerQuery (toLowerCase (OscalService.summary_id control))
           || stringIncludes lowerQuery (toLowerCase (OscalService.summary_title control)))
        results
  | _ => results
  end.

(** The controls of a controls file, in the order of the document: those
    of the families when the data has families, the flat list otherwise. *)
Definition allControls (controlData : ExtensionControls.ControlData)
  : list ExtensionControls.Control :=
  match ExtensionControls.control_families controlData with
  | Some families => flat_map ExtensionControls.controls families
  | None => default [] (ExtensionControls.data_controls controlData)
  end.

(** ** Vocabulary of the specification: identifiers and rounding *)

(** The Numbers that print as a run of digits: from [10^21] on a Number
    prints in exponent form. *)
Definition printsDigits (n : IntNumber) : bool :=
  match n with
  | IntFinite z => z <? 10 ^ 21
  | IntInfinity => false
  end.

Definition enhancementPrintsDigits (enhancement : option IntNumber) : bool :=
  match enhancement with
  | Some e => printsDigits e
  | None => true
  end.

(** *** The identifier of the specification

    The canonical value of section 3: a family code, a number and an
    optional enhancement, the numbers being mathematical integers
    ("no upper bound is enforced"). *)
Record ControlIdentifier : Type := mkIdentifier {
  id_family : string;
  id_number : Z;
  id_enhancement : option Z
}.

(** What may stand between the family and the number of a text without
    enhancement: a dot, a hyphen, white space, or nothing. *)
Definition isSeparator (sep : string) : Prop :=
  sep = "." \/ sep = "-" \/ sep = "" \/ (sep <> "" /\ allSpaces sep = true).

(** The grammars of section 4.1, letter case apart: a text writes an
    identifier when it is the family, a separator and the number, or
    [FAMILY.NUMBER.ENHANCEMENT], or [FAMILY-NUMBER(ENHANCEMENT)]; the
    numbers are runs of decimal digits, read in base 10. *)
Inductive writes (t : string) : ControlIdentifier -> Prop :=
| writes_number (f sep d : string) :
    isFamily f = true -> isSeparator sep ->
    allDigits d = true -> d <> "" ->
    toUpperCase t = f ++ sep ++ d ->
    writes t (mkIdentifier f (digitsValue d) None)
| writes_enhancement (f d d2 : string) :
    isFamily f = true ->
    allDigits d = true -> d <> "" -> allDigits d2 = true -> d2 <> "" ->
    toUpperCase t = f ++ "." ++ d ++ "." ++ d2 \/
    toUpperCase t = f ++ "-" ++ d ++ "(" ++ d2 ++ ")" ->
    writes t (mkIdentifier f (digitsValue d) (Some (digitsValue d2))).

(** The integers up to [2^53]: a Number holds each of them, and prints
    it in full. *)
Definition inExactRange (id : ControlIdentifier) : Prop :=
  id_number id <= 2 ^ 53 /\
  match id_enhancement id with
  | Some e => e <= 2 ^ 53
  | None => True
  end.

(** The two forms of [render(id, form)], and the format that
    [normalize] takes for each. *)
Inductive Form : Type := Dotted | Hyphenated.

Definition formatName (form : Form) : string :=
  match form with
  | Dotted => "dot"
  | Hyphenated => "hyphen"
  end.

(** [FAMILY.NUMBER[.ENHANCEMENT]] and [FAMILY-NUMBER[(ENHANCEMENT)]],
    the numbers in base 10. *)
Definition render (id : ControlIdentifier) (form : Form) : string :=
  match form with
  | Dotted =>
      (id_family id ++ "." ++ decimal (id_number id)) ++
      match id_enhancement id with
      | Some e => "." ++ decimal e
      | None => ""
      end
  | Hyphenated =>
      (id_family id ++ "-" ++ decimal (id_number id)) ++
      match id_enhancement id with
      | Some e => "(" ++ decimal e ++ ")"
      | None => ""
      end
  end.

(** The form a text is written in, by what follows its two letters. *)
Definition formOf (t : string) : option Form :=
  match t with
  | String _ (String _ (String "." _)) => Some Dotted
  | String _ (String _ (String "-" _)) => Some Hyphenated
  | _ => None
  end.

(** The canonical rendering of a text: its letters in upper case and
    its runs of digits without leading zeros. *)
Fixpoint stripLeadingZeros (digits : string) : string :=
  match digits with
  | String "0" (String _ _ as rest) => stripLeadingZeros rest
  | _ => digits
  end.

Fixpoint canonicalizeFrom (run : string) (s : string) : string :=
  match s with
  | EmptyString => stripLeadingZeros run
  | String c rest =>
      if Char.isDigit c
      then canonicalizeFrom (run ++ String c EmptyString) rest
      else stripLeadingZeros run ++ String (Char.toUpper c) (canonicalizeFrom EmptyString rest)
  end.

Definition canonicalize (t : string) : string := canonicalizeFrom EmptyString t.

(** The total order of section 3: family, then number, then enhancement,
    an absent enhancement first. *)
Definition identifierOrder (a b : ControlIdentifier) : comparison :=
  match String.compare (id_family a) (id_family b) with
  | Eq =>
      match Z.compare (id_number a) (id_number b) with
      | Eq =>
          match id_enhancement a, id_enhancement b with
          | None, None => Eq
          | None, Some _ => Lt
          | Some _, None => Gt
          | Some u, Some v => Z.compare u v
          end
      | c => c
      end
  | c => c
  end.

(** The record that [parse] returns for a written identifier: the
    numbers rounded to the Number type. *)
Definition parsedAs (id : ControlIdentifier) : ParsedControl :=
  parsedOf (id_family id) (roundInt (id_number id))
           (option_map roundInt (id_enhancement id)).

(** *** Rounding, and the invariant of the records *)

(** Rounding to the nearest integer, a tie upwards, and the numbers that
    lie midway between two integers. *)
Definition roundHalfUp (x : Q) : Z := Qfloor (x + (1 # 2)).

Definition isMidway (x : Q) : Prop := (x - inject_Z (Qfloor x) == 1 # 2)%Q.

(** No two records of a document carry ids of the same identifier. *)
Definition oneRecordPerIdentifier (ssp : SspService.SSP) : Prop :=
  forall i j ri rj pi pj,
    SspService.controlImplementations ssp !! i = Some ri ->
    SspService.controlImplementations ssp !! j = Some rj ->
    parse (SspService.controlId ri) = Ok pi ->
    parse (SspService.controlId rj) = Ok pj ->
    sameIdentifier pi pj -> i = j.

(** The invariant of the records of a document: their ids are
    normalized, and pairwise distinct. *)
Definition distinctNormalizedIds (ssp : SspService.SSP) : Prop :=
  Forall isNormalizedId (storedIds ssp) /\ List.NoDup (storedIds ssp).

(** * Properties *)

(** ** Binary64: mantissa digits and exact integers *)

Section Binary64.

Lemma digits2_pos_bounds (p : positive) :
2 ^ (Z.pos (digits2_pos p) - 1) <= Z.pos p < 2 ^ Z.pos (digits2_pos p).
Proof.
induction p as [p IH | p IH |]; cbn [digits2_pos].
- rewrite Pos2Z.inj_succ.
  replace (Z.succ (Z.pos (digits2_pos p)) - 1) with (Z.succ (Z.pos (digits2_pos p) - 1)) by lia.
  rewrite !Z.pow_succ_r by lia. lia.
- rewrite Pos2Z.inj_succ.
  replace (Z.succ (Z.pos (digits2_pos p)) - 1) with (Z.succ (Z.pos (digits2_pos p) - 1)) by lia.
  rewrite !Z.pow_succ_r by lia. lia.
- cbn. lia.
Qed.

Lemma digits2_pos_unique (p : positive) (d : Z) :
2 ^ (d - 1) <= Z.pos p < 2 ^ d -> Z.pos (digits2_pos p) = d.
Proof.
intros [Hlo Hhi].
pose proof (digits2_pos_bounds p) as [Blo Bhi].
assert (0 < d) as Hd.
{ destruct (Z.ltb_spec 0 d) as [|Hn]; [assumption|].
  destruct (Z.eq_dec d 0) as [->|]; [cbn in Hhi; lia|].
  rewrite Z.pow_neg_r in Hhi by lia. lia. }
destruct (Z.lt_trichotomy (Z.pos (digits2_pos p)) d) as [Hlt | [Heq | Hgt]].
- assert (2 ^ Z.pos (digits2_pos p) <= 2 ^ (d - 1)) by (apply Z.pow_le_mono_r; lia). lia.
- assumption.
- assert (2 ^ d <= 2 ^ (Z.pos (digits2_pos p) - 1)) by (apply Z.pow_le_mono_r; lia). lia.
Qed.

Lemma iter_xO_value (p k : positive) :
Z.pos (Pos.iter xO p k) = Z.pos p * 2 ^ Z.pos k.
Proof.
induction k as [|k IHk] using Pos.peano_ind.
- cbn. lia.
- rewrite Pos.iter_succ, Pos2Z.inj_succ, Z.pow_succ_r by lia.
  rewrite Pos2Z.inj_xO, IHk. lia.
Qed.

Lemma iter_xO_digits (p k : positive) :
Z.pos (digits2_pos (Pos.iter xO p k)) = Z.pos (digits2_pos p) + Z.pos k.
Proof.
induction k as [|k IHk] using Pos.peano_ind.
- cbn. lia.
- rewrite Pos.iter_succ. cbn [digits2_pos]. lia.
Qed.

(** A mantissa of 53 digits with an exponent in range is left as it
  is by the final rounding. *)
Lemma binary_round_aux_exact (m : positive) (e : Z) :
Z.pos (digits2_pos m) = 53 ->
-1074 <= e <= 971 ->
binary_round_aux prec emax false (Z.pos m) e loc_Exact = S754_finite false m e.
Proof.
intros Hd He.
assert (fexp prec emax (Zdigits2 (Z.pos m) + e) - e = 0) as Hshift.
{ cbn [Zdigits2]. rewrite Hd. unfold fexp, SpecFloat.emin, prec, emax. lia. }
unfold binary_round_aux, shr_fexp.
rewrite Hshift. cbn [shr shr_record_of_loc shr_m loc_of_shr_record round_nearest_even].
rewrite Hshift. cbn [shr shr_record_of_loc shr_m].
replace (e <=? emax - prec) with true; [reflexivity|].
symmetry. apply Z.leb_le. unfold prec, emax. lia.
Qed.

(** The Number of a positive integer below [2^53]: its 53-digit
  mantissa and its exponent. *)
Lemma ofZ_small (z : Z) :
0 < z < 2 ^ 53 ->
exists (m : positive) (e : Z),
  ofZ z = S754_finite false m e /\
  Z.pos (digits2_pos m) = 53 /\
  -52 <= e <= 0 /\
  Z.pos m = z * 2 ^ (- e).
Proof.
intros [Hpos Hlt].
destruct z as [|p|p]; try lia.
pose proof (digits2_pos_bounds p) as [Blo Bhi].
set (d := Z.pos (digits2_pos p)) in *.
assert (1 <= d <= 53) as Hd.
{ split; [unfold d; lia|].
  destruct (Z.leb_spec d 53) as [|Hgt]; [assumption|].
  assert (2 ^ 53 <= 2 ^ (d - 1)) by (apply Z.pow_le_mono_r; lia). lia. }
unfold ofZ, binary_normalize, binary_round.
assert (fexp prec emax (Z.pos (digits2_pos p) + 0) = d - 53) as ->.
{ fold d. unfold fexp, SpecFloat.emin, prec, emax. lia. }
unfold shl_align.
destruct (d - 53 - 0) as [|k|k] eqn:Hk; try lia.
- exists p, 0. split; [|split; [|split]].
  + apply binary_round_aux_exact; [fold d; lia | lia].
  + fold d. lia.
  + lia.
  + cbn. lia.
- exists (Pos.iter xO p k), (d - 53). split; [|split; [|split]].
  + apply binary_round_aux_exact; [|lia].
    rewrite iter_xO_digits. fold d. lia.
  + rewrite iter_xO_digits. fold d. lia.
  + lia.
  + rewrite iter_xO_value. f_equal. f_equal. lia.
Qed.

Lemma roundInt_exact (z : Z) : 0 <= z < 2 ^ 53 -> roundInt z = IntFinite z.
Proof.
intros [H0 Hlt].
destruct (Z.eq_dec z 0) as [->|Hne]; [reflexivity|].
destruct (ofZ_small z) as (m & e & Hof & _ & He & Hm); [lia|].
unfold roundInt. rewrite Hof. cbn [toIntNumber].
destruct (Z.leb_spec 0 e) as [Hle|Hneg].
- assert (e = 0) as -> by lia. f_equal. rewrite Hm. cbn. lia.
- f_equal. rewrite Hm. apply Z.div_mul.
  apply Z.pow_nonzero; lia.
Qed.

End Binary64.

(** ** Binary64: rounding *)

Section Rounding.

Lemma Zdigits2_bounds (m : Z) :
0 < m -> 2 ^ (Zdigits2 m - 1) <= m < 2 ^ Zdigits2 m.
Proof.
destruct m as [|p|p]; try lia. intros _. apply digits2_pos_bounds.
Qed.

Lemma Zdigits2_unique (m d : Z) :
0 < m -> 2 ^ (d - 1) <= m < 2 ^ d -> Zdigits2 m = d.
Proof.
destruct m as [|p|p]; try lia. intros _. apply digits2_pos_unique.
Qed.

Lemma shr_1_m (mrs : shr_record) :
0 <= shr_m mrs -> shr_m (shr_1 mrs) = shr_m mrs / 2.
Proof.
destruct mrs as [m r s]. cbn [shr_m]. intros Hm.
destruct m as [|[p|p|]|p]; cbn [shr_1 shr_m]; try lia; try reflexivity.
- rewrite Pos2Z.inj_xI. apply Z.div_unique with (r := 1); lia.
- rewrite Pos2Z.inj_xO. apply Z.div_unique with (r := 0); lia.
Qed.

Lemma iter_shr_1_m (p : positive) (mrs : shr_record) :
0 <= shr_m mrs ->
shr_m (SpecFloat.iter_pos shr_1 p mrs) = shr_m mrs / 2 ^ Z.pos p.
Proof.
revert mrs. induction p as [p IH | p IH |]; intros mrs Hm; cbn [SpecFloat.iter_pos].
- assert (0 <= shr_m (shr_1 mrs)) as H1
      by (rewrite shr_1_m by assumption; apply Z.div_pos; lia).
  assert (0 <= shr_m (SpecFloat.iter_pos shr_1 p (shr_1 mrs))) as H2
      by (rewrite IH by assumption; apply Z.div_pos; [assumption | apply Z.pow_pos_nonneg; lia]).
  rewrite IH, IH, shr_1_m by assumption.
  assert (2 ^ Z.pos p~1 = 2 * 2 ^ Z.pos p * 2 ^ Z.pos p) as ->
      by (replace (Z.pos p~1) with (1 + Z.pos p + Z.pos p) by lia;
          rewrite !Z.pow_add_r by lia; reflexivity).
  assert (0 < 2 ^ Z.pos p) by (apply Z.pow_pos_nonneg; lia).
  rewrite !Z.div_div by lia. f_equal. ring.
- assert (0 <= shr_m (SpecFloat.iter_pos shr_1 p mrs)) as H2
      by (rewrite IH by assumption; apply Z.div_pos; [assumption | apply Z.pow_pos_nonneg; lia]).
  rewrite IH, IH by assumption.
  assert (2 ^ Z.pos p~0 = 2 ^ Z.pos p * 2 ^ Z.pos p) as ->
      by (replace (Z.pos p~0) with (Z.pos p + Z.pos p) by lia;
          rewrite !Z.pow_add_r by lia; reflexivity).
  assert (0 < 2 ^ Z.pos p) by (apply Z.pow_pos_nonneg; lia).
  rewrite !Z.div_div by lia. reflexivity.
- rewrite shr_1_m by assumption. reflexivity.
Qed.

(** The mantissa and exponent after [shr_fexp], for a mantissa of at
  least 53 digits whose rounded exponent is in range. *)
Lemma shr_fexp_m (m e : Z) (l : location) :
0 < m -> 53 <= Zdigits2 m -> -1074 <= Zdigits2 m + e - 53 ->
let n := Zdigits2 m - 53 in
shr_m (fst (shr_fexp prec emax m e l)) = m / 2 ^ n /\
snd (shr_fexp prec emax m e l) = e + n.
Proof.
intros Hm Hd Hlo n. unfold shr_fexp.
assert (fexp prec emax (Zdigits2 m + e) - e = n) as ->
    by (unfold fexp, SpecFloat.emin, prec, emax, n; lia).
assert (shr_m (shr_record_of_loc m l) = m) as Hrec
    by (destruct l as [|[| |]]; reflexivity).
unfold shr. destruct n as [|p|p] eqn:Hn; cbn [fst snd].
- rewrite Hrec. cbn. rewrite Z.div_1_r. lia.
- rewrite iter_shr_1_m by (rewrite Hrec; lia). rewrite Hrec. lia.
- lia.
Qed.

Lemma round_nearest_even_cases (m : Z) (l : location) :
round_nearest_even m l = m \/ round_nearest_even m l = m + 1.
Proof.
destruct l as [|[| |]]; cbn; auto. destruct (Z.even m); auto.
Qed.

(** Faithful rounding: the result of [binary_round_aux] on a mantissa
  [m] of at least 53 digits is the truncation of [m] to 53 digits or
  the next mantissa. *)
Lemma binary_round_aux_faithful (m e : Z) (l : location) :
0 < m -> 53 <= Zdigits2 m ->
-1074 <= Zdigits2 m + e - 53 -> Zdigits2 m + e - 52 <= 971 ->
let n := Zdigits2 m - 53 in
exists (m' : positive) (e' : Z),
  binary_round_aux prec emax false m e l = S754_finite false m' e' /\
  Z.pos (digits2_pos m') = 53 /\
  e + n <= e' <= e + n + 1 /\
  (Z.pos m' * 2 ^ (e' - (e + n)) = m / 2 ^ n \/
   Z.pos m' * 2 ^ (e' - (e + n)) = m / 2 ^ n + 1).
Proof.
intros Hm Hd Hlo Hhi n.
pose proof (shr_fexp_m m e l Hm Hd Hlo) as [Hm1 He1]. fold n in Hm1, He1.
unfold binary_round_aux.
destruct (shr_fexp prec emax m e l) as [mrs1 e1]. cbn [fst snd] in Hm1, He1.
set (m0 := m / 2 ^ n) in *.
assert (0 <= n) as Hn by (unfold n; lia).
pose proof (Zdigits2_bounds m Hm) as [Blo Bhi].
assert (2 ^ 52 <= m0 < 2 ^ 53) as Hm0.
{ unfold m0. split.
  - apply Z.div_le_lower_bound; [apply Z.pow_pos_nonneg; lia|].
    rewrite <- Z.pow_add_r by lia.
    replace (n + 52) with (Zdigits2 m - 1) by (unfold n; lia). assumption.
  - apply Z.div_lt_upper_bound; [apply Z.pow_pos_nonneg; lia|].
    rewrite <- Z.pow_add_r by lia.
    replace (n + 53) with (Zdigits2 m) by (unfold n; lia). assumption. }
set (m1 := round_nearest_even (shr_m mrs1) (loc_of_shr_record mrs1)).
assert (m1 = m0 \/ m1 = m0 + 1) as Hm1cases
    by (unfold m1; rewrite Hm1; apply round_nearest_even_cases).
assert (0 < m1) as Hm1pos by lia.
destruct (Z.eq_dec m1 (2 ^ 53)) as [Hcarry | Hnocarry].
- (* the increment carried into a 54th digit *)
  assert (Zdigits2 m1 = 54) as Hd1
      by (apply Zdigits2_unique; [lia | rewrite Hcarry; cbn; lia]).
  pose proof (shr_fexp_m m1 e1 loc_Exact Hm1pos ltac:(lia) ltac:(lia)) as [Hm2 He2].
  destruct (shr_fexp prec emax m1 e1 loc_Exact) as [mrs2 e2]. cbn [fst snd] in Hm2, He2.
  rewrite Hd1 in Hm2, He2. rewrite Hcarry in Hm2.
  change (2 ^ 53 / 2 ^ (54 - 53)) with (2 ^ 52) in Hm2.
  rewrite Hm2. change (2 ^ 52) with (Z.pos 4503599627370496).
  replace (e2 <=? emax - prec) with true
    by (symmetry; apply Z.leb_le; unfold emax, prec; lia).
  exists 4503599627370496%positive, e2.
  split; [reflexivity|]. split; [reflexivity|]. split; [lia|].
  right. replace (e2 - (e + n)) with 1 by lia.
  change (Z.pos 4503599627370496 * 2 ^ 1) with (2 ^ 53). lia.
- assert (Zdigits2 m1 = 53) as Hd1
      by (apply Zdigits2_unique; [lia | change (53 - 1) with 52; lia]).
  pose proof (shr_fexp_m m1 e1 loc_Exact Hm1pos ltac:(lia) ltac:(lia)) as [Hm2 He2].
  destruct (shr_fexp prec emax m1 e1 loc_Exact) as [mrs2 e2]. cbn [fst snd] in Hm2, He2.
  rewrite Hd1 in Hm2, He2. change (2 ^ (53 - 53)) with 1 in Hm2.
  rewrite Z.div_1_r in Hm2. rewrite Hm2.
  destruct m1 as [|q|q] eqn:Hq; try lia.
  replace (e2 <=? emax - prec) with true
    by (symmetry; apply Z.leb_le; unfold emax, prec; lia).
  exists q, e2.
  split; [reflexivity|]. split; [exact Hd1|]. split; [lia|].
  replace (e2 - (e + n)) with 0 by lia. rewrite Z.mul_1_r. exact Hm1cases.
Qed.

End Rounding.

(** ** Binary64: integers from [2^53] on *)

Section LargeIntegers.

Lemma shr_1_double (m : Z) :
  0 <= m ->
  shr_1 (Build_shr_record (2 * m) false false) = Build_shr_record m false false.
Proof. intros Hm. destruct m as [|p|p]; [reflexivity|reflexivity|lia]. Qed.

(** Shifting out zeros loses nothing. *)
Lemma iter_shr_1_exact (k : positive) (m : Z) :
  0 <= m ->
  SpecFloat.iter_pos shr_1 k (Build_shr_record (m * 2 ^ Z.pos k) false false)
  = Build_shr_record m false false.
Proof.
  revert m. induction k as [k IH | k IH |]; intros m Hm; cbn [SpecFloat.iter_pos].
  - assert (0 < 2 ^ Z.pos k) as Hp by (apply Z.pow_pos_nonneg; lia).
    replace (m * 2 ^ Z.pos k~1) with (2 * ((m * 2 ^ Z.pos k) * 2 ^ Z.pos k)).
    2:{ replace (Z.pos k~1) with (1 + Z.pos k + Z.pos k) by lia.
        rewrite !Z.pow_add_r by lia. ring. }
    rewrite shr_1_double by nia. rewrite IH by nia. now apply IH.
  - assert (0 < 2 ^ Z.pos k) as Hp by (apply Z.pow_pos_nonneg; lia).
    replace (m * 2 ^ Z.pos k~0) with ((m * 2 ^ Z.pos k) * 2 ^ Z.pos k).
    2:{ replace (Z.pos k~0) with (Z.pos k + Z.pos k) by lia.
        rewrite !Z.pow_add_r by lia. ring. }
    rewrite IH by nia. now apply IH.
  - replace (m * 2 ^ 1) with (2 * m) by lia. now apply shr_1_double.
Qed.

(** An integer with a mantissa of 53 digits and an exponent in range
    is a Number. *)
Lemma ofZ_exact (m : positive) (e : Z) :
  Z.pos (digits2_pos m) = 53 -> 0 <= e <= 971 ->
  ofZ (Z.pos m * 2 ^ e) = S754_finite false m e.
Proof.
  intros Hd He.
  assert (0 < 2 ^ e) as Hp by (apply Z.pow_pos_nonneg; lia).
  destruct (Z.pos m * 2 ^ e) as [|q|q] eqn:Hq; try lia.
  assert (Z.pos (digits2_pos q) = 53 + e) as Hdq.
  { apply digits2_pos_unique. rewrite <- Hq.
    pose proof (digits2_pos_bounds m) as [Blo Bhi]. rewrite Hd in Blo, Bhi.
    replace (53 + e - 1) with (52 + e) by lia.
    rewrite !Z.pow_add_r by lia. change (53 - 1) with 52 in Blo. nia. }
  unfold ofZ, binary_normalize, binary_round.
  assert (fexp prec emax (Z.pos (digits2_pos q) + 0) = e) as ->
      by (rewrite Hdq; unfold fexp, SpecFloat.emin, prec, emax; lia).
  assert (shl_align q 0 e = (q, 0)) as ->
      by (unfold shl_align; destruct (e - 0) eqn:E; try reflexivity; lia).
  unfold binary_round_aux, shr_fexp.
  assert (fexp prec emax (Zdigits2 (Z.pos q) + 0) - 0 = e) as ->
      by (cbn [Zdigits2]; rewrite Hdq; unfold fexp, SpecFloat.emin, prec, emax; lia).
  assert (shr (shr_record_of_loc (Z.pos q) loc_Exact) 0 e
          = (Build_shr_record (Z.pos m) false false, e)) as ->.
  { unfold shr. cbn [shr_record_of_loc]. destruct e as [|k|k]; try lia.
    - rewrite <- Hq. cbn. f_equal. f_equal. lia.
    - rewrite <- Hq. rewrite iter_shr_1_exact by lia. reflexivity. }
  cbn [shr_m loc_of_shr_record shr_r shr_s round_nearest_even].
  assert (fexp prec emax (Zdigits2 (Z.pos m) + e) - e = 0) as ->
      by (cbn [Zdigits2]; rewrite Hd; unfold fexp, SpecFloat.emin, prec, emax; lia).
  cbn [shr shr_record_of_loc shr_m].
  replace (e <=? emax - prec) with true; [reflexivity|].
  symmetry. apply Z.leb_le. unfold prec, emax. lia.
Qed.

End LargeIntegers.

Section LargeRounding.

(** Rounding a mantissa [m] of at least 53 digits: infinity when the
    exponent leaves the range, and otherwise the truncation of [m] to 53
    digits or the next mantissa. *)
Lemma binary_round_aux_cases (m e : Z) (l : location) :
  0 < m -> 53 <= Zdigits2 m -> -1074 <= Zdigits2 m + e - 53 ->
  let n := Zdigits2 m - 53 in
  binary_round_aux prec emax false m e l = S754_infinity false \/
  exists (m' : positive) (e' : Z),
    binary_round_aux prec emax false m e l = S754_finite false m' e' /\
    Z.pos (digits2_pos m') = 53 /\
    e + n <= e' <= e + n + 1 /\ e' <= 971 /\
    (Z.pos m' * 2 ^ (e' - (e + n)) = m / 2 ^ n \/
     Z.pos m' * 2 ^ (e' - (e + n)) = m / 2 ^ n + 1).
Proof.
  intros Hm Hd Hlo n.
  pose proof (shr_fexp_m m e l Hm Hd Hlo) as [Hm1 He1]. fold n in Hm1, He1.
  unfold binary_round_aux.
  destruct (shr_fexp prec emax m e l) as [mrs1 e1]. cbn [fst snd] in Hm1, He1.
  set (m0 := m / 2 ^ n) in *.
  assert (0 <= n) as Hn by (unfold n; lia).
  pose proof (Zdigits2_bounds m Hm) as [Blo Bhi].
  assert (2 ^ 52 <= m0 < 2 ^ 53) as Hm0.
  { unfold m0. split.
    - apply Z.div_le_lower_bound; [apply Z.pow_pos_nonneg; lia|].
      rewrite <- Z.pow_add_r by lia.
      replace (n + 52) with (Zdigits2 m - 1) by (unfold n; lia). assumption.
    - apply Z.div_lt_upper_bound; [apply Z.pow_pos_nonneg; lia|].
      rewrite <- Z.pow_add_r by lia.
      replace (n + 53) with (Zdigits2 m) by (unfold n; lia). assumption. }
  set (m1 := round_nearest_even (shr_m mrs1) (loc_of_shr_record mrs1)).
  assert (m1 = m0 \/ m1 = m0 + 1) as Hm1cases
      by (unfold m1; rewrite Hm1; apply round_nearest_even_cases).
  assert (0 < m1) as Hm1pos by lia.
  destruct (Z.eq_dec m1 (2 ^ 53)) as [Hcarry | Hnocarry].
  - assert (Zdigits2 m1 = 54) as Hd1
        by (apply Zdigits2_unique; [lia | rewrite Hcarry; cbn; lia]).
    pose proof (shr_fexp_m m1 e1 loc_Exact Hm1pos ltac:(lia) ltac:(lia)) as [Hm2 He2].
    destruct (shr_fexp prec emax m1 e1 loc_Exact) as [mrs2 e2]. cbn [fst snd] in Hm2, He2.
    rewrite Hd1 in Hm2, He2. rewrite Hcarry in Hm2.
    change (2 ^ 53 / 2 ^ (54 - 53)) with (2 ^ 52) in Hm2.
    rewrite Hm2. change (2 ^ 52) with (Z.pos 4503599627370496).
    destruct (Z.leb_spec e2 (emax - prec)) as [Hin|Hout]; [|now left].
    right. exists 4503599627370496%positive, e2.
    split; [reflexivity|]. split; [reflexivity|]. split; [lia|].
    split; [unfold emax, prec in Hin; lia|].
    right. replace (e2 - (e + n)) with 1 by lia.
    change (Z.pos 4503599627370496 * 2 ^ 1) with (2 ^ 53). lia.
  - assert (Zdigits2 m1 = 53) as Hd1
        by (apply Zdigits2_unique; [lia | change (53 - 1) with 52; lia]).
    pose proof (shr_fexp_m m1 e1 loc_Exact Hm1pos ltac:(lia) ltac:(lia)) as [Hm2 He2].
    destruct (shr_fexp prec emax m1 e1 loc_Exact) as [mrs2 e2]. cbn [fst snd] in Hm2, He2.
    rewrite Hd1 in Hm2, He2. change (2 ^ (53 - 53)) with 1 in Hm2.
    rewrite Z.div_1_r in Hm2. rewrite Hm2.
    destruct m1 as [|q|q] eqn:Hq; try lia.
    destruct (Z.leb_spec e2 (emax - prec)) as [Hin|Hout]; [|now left].
    right. exists q, e2.
    split; [reflexivity|]. split; [exact Hd1|]. split; [lia|].
    split; [unfold emax, prec in Hin; lia|].
    replace (e2 - (e + n)) with 0 by lia. rewrite Z.mul_1_r. exact Hm1cases.
Qed.

(** The Number of an integer from [2^53] on: infinity, or one of the two
    multiples of [2^n] around it, where [n] is the number of binary
    digits beyond 53. *)
Lemma ofZ_large (z : Z) :
  2 ^ 53 <= z ->
  let n := Zdigits2 z - 53 in
  1 <= n /\
  (ofZ z = S754_infinity false \/
   exists (m : positive) (e : Z),
     ofZ z = S754_finite false m e /\
     Z.pos (digits2_pos m) = 53 /\ 1 <= e <= 971 /\
     (Z.pos m * 2 ^ e = (z / 2 ^ n) * 2 ^ n \/
      Z.pos m * 2 ^ e = (z / 2 ^ n + 1) * 2 ^ n)).
Proof.
  intros Hz n.
  assert (0 < z) as Hpos by (assert (0 < 2 ^ 53) by reflexivity; lia).
  pose proof (Zdigits2_bounds z Hpos) as [Blo Bhi].
  assert (54 <= Zdigits2 z) as Hd.
  { destruct (Z.leb_spec 54 (Zdigits2 z)) as [|Hlt]; [assumption|].
    assert (2 ^ Zdigits2 z <= 2 ^ 53) by (apply Z.pow_le_mono_r; lia). lia. }
  split; [unfold n; lia|].
  destruct z as [|p|p]; try lia.
  unfold ofZ, binary_normalize, binary_round.
  assert (fexp prec emax (Z.pos (digits2_pos p) + 0) = n) as ->
      by (unfold n; cbn [Zdigits2]; unfold fexp, SpecFloat.emin, prec, emax;
          cbn [Zdigits2] in Hd; lia).
  assert (shl_align p 0 n = (p, 0)) as ->
      by (unfold shl_align; destruct (n - 0) eqn:E; try reflexivity;
          unfold n in E; lia).
  destruct (binary_round_aux_cases (Z.pos p) 0 loc_Exact Hpos ltac:(lia) ltac:(lia))
    as [Hinf | (m & e & Hfin & Hdm & He & Hmax & Hval)]; [now left|].
  right. exists m, e. fold n in He, Hval.
  split; [exact Hfin|]. split; [exact Hdm|]. split; [unfold n in *; lia|].
  assert (0 < 2 ^ n) by (apply Z.pow_pos_nonneg; unfold n; lia).
  replace (2 ^ e) with (2 ^ (e - (0 + n)) * 2 ^ n)
    by (rewrite <- Z.pow_add_r by lia; f_equal; lia).
  destruct Hval as [Hv|Hv]; [left|right]; rewrite <- Hv; ring.
Qed.

(** The integers that [roundInt] returns. *)
Lemma roundInt_cases (z : Z) :
  0 <= z ->
  (z < 2 ^ 53 /\ roundInt z = IntFinite z) \/
  (2 ^ 53 <= z /\
   (roundInt z = IntInfinity \/
    exists (m : positive) (e : Z),
      roundInt z = IntFinite (Z.pos m * 2 ^ e) /\
      ofZ z = S754_finite false m e /\
      Z.pos (digits2_pos m) = 53 /\ 1 <= e <= 971 /\
      (z / 2 ^ (Zdigits2 z - 53)) * 2 ^ (Zdigits2 z - 53) <= Z.pos m * 2 ^ e)).
Proof.
  intros Hz. destruct (Z.ltb_spec z (2 ^ 53)) as [Hlt|Hge].
  - left. split; [assumption|]. now apply roundInt_exact.
  - right. split; [assumption|].
    destruct (ofZ_large z Hge) as [Hn [Hinf | (m & e & Hfin & Hdm & He & Hval)]].
    + left. unfold roundInt. now rewrite Hinf.
    + right. exists m, e. unfold roundInt. rewrite Hfin. cbn [toIntNumber].
      replace (0 <=? e) with true by (symmetry; apply Z.leb_le; lia).
      repeat split; try assumption; try lia.
Qed.

(** Rounding is idempotent. *)
Lemma roundInt_idem (z x : Z) :
  0 <= z -> roundInt z = IntFinite x -> roundInt x = IntFinite x.
Proof.
  intros Hz Hr.
  destruct (roundInt_cases z Hz) as [[Hlt Hex] | [Hge [Hinf | (m & e & Hv & _ & Hd & He & _)]]].
  - rewrite Hex in Hr. injection Hr as <-. exact Hex.
  - rewrite Hinf in Hr. discriminate.
  - rewrite Hv in Hr. injection Hr as <-.
    unfold roundInt. rewrite (ofZ_exact m e Hd ltac:(lia)). cbn [toIntNumber].
    now replace (0 <=? e) with true by (symmetry; apply Z.leb_le; lia).
Qed.

(** Rounding does not cross [2^53] or [10^21], which are Numbers. *)
Lemma roundInt_above_safe (z x : Z) :
  2 ^ 53 <= z -> roundInt z = IntFinite x -> 2 ^ 53 <= x.
Proof.
  intros Hge Hr.
  assert (0 <= z) as Hz by (assert (0 < 2 ^ 53) by reflexivity; lia).
  destruct (roundInt_cases z Hz) as [[Hlt _] | [_ [Hinf | (m & e & Hv & _ & Hd & He & _)]]].
  - lia.
  - rewrite Hinf in Hr. discriminate.
  - rewrite Hv in Hr. injection Hr as <-.
    pose proof (digits2_pos_bounds m) as [Blo _]. rewrite Hd in Blo.
    change (53 - 1) with 52 in Blo.
    assert (2 ^ 1 <= 2 ^ e) by (apply Z.pow_le_mono_r; lia).
    change (2 ^ 53) with (2 ^ 52 * 2 ^ 1). nia.
Qed.

Lemma roundInt_above_exponent_form (z x : Z) :
  10 ^ 21 <= z -> roundInt z = IntFinite x -> 10 ^ 21 <= x.
Proof.
  intros Hge Hr.
  assert (2 ^ 53 <= z) as Hz53 by (assert (2 ^ 53 < 10 ^ 21) by reflexivity; lia).
  assert (0 < z) as Hpos by (assert (0 < 2 ^ 53) by reflexivity; lia).
  destruct (roundInt_cases z ltac:(lia))
    as [[Hlt _] | [_ [Hinf | (m & e & Hv & _ & Hd & He & Hlow)]]].
  - lia.
  - rewrite Hinf in Hr. discriminate.
  - rewrite Hv in Hr. injection Hr as <-.
    pose proof (Zdigits2_bounds z Hpos) as [Blo Bhi].
    set (D := Zdigits2 z) in *.
    assert (70 <= D) as HD.
    { destruct (Z.leb_spec 70 D) as [|Hlt]; [assumption|].
      assert (2 ^ D <= 2 ^ 69) by (apply Z.pow_le_mono_r; lia).
      assert (2 ^ 69 < 10 ^ 21) by reflexivity. lia. }
    eapply Z.le_trans; [|exact Hlow].
    destruct (Z.eq_dec D 70) as [->|Hne].
    + change (70 - 53) with 17.
      assert (10 ^ 21 / 2 ^ 17 <= z / 2 ^ 17) by (apply Z.div_le_mono; [reflexivity|lia]).
      change (10 ^ 21) with ((10 ^ 21 / 2 ^ 17) * 2 ^ 17) at 1.
      apply Z.mul_le_mono_nonneg_r; [|assumption]. apply Z.pow_nonneg. lia.
    + assert (2 ^ 52 <= z / 2 ^ (D - 53)).
      { apply Z.div_le_lower_bound; [apply Z.pow_pos_nonneg; lia|].
        rewrite <- Z.pow_add_r by lia.
        replace (D - 53 + 52) with (D - 1) by lia. assumption. }
      assert (2 ^ 18 <= 2 ^ (D - 53)) by (apply Z.pow_le_mono_r; lia).
      assert (10 ^ 21 < 2 ^ 52 * 2 ^ 18) by reflexivity. nia.
Qed.

End LargeRounding.

(** ** Digit strings *)

Section DigitStrings.

Lemma allDigits_string_of_uint (d : Decimal.uint) :
allDigits (NilEmpty.string_of_uint d) = true.
Proof. induction d; cbn; auto. Qed.

Lemma allDigits_decimal (z : Z) : allDigits (decimal z) = true.
Proof.
unfold decimal, NilZero.string_of_uint.
destruct (N.to_uint (Z.to_N z)) eqn:E; try reflexivity;
  rewrite <- E; rewrite E; apply allDigits_string_of_uint.
Qed.

Lemma decimal_nonempty (z : Z) : decimal z <> EmptyString.
Proof.
unfold decimal, NilZero.string_of_uint.
destruct (N.to_uint (Z.to_N z)); discriminate.
Qed.

Lemma digitsValue_decimal (z : Z) : 0 <= z -> digitsValue (decimal z) = z.
Proof.
intros Hz. unfold digitsValue, decimal, NilZero.string_of_uint.
pose proof (DecimalN.Unsigned.of_to (Z.to_N z)) as Hof.
destruct (N.to_uint (Z.to_N z)) eqn:E; cbv iota;
  [cbn in Hof; cbn; lia | rewrite NilEmpty.usu, Hof; lia ..].
Qed.

Lemma isDigit_not_lower (c : ascii) : Char.isDigit c = true -> Char.isLower c = false.
Proof.
unfold Char.isDigit, Char.isLower. intros [H1 H2]%andb_prop.
apply N.leb_le in H1, H2. apply andb_false_iff. left. apply N.leb_gt. lia.
Qed.

Lemma isUpper_not_lower (c : ascii) : Char.isUpper c = true -> Char.isLower c = false.
Proof.
unfold Char.isUpper, Char.isLower. intros [H1 H2]%andb_prop.
apply N.leb_le in H1, H2. apply andb_false_iff. left. apply N.leb_gt. lia.
Qed.

Lemma toUpper_upper (c : ascii) : Char.isUpper c = true -> Char.toUpper c = c.
Proof. intros H. unfold Char.toUpper. now rewrite (isUpper_not_lower c H). Qed.

Lemma toUpperCase_digits (s : string) : allDigits s = true -> toUpperCase s = s.
Proof.
induction s as [|c s IH]; cbn; [reflexivity|].
intros [Hc Hs]%andb_prop.
unfold Char.toUpper. rewrite (isDigit_not_lower c Hc). now rewrite IH.
Qed.

Lemma toUpperCase_app (s1 s2 : string) :
toUpperCase (s1 ++ s2) = toUpperCase s1 ++ toUpperCase s2.
Proof. induction s1 as [|c s1 IH]; simpl; [reflexivity|]. now rewrite IH. Qed.

(** A run of digits followed by something that does not start with a
  digit is the longest run. *)
Lemma spanDigits_app (d r : string) :
allDigits d = true ->
match r with String c _ => Char.isDigit c = false | EmptyString => True end ->
spanDigits (d ++ r) = (d, r).
Proof.
intros Hd Hr. induction d as [|c d IH]; simpl.
- destruct r as [|c r]; [reflexivity|]. simpl. now rewrite Hr.
- simpl in Hd. apply andb_prop in Hd as [Hc Hd].
  rewrite Hc, (IH Hd). reflexivity.
Qed.

Lemma digits1_app (d r : string) :
allDigits d = true -> d <> EmptyString ->
match r with String c _ => Char.isDigit c = false | EmptyString => True end ->
digits1 (d ++ r) = Some (d, r).
Proof.
intros Hd Hne Hr. unfold digits1. rewrite (spanDigits_app d r Hd Hr).
destruct d; [contradiction|reflexivity].
Qed.

Lemma parseInt_decimal (z : Z) :
0 <= z < 2 ^ 53 -> parseInt (decimal z) = IntFinite z.
Proof.
intros Hz. unfold parseInt. rewrite digitsValue_decimal by lia.
now apply roundInt_exact.
Qed.

Lemma toString_safe (z : Z) :
0 <= z < 2 ^ 53 -> toString (IntFinite z) = decimal z.
Proof.
intros [H0 Hlt]. unfold toString, shortest.
destruct (Z.ltb_spec z 0); [lia|].
destruct (Z.ltb_spec z (2 ^ 53)); [|lia].
destruct (Z.ltb_spec z (10 ^ 21)); [reflexivity|].
assert (2 ^ 53 < 10 ^ 21) by reflexivity. lia.
Qed.

End DigitStrings.

(** ** The identifier parser *)

Section Parser.

Lemma twoUpper_family (s f r : string) :
twoUpper s = Some (f, r) -> isFamily f = true /\ s = f ++ r.
Proof.
unfold twoUpper. destruct s as [|a [|b rest]]; try discriminate.
destruct (Char.isUpper a && Char.isUpper b) eqn:E; [|discriminate].
intros [= <- <-]. split; [exact E | reflexivity].
Qed.

Ltac regex_cases :=
repeat match goal with
       | |- context [match ?x with _ => _ end] => destruct x eqn:?; try discriminate
       end.

Lemma dotNotationRegex_family s m :
dotNotationRegex s = Some m -> isFamily (group1 m) = true.
Proof.
unfold dotNotationRegex. destruct (twoUpper s) as [[f r]|] eqn:E; [|discriminate].
apply twoUpper_family in E as [Hf _].
regex_cases; intros [= <-]; exact Hf.
Qed.

Lemma hyphenParensRegex_family s m :
hyphenParensRegex s = Some m -> isFamily (group1 m) = true.
Proof.
unfold hyphenParensRegex. destruct (twoUpper s) as [[f r]|] eqn:E; [|discriminate].
apply twoUpper_family in E as [Hf _].
regex_cases; intros [= <-]; exact Hf.
Qed.

Lemma hyphenRegex_family s m :
hyphenRegex s = Some m -> isFamily (group1 m) = true.
Proof.
unfold hyphenRegex. destruct (twoUpper s) as [[f r]|] eqn:E; [|discriminate].
apply twoUpper_family in E as [Hf _].
regex_cases; intros [= <-]; exact Hf.
Qed.

Lemma spaceRegex_family s m :
spaceRegex s = Some m -> isFamily (group1 m) = true.
Proof.
unfold spaceRegex. destruct (twoUpper s) as [[f r]|] eqn:E; [|discriminate].
apply twoUpper_family in E as [Hf _].
regex_cases; intros [= <-]; exact Hf.
Qed.

Lemma noSepRegex_family s m :
noSepRegex s = Some m -> isFamily (group1 m) = true.
Proof.
unfold noSepRegex. destruct (twoUpper s) as [[f r]|] eqn:E; [|discriminate].
apply twoUpper_family in E as [Hf _].
regex_cases; intros [= <-]; exact Hf.
Qed.

(** What a successful [parse] returns: a family code, and the two
  renderings of the three fields. *)
Lemma parse_inv (t : string) (p : ParsedControl) :
parse t = Ok p ->
isFamily (family p) = true /\
p = mkParsed (family p) (number p) (enhancement p)
      (dotted (family p) (number p) (enhancement p))
      (hyphenated (family p) (number p) (enhancement p))
      (hyphenated (family p) (number p) (enhancement p)).
Proof.
unfold parse. destruct t as [|c t]; [discriminate|].
set (u := toUpperCase (String c t)).
destruct (dotNotationRegex u) as [m|] eqn:E1.
{ apply dotNotationRegex_family in E1. cbn. intros [= <-]. now split. }
destruct (hyphenParensRegex u) as [m|] eqn:E2.
{ apply hyphenParensRegex_family in E2. cbn. intros [= <-]. now split. }
destruct (hyphenRegex u) as [m|] eqn:E3.
{ apply hyphenRegex_family in E3. cbn. intros [= <-]. now split. }
destruct (spaceRegex u) as [m|] eqn:E4.
{ apply spaceRegex_family in E4. cbn. intros [= <-]. now split. }
destruct (noSepRegex u) as [m|] eqn:E5.
{ apply noSepRegex_family in E5. cbn. intros [= <-]. now split. }
discriminate.
Qed.

End Parser.

(** ** Renderings parse back *)

Section Renderings.

Lemma append_String (c : ascii) (s t : string) : String c s ++ t = String c (s ++ t).
Proof. reflexivity. Qed.

Lemma append_Empty (t : string) : "" ++ t = t.
Proof. reflexivity. Qed.

Lemma append_Empty_r (s : string) : s ++ "" = s.
Proof. induction s as [|c s IH]; [reflexivity|]. now rewrite append_String, IH. Qed.

Lemma toUpperCase_String (c : ascii) (s : string) :
toUpperCase (String c s) = String (Char.toUpper c) (toUpperCase s).
Proof. reflexivity. Qed.

(** [parse] on a text whose upper-cased form the dotted pattern
  matches, and on one that only the hyphen pattern matches. *)
Lemma parse_dot_match (t : string) (m : Match) :
t <> EmptyString ->
dotNotationRegex (toUpperCase t) = Some m ->
parse t =
Ok (let n := parseInt (group2 m) in
    let e := enhancementOf (group3 m) in
    mkParsed (group1 m) n e (dotted (group1 m) n e)
             (hyphenated (group1 m) n e) (hyphenated (group1 m) n e)).
Proof.
intros Hne Hm. unfold parse. destruct t; [contradiction|].
rewrite Hm. reflexivity.
Qed.

Lemma parse_hyphen_match (t : string) (m : Match) :
t <> EmptyString ->
dotNotationRegex (toUpperCase t) = None ->
hyphenParensRegex (toUpperCase t) = Some m ->
parse t =
Ok (let n := parseInt (group2 m) in
    let e := enhancementOf (group3 m) in
    mkParsed (group1 m) n e (dotted (group1 m) n e)
             (hyphenated (group1 m) n e) (hyphenated (group1 m) n e)).
Proof.
intros Hne Hd Hm. unfold parse. destruct t; [contradiction|].
rewrite Hd, Hm. reflexivity.
Qed.

Section Canonical.
Variables (a b : ascii) (d : string).
Hypothesis Ha : Char.isUpper a = true.
Hypothesis Hb : Char.isUpper b = true.
Hypothesis Hd : allDigits d = true.
Hypothesis Hne : d <> EmptyString.

Let f : string := String a (String b EmptyString).

Lemma twoUpper_canonical (r : string) :
twoUpper (String a (String b r)) = Some (f, r).
Proof. unfold twoUpper. now rewrite Ha, Hb. Qed.

Lemma dotNotationRegex_hyphen (r : string) :
dotNotationRegex (String a (String b (String "-" r))) = None.
Proof. unfold dotNotationRegex. now rewrite twoUpper_canonical. Qed.

Lemma hyphenParensRegex_plain :
hyphenParensRegex (String a (String b (String "-" d))) = Some (mkMatch f d None).
Proof.
unfold hyphenParensRegex. rewrite twoUpper_canonical.
rewrite <- (append_Empty_r d) at 1.
rewrite digits1_app by (auto; exact I).
destruct d; [contradiction|reflexivity].
Qed.

Lemma dotNotationRegex_plain :
dotNotationRegex (String a (String b (String "." d))) = Some (mkMatch f d None).
Proof.
unfold dotNotationRegex. rewrite twoUpper_canonical.
rewrite <- (append_Empty_r d) at 1.
rewrite digits1_app by (auto; exact I).
destruct d; [contradiction|reflexivity].
Qed.

Variable d2 : string.
Hypothesis Hd2 : allDigits d2 = true.
Hypothesis Hne2 : d2 <> EmptyString.

Lemma hyphenParensRegex_enh :
hyphenParensRegex (String a (String b (String "-" (d ++ String "(" (d2 ++ ")")))))
= Some (mkMatch f d (Some d2)).
Proof.
unfold hyphenParensRegex. rewrite twoUpper_canonical.
rewrite digits1_app by (auto; reflexivity).
rewrite digits1_app by (auto; reflexivity).
destruct d; [contradiction|reflexivity].
Qed.

Lemma dotNotationRegex_enh :
dotNotationRegex (String a (String b (String "." (d ++ String "." d2))))
= Some (mkMatch f d (Some d2)).
Proof.
unfold dotNotationRegex. rewrite twoUpper_canonical.
rewrite digits1_app by (auto; reflexivity).
rewrite <- (append_Empty_r d2) at 1.
rewrite digits1_app by (auto; exact I).
destruct d; [contradiction|].
destruct d2; [contradiction|reflexivity].
Qed.

End Canonical.


End Renderings.

Ltac norm_append :=
  repeat first [rewrite append_String | rewrite append_Empty | rewrite append_Empty_r].

Section ParseRenderings.

Lemma toUpperCase_canonical_tail (d r : string) :
allDigits d = true -> toUpperCase r = r -> toUpperCase (d ++ r) = d ++ r.
Proof. intros Hd Hr. now rewrite toUpperCase_app, (toUpperCase_digits d Hd), Hr. Qed.

Lemma enhancementOf_decimal (z : Z) :
0 <= z < 2 ^ 53 -> enhancementOf (Some (decimal z)) = Some (IntFinite z).
Proof.
intros Hz. unfold enhancementOf.
destruct (decimal z) eqn:E; [now apply decimal_nonempty in E|].
rewrite <- E. now rewrite parseInt_decimal.
Qed.

(** Both renderings of a family code with safe number and enhancement
  parse to the record of these three fields. *)
Lemma parse_renderings (f : string) (n : IntNumber) (e : option IntNumber) :
isFamily f = true -> isSafeInteger n = true -> isSafeEnhancement e = true ->
let p := mkParsed f n e (dotted f n e) (hyphenated f n e) (hyphenated f n e) in
parse (dotted f n e) = Ok p /\ parse (hyphenated f n e) = Ok p.
Proof.
intros Hf Hn He.
destruct f as [|a [|b [|]]]; try discriminate.
cbn in Hf. apply andb_prop in Hf as [Ha Hb].
destruct n as [z|]; [|discriminate].
cbn in Hn. apply andb_prop in Hn as [Hz1%Z.leb_le Hz2%Z.ltb_lt].
assert (0 <= z < 2 ^ 53) as Hz by lia.
pose proof (allDigits_decimal z) as Hd.
pose proof (decimal_nonempty z) as Hne.
destruct e as [[z2|]|]; try discriminate.
- cbn in He. apply andb_prop in He as [Hy1%Z.leb_le Hy2%Z.ltb_lt].
  assert (0 <= z2 < 2 ^ 53) as Hz' by lia.
  pose proof (allDigits_decimal z2) as Hd2.
  pose proof (decimal_nonempty z2) as Hne2.
  intros p. unfold p, dotted, hyphenated.
  rewrite !(toString_safe z Hz), !(toString_safe z2 Hz').
  norm_append.
  split.
  + erewrite parse_dot_match; [| discriminate |].
    2:{ rewrite !toUpperCase_String, (toUpper_upper a Ha), (toUpper_upper b Hb).
        rewrite toUpperCase_canonical_tail; [|exact Hd|].
        - change (Char.toUpper ".") with "."%char.
          apply dotNotationRegex_enh; assumption.
        - rewrite toUpperCase_String. change (Char.toUpper ".") with "."%char.
          now rewrite toUpperCase_digits. }
    cbn [group1 group2 group3].
    rewrite (parseInt_decimal z Hz), (enhancementOf_decimal z2 Hz').
    unfold dotted, hyphenated.
    rewrite !(toString_safe z Hz), !(toString_safe z2 Hz').
    now norm_append.
  + erewrite parse_hyphen_match; [| discriminate | |].
    2:{ rewrite !toUpperCase_String, (toUpper_upper a Ha), (toUpper_upper b Hb).
        change (Char.toUpper "-") with "-"%char.
        apply dotNotationRegex_hyphen; assumption. }
    2:{ rewrite !toUpperCase_String, (toUpper_upper a Ha), (toUpper_upper b Hb).
        rewrite toUpperCase_canonical_tail; [|exact Hd|].
        - change (Char.toUpper "-") with "-"%char.
          apply hyphenParensRegex_enh; assumption.
        - rewrite toUpperCase_String. change (Char.toUpper "(") with "("%char.
          rewrite toUpperCase_canonical_tail; [reflexivity|exact Hd2|reflexivity]. }
    cbn [group1 group2 group3].
    rewrite (parseInt_decimal z Hz), (enhancementOf_decimal z2 Hz').
    unfold dotted, hyphenated.
    rewrite !(toString_safe z Hz), !(toString_safe z2 Hz').
    now norm_append.
- intros p. unfold p, dotted, hyphenated.
  rewrite !(toString_safe z Hz).
  norm_append.
  split.
  + erewrite parse_dot_match; [| discriminate |].
    2:{ rewrite !toUpperCase_String, (toUpper_upper a Ha), (toUpper_upper b Hb).
        rewrite (toUpperCase_digits _ Hd).
        change (Char.toUpper ".") with "."%char.
        apply dotNotationRegex_plain; assumption. }
    cbn [group1 group2 group3 enhancementOf].
    rewrite (parseInt_decimal z Hz).
    unfold dotted, hyphenated.
    rewrite !(toString_safe z Hz).
    now norm_append.
  + erewrite parse_hyphen_match; [| discriminate | |].
    2:{ rewrite !toUpperCase_String, (toUpper_upper a Ha), (toUpper_upper b Hb).
        change (Char.toUpper "-") with "-"%char.
        apply dotNotationRegex_hyphen; assumption. }
    2:{ rewrite !toUpperCase_String, (toUpper_upper a Ha), (toUpper_upper b Hb).
        rewrite (toUpperCase_digits _ Hd).
        change (Char.toUpper "-") with "-"%char.
        apply hyphenParensRegex_plain; assumption. }
    cbn [group1 group2 group3 enhancementOf].
    rewrite (parseInt_decimal z Hz).
    unfold dotted, hyphenated.
    rewrite !(toString_safe z Hz).
    now norm_append.
Qed.

End ParseRenderings.

(** ** The identifier module: letter case *)

Section LetterCase.

Lemma toUpper_idem (c : ascii) : Char.toUpper (Char.toUpper c) = Char.toUpper c.
Proof. destruct c as [[] [] [] [] [] [] [] []]; reflexivity. Qed.

Lemma toUpper_lowered (c : ascii) :
  Char.toUpper (if Char.isUpper c then ascii_of_N (Char.code c + 32) else c)
  = Char.toUpper c.
Proof. destruct c as [[] [] [] [] [] [] [] []]; reflexivity. Qed.

Lemma toUpperCase_idem (s : string) : toUpperCase (toUpperCase s) = toUpperCase s.
Proof. induction s as [|c s IH]; cbn; [reflexivity|]. now rewrite toUpper_idem, IH. Qed.

Lemma toUpperCase_toLowerCase (s : string) : toUpperCase (toLowerCase s) = toUpperCase s.
Proof. induction s as [|c s IH]; cbn; [reflexivity|]. now rewrite toUpper_lowered, IH. Qed.

(** [parse] reads its argument through [toUpperCase], the error
    message apart. *)
Lemma parse_upper (t u : string) (p : ParsedControl) :
  toUpperCase t = toUpperCase u -> parse t = Ok p -> parse u = Ok p.
Proof.
  intros H. unfold parse.
  destruct t as [|c t], u as [|c' u]; try discriminate.
  rewrite H.
  destruct (dotNotationRegex _); [trivial|].
  destruct (hyphenParensRegex _); [trivial|].
  destruct (hyphenRegex _); [trivial|].
  destruct (spaceRegex _); [trivial|].
  destruct (noSepRegex _); [trivial|discriminate].
Qed.

End LetterCase.

(** ** The identifier module: the texts that parse *)

Section ParserForms.

Lemma spanDigits_inv (s d r : string) :
  spanDigits s = (d, r) -> allDigits d = true /\ s = d ++ r.
Proof.
  revert d r. induction s as [|c s IH]; intros d r; cbn.
  - intros [= <- <-]. now split.
  - destruct (Char.isDigit c) eqn:Hc.
    + destruct (spanDigits s) as [d' r'] eqn:E. intros [= <- <-].
      destruct (IH d' r' eq_refl) as [Hd ->]. split; [cbn; now rewrite Hc|reflexivity].
    + intros [= <- <-]. now split.
Qed.

Lemma digits1_inv (s d r : string) :
  digits1 s = Some (d, r) -> allDigits d = true /\ d <> EmptyString /\ s = d ++ r.
Proof.
  unfold digits1. destruct (spanDigits s) as [d' r'] eqn:E.
  apply spanDigits_inv in E as [Hd ->].
  destruct d' as [|c d']; [discriminate|]. intros [= <- <-].
  repeat split; [assumption|discriminate].
Qed.

Lemma dropSpaces_inv (s : string) :
  exists w, allSpaces w = true /\ s = w ++ dropSpaces s.
Proof.
  induction s as [|c s [w [Hw IH]]]; cbn.
  - exists EmptyString. now split.
  - destruct (Char.isSpace c) eqn:Hc.
    + exists (String c w). split; [cbn; now rewrite Hc|].
      rewrite append_String. now f_equal.
    + exists EmptyString. now split.
Qed.

Lemma spaces1_inv (s r : string) :
  spaces1 s = Some r ->
  exists w, allSpaces w = true /\ w <> EmptyString /\ s = w ++ r.
Proof.
  unfold spaces1. destruct s as [|c s]; [discriminate|].
  destruct (Char.isSpace c) eqn:Hc; [|discriminate]. intros [= <-].
  destruct (dropSpaces_inv s) as [w [Hw Hs]].
  exists (String c w). split; [cbn; now rewrite Hc|]. split; [discriminate|].
  rewrite append_String. now f_equal.
Qed.

Lemma dotNotationRegex_inv (u : string) (m : Match) :
  dotNotationRegex u = Some m ->
  plainForm u m "." \/ enhancedForm u m "." "." "".
Proof.
  unfold dotNotationRegex.
  destruct (twoUpper u) as [[f r]|] eqn:E; [|discriminate].
  apply twoUpper_family in E as [Hf ->].
  destruct r as [|c r1]; [discriminate|].
  destruct (Ascii.eqb_spec c ".") as [->|Hc].
  2:{ destruct c as [[] [] [] [] [] [] [] []]; try discriminate. now contradiction Hc. }
  destruct (digits1 r1) as [[num r2]|] eqn:E1; [|discriminate].
  apply digits1_inv in E1 as (Hd & Hne & ->).
  destruct r2 as [|c2 r2].
  - intros [= <-]. left. repeat split; auto. cbn [group1 group2].
    now rewrite append_Empty_r.
  - destruct (Ascii.eqb_spec c2 ".") as [->|Hc].
    2:{ destruct c2 as [[] [] [] [] [] [] [] []]; try discriminate. now contradiction Hc. }
    destruct (digits1 r2) as [[enh r3]|] eqn:E2; [|discriminate].
    apply digits1_inv in E2 as (Hd2 & Hne2 & ->).
    destruct r3; [|discriminate]. intros [= <-]. right.
    repeat split; auto. exists enh. cbn [group1 group2 group3].
    repeat split; auto.
Qed.

Lemma hyphenParensRegex_inv (u : string) (m : Match) :
  hyphenParensRegex u = Some m ->
  plainForm u m "-" \/ enhancedForm u m "-" "(" ")".
Proof.
  unfold hyphenParensRegex.
  destruct (twoUpper u) as [[f r]|] eqn:E; [|discriminate].
  apply twoUpper_family in E as [Hf ->].
  destruct r as [|c r1]; [discriminate|].
  destruct (Ascii.eqb_spec c "-") as [->|Hc].
  2:{ destruct c as [[] [] [] [] [] [] [] []]; try discriminate. now contradiction Hc. }
  destruct (digits1 r1) as [[num r2]|] eqn:E1; [|discriminate].
  apply digits1_inv in E1 as (Hd & Hne & ->).
  destruct r2 as [|c2 r2].
  - intros [= <-]. left. repeat split; auto. cbn [group1 group2].
    now rewrite append_Empty_r.
  - destruct (Ascii.eqb_spec c2 "(") as [->|Hc].
    2:{ destruct c2 as [[] [] [] [] [] [] [] []]; try discriminate. now contradiction Hc. }
    destruct (digits1 r2) as [[enh r3]|] eqn:E2; [|discriminate].
    apply digits1_inv in E2 as (Hd2 & Hne2 & ->).
    destruct r3 as [|c3 r3]; [discriminate|].
    destruct (Ascii.eqb_spec c3 ")") as [->|Hc].
    2:{ destruct c3 as [[] [] [] [] [] [] [] []]; try discriminate. now contradiction Hc. }
    destruct r3; [|discriminate].
    intros [= <-]. right.
    repeat split; auto. exists enh. cbn [group1 group2 group3].
    repeat split; auto.
Qed.

Lemma hyphenRegex_inv (u : string) (m : Match) :
  hyphenRegex u = Some m -> plainForm u m "-".
Proof.
  unfold hyphenRegex.
  destruct (twoUpper u) as [[f r]|] eqn:E; [|discriminate].
  apply twoUpper_family in E as [Hf ->].
  destruct r as [|c r1]; [discriminate|].
  destruct (Ascii.eqb_spec c "-") as [->|Hc].
  2:{ destruct c as [[] [] [] [] [] [] [] []]; try discriminate. now contradiction Hc. }
  destruct (digits1 r1) as [[num r2]|] eqn:E1; [|discriminate].
  apply digits1_inv in E1 as (Hd & Hne & ->).
  destruct r2; [|discriminate].
  intros [= <-]. repeat split; auto. cbn [group1 group2].
  now rewrite append_Empty_r.
Qed.

Lemma spaceRegex_inv (u : string) (m : Match) :
  spaceRegex u = Some m ->
  exists w, allSpaces w = true /\ w <> EmptyString /\ plainForm u m w.
Proof.
  unfold spaceRegex.
  destruct (twoUpper u) as [[f r]|] eqn:E; [|discriminate].
  apply twoUpper_family in E as [Hf ->].
  destruct (spaces1 r) as [r1|] eqn:Es; [|discriminate].
  apply spaces1_inv in Es as (w & Hw & Hwne & ->).
  destruct (digits1 r1) as [[num r2]|] eqn:E1; [|discriminate].
  apply digits1_inv in E1 as (Hd & Hne & ->).
  destruct r2; [|discriminate].
  intros [= <-]. exists w. repeat split; auto. cbn [group1 group2].
  now rewrite append_Empty_r.
Qed.

Lemma noSepRegex_inv (u : string) (m : Match) :
  noSepRegex u = Some m -> plainForm u m "".
Proof.
  unfold noSepRegex.
  destruct (twoUpper u) as [[f r]|] eqn:E; [|discriminate].
  apply twoUpper_family in E as [Hf ->].
  destruct (digits1 r) as [[num r2]|] eqn:E1; [|discriminate].
  apply digits1_inv in E1 as (Hd & Hne & ->).
  destruct r2; [|discriminate].
  intros [= <-]. repeat split; auto. cbn [group1 group2].
  now rewrite append_Empty_r.
Qed.

End ParserForms.

Section ParserShape.

(** What [parse] accepted, pattern by pattern. *)
Lemma parse_shape (t : string) (p : ParsedControl) :
  parse t = Ok p ->
  exists m,
    p = parsedOf (group1 m) (parseInt (group2 m)) (enhancementOf (group3 m)) /\
    (plainForm (toUpperCase t) m "." \/ enhancedForm (toUpperCase t) m "." "." "" \/
     plainForm (toUpperCase t) m "-" \/ enhancedForm (toUpperCase t) m "-" "(" ")" \/
     (exists w, allSpaces w = true /\ w <> EmptyString /\ plainForm (toUpperCase t) m w) \/
     plainForm (toUpperCase t) m "").
Proof.
  unfold parse. destruct t as [|c t]; [discriminate|].
  set (u := toUpperCase (String c t)).
  destruct (dotNotationRegex u) as [m|] eqn:E1.
  { cbn. intros [= <-]. exists m. split; [reflexivity|].
    apply dotNotationRegex_inv in E1 as [H|H]; auto. }
  destruct (hyphenParensRegex u) as [m|] eqn:E2.
  { cbn. intros [= <-]. exists m. split; [reflexivity|].
    apply hyphenParensRegex_inv in E2 as [H|H]; auto. }
  destruct (hyphenRegex u) as [m|] eqn:E3.
  { cbn. intros [= <-]. exists m.
    apply hyphenRegex_inv in E3. pose proof E3 as (_ & _ & _ & -> & _).
    split; [reflexivity|]. auto. }
  destruct (spaceRegex u) as [m|] eqn:E4.
  { cbn. intros [= <-]. exists m.
    apply spaceRegex_inv in E4 as (w & Hw & Hne & Hm).
    pose proof Hm as (_ & _ & _ & -> & _).
    split; [reflexivity|]. do 4 right. left. eauto. }
  destruct (noSepRegex u) as [m|] eqn:E5.
  { cbn. intros [= <-]. exists m.
    apply noSepRegex_inv in E5. pose proof E5 as (_ & _ & _ & -> & _).
    split; [reflexivity|]. auto 10. }
  discriminate.
Qed.

Lemma enhancementOf_digits (d : string) :
  d <> EmptyString -> enhancementOf (Some d) = Some (parseInt d).
Proof. destruct d; [contradiction|reflexivity]. Qed.

(** The upper-cased text starts with the family. *)
Lemma parse_family_prefix (t : string) (p : ParsedControl) :
  parse t = Ok p -> exists r, toUpperCase t = family p ++ r.
Proof.
  intros (m & -> & H)%parse_shape. cbn [family parsedOf].
  destruct H as [H|[H|[H|[H|[(w & _ & _ & H)|H]]]]].
  - destruct H as (_ & _ & _ & _ & ->). eauto.
  - destruct H as (_ & _ & _ & d2 & _ & _ & _ & ->). eauto.
  - destruct H as (_ & _ & _ & _ & ->). eauto.
  - destruct H as (_ & _ & _ & d2 & _ & _ & _ & ->). eauto.
  - destruct H as (_ & _ & _ & _ & ->). eauto.
  - destruct H as (_ & _ & _ & _ & ->). eauto.
Qed.

End ParserShape.

Section AcceptedForms.

(** [parseInt] does not see a leading zero. *)
Lemma parseInt_leading_zero (d : string) : parseInt (String "0" d) = parseInt d.
Proof.
  unfold parseInt, digitsValue. cbn [NilEmpty.uint_of_string].
  destruct (NilEmpty.uint_of_string d) as [u|]; reflexivity.
Qed.

Lemma isLetter_toUpper (a : ascii) :
  isLetter a = true -> Char.isUpper (Char.toUpper a) = true.
Proof. destruct a as [[] [] [] [] [] [] [] []]; intros H; try discriminate H; reflexivity. Qed.

Lemma isSpace_not_lower (c : ascii) : Char.isSpace c = true -> Char.isLower c = false.
Proof. destruct c as [[] [] [] [] [] [] [] []]; intros H; try discriminate H; reflexivity. Qed.

Lemma isSpace_not_digit (c : ascii) : Char.isSpace c = true -> Char.isDigit c = false.
Proof. destruct c as [[] [] [] [] [] [] [] []]; intros H; try discriminate H; reflexivity. Qed.

Lemma isDigit_not_space (c : ascii) : Char.isDigit c = true -> Char.isSpace c = false.
Proof. destruct c as [[] [] [] [] [] [] [] []]; intros H; try discriminate H; reflexivity. Qed.

Lemma toUpperCase_spaces (w : string) : allSpaces w = true -> toUpperCase w = w.
Proof.
  induction w as [|c w IH]; cbn; [reflexivity|].
  intros [Hc Hw]%andb_prop.
  unfold Char.toUpper. rewrite (isSpace_not_lower c Hc). now rewrite IH.
Qed.

Lemma dropSpaces_app (w d : string) :
  allSpaces w = true ->
  match d with String c _ => Char.isSpace c = false | EmptyString => True end ->
  dropSpaces (w ++ d) = d.
Proof.
  intros Hw Hd. induction w as [|c w IH].
  - rewrite append_Empty. destruct d as [|c d]; [reflexivity|]. cbn. now rewrite Hd.
  - cbn in Hw. apply andb_prop in Hw as [Hc Hw].
    rewrite append_String. cbn. now rewrite Hc, IH.
Qed.

Variables (a b : ascii) (d : string).
Hypothesis Ha : Char.isUpper a = true.
Hypothesis Hb : Char.isUpper b = true.
Hypothesis Hd : allDigits d = true.
Hypothesis Hne : d <> EmptyString.

Let f : string := String a (String b EmptyString).

(** A family code followed by digits: only the last pattern matches. *)
Lemma regexes_noSep :
  dotNotationRegex (String a (String b d)) = None /\
  hyphenParensRegex (String a (String b d)) = None /\
  hyphenRegex (String a (String b d)) = None /\
  spaceRegex (String a (String b d)) = None /\
  noSepRegex (String a (String b d)) = Some (mkMatch f d None).
Proof.
  unfold dotNotationRegex, hyphenParensRegex, hyphenRegex, spaceRegex, noSepRegex.
  rewrite (twoUpper_canonical a b Ha Hb).
  destruct d as [|c d'] eqn:E; [contradiction|].
  assert (Char.isDigit c = true) as Hc by (cbn in Hd; now apply andb_prop in Hd as [? _]).
  rewrite <- E.
  assert (digits1 d = Some (d, EmptyString)) as Hdig.
  { rewrite <- (append_Empty_r d) at 1. rewrite E in *. now apply digits1_app. }
  rewrite Hdig. rewrite E.
  unfold spaces1. rewrite (isDigit_not_space c Hc).
  repeat split;
    destruct c as [[] [] [] [] [] [] [] []]; try discriminate Hc; reflexivity.
Qed.

(** A family code, white space and digits: the fourth pattern matches. *)
Lemma regexes_space (w : string) :
  allSpaces w = true -> w <> EmptyString ->
  dotNotationRegex (String a (String b (w ++ d))) = None /\
  hyphenParensRegex (String a (String b (w ++ d))) = None /\
  hyphenRegex (String a (String b (w ++ d))) = None /\
  spaceRegex (String a (String b (w ++ d))) = Some (mkMatch f d None).
Proof.
  intros Hw Hwne.
  unfold dotNotationRegex, hyphenParensRegex, hyphenRegex, spaceRegex.
  rewrite (twoUpper_canonical a b Ha Hb).
  destruct w as [|c w']; [contradiction|].
  cbn in Hw. apply andb_prop in Hw as [Hc Hw].
  rewrite append_String.
  assert (dropSpaces (w' ++ d) = d) as Hdrop.
  { apply dropSpaces_app; [assumption|].
    destruct d as [|c0 d']; [exact I|].
    cbn in Hd. apply andb_prop in Hd as [H0 _]. now apply isDigit_not_space. }
  assert (digits1 d = Some (d, EmptyString)) as Hdig.
  { rewrite <- (append_Empty_r d) at 1. now apply digits1_app. }
  unfold spaces1. rewrite Hc, Hdrop, Hdig.
  repeat split;
    destruct c as [[] [] [] [] [] [] [] []]; try discriminate Hc; reflexivity.
Qed.

End AcceptedForms.

(** ** The order on identifiers *)

Section Order.

Lemma binary_round_aux_nonneg (m e : Z) (l : location) :
match toIntNumber (binary_round_aux prec emax false m e l) with
| IntFinite v => 0 <= v
| IntInfinity => True
end.
Proof.
unfold binary_round_aux.
destruct (shr_fexp prec emax m e l) as [mrs' e'].
destruct (shr_fexp prec emax _ e' loc_Exact) as [mrs'' e''].
destruct (shr_m mrs'') as [|q|q]; cbn; try exact I; [lia|].
destruct (e'' <=? emax - prec); cbn; [|exact I].
destruct (Z.leb_spec 0 e'').
- apply Z.mul_nonneg_nonneg; [lia|]. apply Z.pow_nonneg. lia.
- apply Z.div_pos; [lia|]. apply Z.pow_pos_nonneg; lia.
Qed.

Lemma roundInt_nonneg (z : Z) :
0 <= z -> ltb (IntFinite (-1)) (roundInt z) = true.
Proof.
intros Hz. unfold roundInt, ofZ, binary_normalize.
destruct z as [|p|p]; [reflexivity| |lia].
unfold binary_round.
destruct (shl_align p 0 _) as [mz ez].
pose proof (binary_round_aux_nonneg (Z.pos mz) ez loc_Exact) as H.
destruct (toIntNumber _); [|reflexivity].
cbn. apply Z.ltb_lt. lia.
Qed.

Lemma parseInt_nonneg (s : string) : ltb (IntFinite (-1)) (parseInt s) = true.
Proof.
unfold parseInt. apply roundInt_nonneg. unfold digitsValue.
destruct (NilEmpty.uint_of_string s); lia.
Qed.

Lemma enhancementOf_nonneg (g : option string) (e : IntNumber) :
enhancementOf g = Some e -> ltb (IntFinite (-1)) e = true.
Proof.
destruct g as [[|c s]|]; try discriminate.
intros [= <-]. apply parseInt_nonneg.
Qed.

Lemma parse_enhancement_nonneg (t : string) (p : ParsedControl) (e : IntNumber) :
parse t = Ok p -> enhancement p = Some e -> ltb (IntFinite (-1)) e = true.
Proof.
unfold parse. destruct t as [|c t]; [discriminate|].
set (u := toUpperCase (String c t)).
destruct (dotNotationRegex u) as [m|].
{ cbn. intros [= <-]. cbn. apply enhancementOf_nonneg. }
destruct (hyphenParensRegex u) as [m|].
{ cbn. intros [= <-]. cbn. apply enhancementOf_nonneg. }
destruct (hyphenRegex u) as [m|]; [cbn; intros [= <-]; discriminate|].
destruct (spaceRegex u) as [m|]; [cbn; intros [= <-]; discriminate|].
destruct (noSepRegex u) as [m|]; [cbn; intros [= <-]; discriminate|].
discriminate.
Qed.

(** [ltb] is a strict total order on [IntNumber]. *)
Lemma ltb_irrefl (x : IntNumber) : ltb x x = false.
Proof. destruct x; cbn; [apply Z.ltb_irrefl | reflexivity]. Qed.

Lemma ltb_asym (x y : IntNumber) : ltb x y = true -> ltb y x = false.
Proof.
destruct x, y; cbn; try reflexivity; try discriminate.
intros H%Z.ltb_lt. apply Z.ltb_ge. lia.
Qed.

Lemma ltb_trans (x y z : IntNumber) : ltb x y = true -> ltb y z = true -> ltb x z = true.
Proof.
destruct x, y, z; cbn; try reflexivity; try discriminate.
intros H1%Z.ltb_lt H2%Z.ltb_lt. apply Z.ltb_lt. lia.
Qed.

Lemma ltb_total (x y : IntNumber) : ltb x y = false -> ltb y x = false -> x = y.
Proof.
destruct x, y; cbn; try reflexivity; try discriminate.
intros H1%Z.ltb_ge H2%Z.ltb_ge. f_equal. lia.
Qed.

Lemma compareInt_antisym (x y : IntNumber) : compareInt y x = CompOpp (compareInt x y).
Proof.
unfold compareInt.
destruct (ltb x y) eqn:E1; destruct (ltb y x) eqn:E2; try reflexivity.
now rewrite (ltb_asym x y E1) in E2.
Qed.

Lemma compareInt_eq (x y : IntNumber) : compareInt x y = Eq <-> x = y.
Proof.
unfold compareInt. split.
- destruct (ltb x y) eqn:E1; [discriminate|].
  destruct (ltb y x) eqn:E2; [discriminate|]. intros _. now apply ltb_total.
- intros ->. now rewrite ltb_irrefl.
Qed.

Lemma compareInt_lt (x y : IntNumber) : compareInt x y = Lt <-> ltb x y = true.
Proof.
unfold compareInt. destruct (ltb x y); [tauto|].
destruct (ltb y x); split; discriminate.
Qed.

Lemma compareInt_trans (x y z : IntNumber) :
compareInt x y = Lt -> compareInt y z = Lt -> compareInt x z = Lt.
Proof. rewrite !compareInt_lt. apply ltb_trans. Qed.

Lemma compareEnhancement_antisym (x y : option IntNumber) :
compareEnhancement y x = CompOpp (compareEnhancement x y).
Proof. destruct x, y; cbn; try reflexivity. apply compareInt_antisym. Qed.

Lemma compareEnhancement_eq (x y : option IntNumber) :
compareEnhancement x y = Eq <-> x = y.
Proof.
destruct x, y; cbn; try (split; discriminate); [|tauto].
rewrite compareInt_eq. split; [now intros ->|now intros [= ->]].
Qed.

Lemma compareEnhancement_trans (x y z : option IntNumber) :
compareEnhancement x y = Lt -> compareEnhancement y z = Lt ->
compareEnhancement x z = Lt.
Proof.
destruct x, y, z; cbn; try reflexivity; try discriminate.
apply compareInt_trans.
Qed.

Lemma string_compare_trans (x y z : string) :
String.compare x y = Lt -> String.compare y z = Lt -> String.compare x z = Lt.
Proof.
intros H1 H2.
apply OrderedTypeEx.String_as_OT.cmp_lt.
apply OrderedTypeEx.String_as_OT.cmp_lt in H1, H2.
eapply OrderedTypeEx.String_as_OT.lt_trans; eassumption.
Qed.

Lemma string_compare_refl (x : string) : String.compare x x = Eq.
Proof.
pose proof (String.compare_antisym x x) as H.
destruct (String.compare x x); try reflexivity; discriminate.
Qed.

Lemma identifierCompare_antisym (a b : ParsedControl) :
identifierCompare b a = CompOpp (identifierCompare a b).
Proof.
unfold identifierCompare.
rewrite (String.compare_antisym (family b) (family a)).
destruct (String.compare (family a) (family b)); cbn; try reflexivity.
rewrite (compareInt_antisym (number a) (number b)).
destruct (compareInt (number a) (number b)); cbn; try reflexivity.
apply compareEnhancement_antisym.
Qed.

Lemma identifierCompare_eq (a b : ParsedControl) :
identifierCompare a b = Eq <-> sameIdentifier a b.
Proof.
unfold identifierCompare, sameIdentifier. split.
- destruct (String.compare (family a) (family b)) eqn:Ef; try discriminate.
  apply String.compare_eq_iff in Ef.
  destruct (compareInt (number a) (number b)) eqn:En; try discriminate.
  apply compareInt_eq in En.
  intros He%compareEnhancement_eq. auto.
- intros (-> & -> & ->).
  rewrite string_compare_refl.
  rewrite (proj2 (compareInt_eq _ _) eq_refl).
  now apply compareEnhancement_eq.
Qed.

Lemma identifierCompare_trans (a b c : ParsedControl) :
identifierCompare a b = Lt -> identifierCompare b c = Lt -> identifierCompare a c = Lt.
Proof.
unfold identifierCompare.
destruct (String.compare (family a) (family b)) eqn:Eab; try discriminate;
  destruct (String.compare (family b) (family c)) eqn:Ebc; try discriminate.
- apply String.compare_eq_iff in Eab, Ebc. rewrite Eab, Ebc, string_compare_refl.
  destruct (compareInt (number a) (number b)) eqn:Nab; try discriminate;
    destruct (compareInt (number b) (number c)) eqn:Nbc; try discriminate.
  + apply compareInt_eq in Nab, Nbc. rewrite Nab, Nbc.
    rewrite (proj2 (compareInt_eq _ _) eq_refl).
    apply compareEnhancement_trans.
  + apply compareInt_eq in Nab. rewrite Nab, Nbc. reflexivity.
  + apply compareInt_eq in Nbc. rewrite <- Nbc, Nab. reflexivity.
  + now rewrite (compareInt_trans _ _ _ Nab Nbc).
- apply String.compare_eq_iff in Eab. now rewrite Eab, Ebc.
- apply String.compare_eq_iff in Ebc. now rewrite <- Ebc, Eab.
- now rewrite (string_compare_trans _ _ _ Eab Ebc).
Qed.

(** [compareControlIds] computes the sign of [identifierCompare]. *)
Lemma compareControlIds_spec (a b : string) (pa pb : ParsedControl) :
parse a = Ok pa -> parse b = Ok pb ->
compareControlIds a b = Ok (signOf (identifierCompare pa pb)).
Proof.
intros Ha Hb. unfold compareControlIds.
destruct a as [|ca a]; [discriminate|].
destruct b as [|cb b]; [discriminate|].
rewrite Ha, Hb. cbn [bind].
unfold identifierCompare, stringLt, String.ltb.
rewrite (String.compare_antisym (family pb) (family pa)).
destruct (String.compare (family pa) (family pb)); cbn [CompOpp signOf]; try reflexivity.
unfold compareInt.
destruct (ltb (number pa) (number pb)) eqn:N1; [reflexivity|].
destruct (ltb (number pb) (number pa)) eqn:N2; [reflexivity|].
destruct (enhancement pa) as [ea|] eqn:Ea; destruct (enhancement pb) as [eb|] eqn:Eb;
  cbn [compareEnhancement].
- unfold compareInt. destruct (ltb ea eb); [reflexivity|].
  destruct (ltb eb ea); reflexivity.
- rewrite (ltb_asym _ _ (parse_enhancement_nonneg _ _ _ Ha Ea)).
  now rewrite (parse_enhancement_nonneg _ _ _ Ha Ea).
- now rewrite (parse_enhancement_nonneg _ _ _ Hb Eb).
- reflexivity.
Qed.

End Order.

(** ** Printing a Number and reading it back *)

Section Printing.

Lemma roundsTo_spec (x y : Z) : roundsTo x y = true -> roundInt y = IntFinite x.
Proof.
  unfold roundsTo. destruct (roundInt y) as [x'|]; [|discriminate].
  now intros ->%Z.eqb_eq.
Qed.

(** The digits printed for a Number round to it. *)
Lemma shortestFrom_rounds (x : Z) (j : nat) :
  0 <= x -> roundInt x = IntFinite x ->
  0 <= shortestFrom x j /\ roundInt (shortestFrom x j) = IntFinite x.
Proof.
  intros Hx Hr. induction j as [|j IH]; cbn [shortestFrom]; [now split|].
  cbv zeta.
  repeat match goal with
         | |- context [if ?b && roundsTo x ?c then _ else _] =>
             destruct (b && roundsTo x c) eqn:?
         end; try exact IH.
  all: match goal with
       | H : (0 <? ?c) && roundsTo _ ?c = true |- _ =>
           apply andb_prop in H as [Hpos%Z.ltb_lt Hc%roundsTo_spec]; split; [lia|exact Hc]
       end.
Qed.

Lemma shortest_rounds (x : Z) :
  0 <= x -> roundInt x = IntFinite x ->
  0 <= shortest x /\ roundInt (shortest x) = IntFinite x.
Proof.
  intros Hx Hr. unfold shortest.
  destruct (x <? 2 ^ 53); [now split|]. now apply shortestFrom_rounds.
Qed.

Lemma shortest_below (x : Z) :
  0 <= x < 10 ^ 21 -> roundInt x = IntFinite x -> shortest x < 10 ^ 21.
Proof.
  intros [Hx Hlt] Hr.
  destruct (shortest_rounds x Hx Hr) as [_ Hs].
  destruct (Z.ltb_spec (shortest x) (10 ^ 21)) as [|Hge]; [assumption|].
  pose proof (roundInt_above_exponent_form _ _ Hge Hs). lia.
Qed.

(** Below [10^21] a Number prints as a run of digits that [parseInt]
    reads back as the same Number. *)
Lemma toString_parseInt (x : Z) :
  0 <= x < 10 ^ 21 -> roundInt x = IntFinite x ->
  allDigits (toString (IntFinite x)) = true /\
  toString (IntFinite x) <> EmptyString /\
  parseInt (toString (IntFinite x)) = IntFinite x.
Proof.
  intros Hx Hr.
  destruct (shortest_rounds x ltac:(lia) Hr) as [Hpos Hs].
  pose proof (shortest_below x Hx Hr) as Hlt.
  assert (toString (IntFinite x) = decimal (shortest x)) as ->.
  { unfold toString. destruct (Z.ltb_spec x 0); [lia|].
    cbv zeta. destruct (Z.ltb_spec (shortest x) (10 ^ 21)); [reflexivity|lia]. }
  split; [apply allDigits_decimal|]. split; [apply decimal_nonempty|].
  unfold parseInt. now rewrite digitsValue_decimal.
Qed.

Lemma digitsValue_nonneg (s : string) : 0 <= digitsValue s.
Proof. unfold digitsValue. destruct (NilEmpty.uint_of_string s); lia. Qed.

(** What [parseInt] returns prints and reads back. *)
Lemma toString_parseInt_digits (d : string) :
  printsDigits (parseInt d) = true ->
  allDigits (toString (parseInt d)) = true /\
  toString (parseInt d) <> EmptyString /\
  parseInt (toString (parseInt d)) = parseInt d.
Proof.
  intros Hp.
  destruct (parseInt d) as [x|] eqn:Hd; [|discriminate].
  cbn in Hp. apply Z.ltb_lt in Hp.
  pose proof (parseInt_nonneg d) as Hn. rewrite Hd in Hn. cbn in Hn. apply Z.ltb_lt in Hn.
  apply toString_parseInt; [lia|].
  unfold parseInt in Hd. eapply roundInt_idem; [apply digitsValue_nonneg | exact Hd].
Qed.

End Printing.

(** ** Texts and the identifiers they write *)

Section WrittenIdentifiers.

Lemma isDigit_toUpper (c : ascii) : Char.isDigit (Char.toUpper c) = Char.isDigit c.
Proof. destruct c as [[] [] [] [] [] [] [] []]; reflexivity. Qed.

Lemma isUpper_not_digit (c : ascii) : Char.isUpper c = true -> Char.isDigit c = false.
Proof. destruct c as [[] [] [] [] [] [] [] []]; intros H; try discriminate H; reflexivity. Qed.

Lemma isFamily_inv (f : string) :
  isFamily f = true ->
  exists a b, f = String a (String b EmptyString) /\
              Char.isUpper a = true /\ Char.isUpper b = true.
Proof.
  destruct f as [|a [|b [|]]]; try discriminate.
  cbn. intros [Ha Hb]%andb_prop. eauto.
Qed.

Lemma toUpperCase_nonempty (t u : string) :
  toUpperCase t = u -> u <> EmptyString -> t <> EmptyString.
Proof. intros <- H ->. now apply H. Qed.

(** A text that writes an identifier parses to that identifier, with
    its numbers rounded. *)
Lemma writes_parse (t : string) (id : ControlIdentifier) :
  writes t id -> parse t = Ok (parsedAs id).
Proof.
  intros [f sep d Hf Hsep Hd Hne Hu | f d d2 Hf Hd Hne Hd2 Hne2 Hu];
    destruct (isFamily_inv f Hf) as (a & b & -> & Ha & Hb);
    unfold parsedAs; cbn [id_family id_number id_enhancement option_map].
  - assert (t <> EmptyString) as Ht
        by (apply (toUpperCase_nonempty _ _ Hu); now rewrite !append_String).
    unfold parse. destruct t as [|c t]; [contradiction|]. rewrite Hu.
    rewrite !append_String, append_Empty.
    destruct Hsep as [-> | [-> | [-> | [Hwne Hw]]]].
    + rewrite append_String, append_Empty.
      rewrite (dotNotationRegex_plain a b d Ha Hb Hd Hne). reflexivity.
    + rewrite append_String, append_Empty.
      rewrite (dotNotationRegex_hyphen a b Ha Hb).
      rewrite (hyphenParensRegex_plain a b d Ha Hb Hd Hne). reflexivity.
    + rewrite append_Empty.
      destruct (regexes_noSep a b d Ha Hb Hd Hne) as (H1 & H2 & H3 & H4 & H5).
      rewrite H1, H2, H3, H4, H5. reflexivity.
    + destruct (regexes_space a b d Ha Hb Hd Hne sep Hw Hwne) as (H1 & H2 & H3 & H4).
      rewrite H1, H2, H3, H4. reflexivity.
  - assert (t <> EmptyString) as Ht
        by (destruct Hu as [Hu|Hu]; apply (toUpperCase_nonempty _ _ Hu);
            now rewrite !append_String).
    unfold parse. destruct t as [|c t]; [contradiction|].
    destruct Hu as [Hu|Hu]; rewrite Hu; rewrite !append_String, !append_Empty.
    + rewrite (dotNotationRegex_enh a b d Ha Hb Hd Hne d2 Hd2 Hne2).
      cbn [group1 group2 group3 bind]. rewrite (enhancementOf_digits d2 Hne2). reflexivity.
    + rewrite (dotNotationRegex_hyphen a b Ha Hb).
      rewrite (hyphenParensRegex_enh a b d Ha Hb Hd Hne d2 Hd2 Hne2).
      cbn [group1 group2 group3 bind]. rewrite (enhancementOf_digits d2 Hne2). reflexivity.
Qed.

(** Every text that parses writes an identifier. *)
Lemma parse_writes (t : string) (p : ParsedControl) :
  parse t = Ok p -> exists id, writes t id.
Proof.
  intros (m & _ & H)%parse_shape.
  destruct H as [H|[H|[H|[H|[(w & Hw & Hwne & H)|H]]]]].
  - destruct H as (Hf & Hd & Hne & _ & Hu).
    eexists. apply (writes_number t (group1 m) "." (group2 m)); auto.
    unfold isSeparator. auto.
  - destruct H as (Hf & Hd & Hne & d2 & _ & Hd2 & Hne2 & Hu).
    eexists. apply (writes_enhancement t (group1 m) (group2 m) d2); auto.
    left. now rewrite append_Empty_r in Hu.
  - destruct H as (Hf & Hd & Hne & _ & Hu).
    eexists. apply (writes_number t (group1 m) "-" (group2 m)); auto.
    unfold isSeparator. auto.
  - destruct H as (Hf & Hd & Hne & d2 & _ & Hd2 & Hne2 & Hu).
    eexists. apply (writes_enhancement t (group1 m) (group2 m) d2); auto.
  - destruct H as (Hf & Hd & Hne & _ & Hu).
    eexists. apply (writes_number t (group1 m) w (group2 m)); auto.
    unfold isSeparator. auto.
  - destruct H as (Hf & Hd & Hne & _ & Hu).
    eexists. apply (writes_number t (group1 m) "" (group2 m)); auto.
    unfold isSeparator. auto.
Qed.

Lemma writes_nonneg (t : string) (id : ControlIdentifier) :
  writes t id ->
  0 <= id_number id /\
  match id_enhancement id with Some e => 0 <= e | None => True end.
Proof.
  intros [f sep d _ _ _ _ _ | f d d2 _ _ _ _ _ _]; cbn;
    split; try exact I; apply digitsValue_nonneg.
Qed.

(** Up to [2^53] rounding changes nothing, and the Number prints in
    full. *)
Lemma roundInt_exact_range (z : Z) : 0 <= z <= 2 ^ 53 -> roundInt z = IntFinite z.
Proof.
  intros [H0 Hle]. destruct (Z.eq_dec z (2 ^ 53)) as [->|Hne].
  - vm_compute. reflexivity.
  - apply roundInt_exact. lia.
Qed.

Lemma toString_exact_range (z : Z) :
  0 <= z <= 2 ^ 53 -> toString (IntFinite z) = decimal z.
Proof.
  intros [H0 Hle]. destruct (Z.eq_dec z (2 ^ 53)) as [->|Hne].
  - vm_compute. reflexivity.
  - apply toString_safe. lia.
Qed.

Lemma writes_exact (t : string) (id : ControlIdentifier) :
  writes t id -> inExactRange id ->
  parsedAs id = parsedOf (id_family id) (IntFinite (id_number id))
                         (option_map IntFinite (id_enhancement id)).
Proof.
  intros Hw [Hn He]. destruct (writes_nonneg t id Hw) as [Hn0 He0].
  unfold parsedAs. rewrite (roundInt_exact_range (id_number id)) by lia.
  destruct (id_enhancement id) as [e|]; [|reflexivity].
  cbn [option_map]. now rewrite (roundInt_exact_range e) by lia.
Qed.

End WrittenIdentifiers.

Section CanonicalRendering.

(** The numeral of the integer that a run of digits writes is the run
    without its leading zeros. *)
Lemma string_of_uint_of_string (d : string) (u : Decimal.uint) :
  NilEmpty.uint_of_string d = Some u -> NilEmpty.string_of_uint u = d.
Proof. apply NilEmpty.sus. Qed.

Lemma uint_of_string_digits (d : string) :
  allDigits d = true -> exists u, NilEmpty.uint_of_string d = Some u.
Proof.
  induction d as [|c d IH]; [now exists Decimal.Nil|].
  cbn [allDigits]. intros [Hc Hd]%andb_prop. destruct (IH Hd) as [u Hu].
  cbn [NilEmpty.uint_of_string]. rewrite Hu.
  destruct c as [[] [] [] [] [] [] [] []]; try discriminate Hc; cbn; eauto.
Qed.

Lemma unorm_stripLeadingZeros (d : string) (u : Decimal.uint) :
  allDigits d = true -> d <> EmptyString ->
  NilEmpty.uint_of_string d = Some u ->
  NilEmpty.string_of_uint (Decimal.unorm u) = stripLeadingZeros d.
Proof.
  revert u. induction d as [|c d IH]; intros u Hd Hne Hu; [contradiction|].
  cbn [allDigits] in Hd. apply andb_prop in Hd as [Hc Hd].
  destruct (uint_of_string_digits d Hd) as [u' Hu'].
  pose proof (string_of_uint_of_string d u' Hu') as Hs.
  cbn [NilEmpty.uint_of_string] in Hu. rewrite Hu' in Hu.
  destruct c as [[] [] [] [] [] [] [] []]; try discriminate Hc;
    cbn in Hu; injection Hu as <-;
    try (cbn [Decimal.unorm Decimal.nzhead NilEmpty.string_of_uint stripLeadingZeros];
         now rewrite Hs).
  destruct d as [|c' d'].
  - cbn in Hu'. injection Hu' as <-. reflexivity.
  - change (Decimal.unorm (Decimal.D0 u')) with (Decimal.unorm u').
    cbn [stripLeadingZeros]. apply IH; [assumption|discriminate|exact Hu'].
Qed.

Lemma decimal_digitsValue (d : string) :
  allDigits d = true -> d <> EmptyString ->
  decimal (digitsValue d) = stripLeadingZeros d.
Proof.
  intros Hd Hne. destruct (uint_of_string_digits d Hd) as [u Hu].
  unfold decimal, digitsValue. rewrite Hu, N2Z.id.
  rewrite DecimalN.Unsigned.to_of.
  rewrite <- (unorm_stripLeadingZeros d u Hd Hne Hu).
  unfold NilZero.string_of_uint.
  destruct (Decimal.unorm u) eqn:E; try reflexivity.
  exfalso. revert E. unfold Decimal.unorm. destruct (Decimal.nzhead u); discriminate.
Qed.

(** [canonicalize] on the parts of a text. *)
Lemma canonicalizeFrom_upper (run s : string) :
  canonicalizeFrom run (toUpperCase s) = canonicalizeFrom run s.
Proof.
  revert run. induction s as [|c s IH]; intros run; [reflexivity|].
  cbn [toUpperCase canonicalizeFrom].
  rewrite isDigit_toUpper, toUpper_idem, !IH.
  destruct (Char.isDigit c) eqn:Hc; [|reflexivity].
  unfold Char.toUpper. now rewrite (isDigit_not_lower c Hc).
Qed.

Lemma append_assoc (s1 s2 s3 : string) : (s1 ++ s2) ++ s3 = s1 ++ (s2 ++ s3).
Proof. induction s1 as [|c s1 IH]; [reflexivity|]. now rewrite !append_String, IH. Qed.

Lemma canonicalizeFrom_digits (run d rest : string) :
  allDigits d = true ->
  canonicalizeFrom run (d ++ rest) = canonicalizeFrom (run ++ d) rest.
Proof.
  revert run. induction d as [|c d IH]; intros run Hd.
  - now rewrite append_Empty, append_Empty_r.
  - cbn [allDigits] in Hd. apply andb_prop in Hd as [Hc Hd].
    rewrite append_String. cbn [canonicalizeFrom]. rewrite Hc, (IH _ Hd).
    now rewrite append_assoc, append_String, append_Empty.
Qed.

Lemma canonicalizeFrom_run (d : string) :
  allDigits d = true -> canonicalizeFrom EmptyString d = stripLeadingZeros d.
Proof.
  intros Hd. rewrite <- (append_Empty_r d) at 1.
  rewrite (canonicalizeFrom_digits _ _ _ Hd). now rewrite append_Empty.
Qed.

Lemma canonicalizeFrom_other (c : ascii) (rest : string) :
  Char.isDigit c = false -> Char.toUpper c = c ->
  canonicalizeFrom EmptyString (String c rest)
  = String c (canonicalizeFrom EmptyString rest).
Proof. intros Hc Hu. cbn [canonicalizeFrom]. now rewrite Hc, Hu. Qed.

Lemma allSpaces_not_form (a b : ascii) (w rest : string) :
  allSpaces w = true -> w <> EmptyString ->
  formOf (String a (String b (w ++ rest))) = None.
Proof.
  destruct w as [|c w]; [contradiction|]. cbn [allSpaces].
  intros [Hc _]%andb_prop _. rewrite append_String.
  destruct c as [[] [] [] [] [] [] [] []]; try discriminate Hc; reflexivity.
Qed.

Lemma digits_not_form (a b : ascii) (d : string) :
  allDigits d = true -> formOf (String a (String b d)) = None.
Proof.
  destruct d as [|c d]; [reflexivity|]. cbn [allDigits].
  intros [Hc _]%andb_prop.
  destruct c as [[] [] [] [] [] [] [] []]; try discriminate Hc; reflexivity.
Qed.

Lemma formOf_upper (t : string) : formOf (toUpperCase t) = formOf t.
Proof.
  destruct t as [|a [|b [|c t]]]; try reflexivity.
  cbn [toUpperCase].
  destruct c as [[] [] [] [] [] [] [] []]; reflexivity.
Qed.

(** The renderings that [parse] builds for an identifier in the exact
    range are those of the specification. *)
Lemma renderings_exact (t : string) (id : ControlIdentifier) :
  writes t id -> inExactRange id ->
  internal (parsedAs id) = render id Dotted /\
  mcp (parsedAs id) = render id Hyphenated.
Proof.
  intros Hw Hr. rewrite (writes_exact t id Hw Hr).
  destruct Hr as [Hn He]. destruct (writes_nonneg t id Hw) as [Hn0 He0].
  unfold parsedOf, dotted, hyphenated, render. cbn [internal mcp].
  rewrite (toString_exact_range (id_number id)) by lia.
  destruct (id_enhancement id) as [e|]; cbn [option_map]; [|now split].
  now rewrite (toString_exact_range e) by lia.
Qed.

(** For a text in one of the two forms, the rendering of its identifier
    in that form is the canonical rendering of the text. *)
Lemma writes_canonical (t : string) (id : ControlIdentifier) (form : Form) :
  writes t id -> formOf t = Some form -> render id form = canonicalize t.
Proof.
  intros Hw Hform. unfold canonicalize.
  rewrite <- canonicalizeFrom_upper. rewrite <- formOf_upper in Hform.
  destruct Hw as [f sep d Hf Hsep Hd Hne Hu | f d d2 Hf Hd Hne Hd2 Hne2 Hu];
    destruct (isFamily_inv f Hf) as (a & b & -> & Ha & Hb);
    unfold render; cbn [id_family id_number id_enhancement].
  - rewrite (decimal_digitsValue d Hd Hne).
    destruct Hsep as [-> | [-> | [-> | [Hwne Hw]]]].
    + change (toUpperCase t = String a (String b (String "." d))) in Hu.
      rewrite Hu in *. injection Hform as <-.
      rewrite (canonicalizeFrom_other a), (canonicalizeFrom_other b)
        by (auto using isUpper_not_digit, toUpper_upper).
      rewrite canonicalizeFrom_other by reflexivity.
      rewrite (canonicalizeFrom_run d Hd). now norm_append.
    + change (toUpperCase t = String a (String b (String "-" d))) in Hu.
      rewrite Hu in *. injection Hform as <-.
      rewrite (canonicalizeFrom_other a), (canonicalizeFrom_other b)
        by (auto using isUpper_not_digit, toUpper_upper).
      rewrite canonicalizeFrom_other by reflexivity.
      rewrite (canonicalizeFrom_run d Hd). now norm_append.
    + change (toUpperCase t = String a (String b d)) in Hu.
      rewrite Hu in Hform. now rewrite digits_not_form in Hform.
    + change (toUpperCase t = String a (String b (sep ++ d))) in Hu.
      rewrite Hu in Hform. now rewrite allSpaces_not_form in Hform.
  - rewrite (decimal_digitsValue d Hd Hne), (decimal_digitsValue d2 Hd2 Hne2).
    destruct Hu as [Hu|Hu].
    + change (toUpperCase t = String a (String b (String "." (d ++ String "." d2)))) in Hu.
      rewrite Hu in *. injection Hform as <-.
      rewrite (canonicalizeFrom_other a), (canonicalizeFrom_other b)
        by (auto using isUpper_not_digit, toUpper_upper).
      rewrite canonicalizeFrom_other by reflexivity.
      rewrite (canonicalizeFrom_digits _ _ _ Hd), append_Empty.
      cbn [canonicalizeFrom]. change (Char.isDigit ".") with false. cbv iota.
      rewrite (canonicalizeFrom_run d2 Hd2).
      change (Char.toUpper ".") with "."%char.
      norm_append. rewrite ?append_assoc. norm_append. reflexivity.
    + change (toUpperCase t
              = String a (String b (String "-" (d ++ String "(" (d2 ++ ")"))))) in Hu.
      rewrite Hu in *. injection Hform as <-.
      rewrite (canonicalizeFrom_other a), (canonicalizeFrom_other b)
        by (auto using isUpper_not_digit, toUpper_upper).
      rewrite canonicalizeFrom_other by reflexivity.
      rewrite (canonicalizeFrom_digits _ _ _ Hd), append_Empty.
      cbn [canonicalizeFrom]. change (Char.isDigit "(") with false. cbv iota.
      rewrite (canonicalizeFrom_digits _ _ _ Hd2), append_Empty.
      cbn [canonicalizeFrom]. change (Char.isDigit ")") with false. cbv iota.
      cbn [stripLeadingZeros].
      change (Char.toUpper "(") with "("%char. change (Char.toUpper ")") with ")"%char.
      norm_append. rewrite ?append_assoc. norm_append. reflexivity.
Qed.

(** [normalize] on a valid text. *)
Lemma normalize_parse (t format : string) (p : ParsedControl) :
  parse t = Ok p ->
  normalize t format = Ok (if String.eqb format "dot" then internal p else mcp p).
Proof.
  intros Hp. unfold normalize. destruct t as [|c t]; [discriminate|].
  rewrite Hp. cbn [bind]. now destruct (String.eqb format "dot").
Qed.

End CanonicalRendering.

Section RoundTrip.

Lemma toUpperCase_family (f : string) : isFamily f = true -> toUpperCase f = f.
Proof.
  intros (a & b & -> & Ha & Hb)%isFamily_inv. cbn [toUpperCase].
  now rewrite (toUpper_upper a Ha), (toUpper_upper b Hb).
Qed.

(** The numbers of a parsed record are values of [parseInt]. *)
Lemma parse_numbers (t : string) (p : ParsedControl) :
  parse t = Ok p ->
  (exists d, number p = parseInt d) /\
  (forall e, enhancement p = Some e -> exists d2, e = parseInt d2).
Proof.
  intros (m & -> & _)%parse_shape. cbn [number enhancement parsedOf].
  split; [eauto|].
  intros e. destruct (group3 m) as [[|c d2]|]; try discriminate.
  cbn [enhancementOf]. intros [= <-]. eauto.
Qed.

(** Both renderings of a parsed record whose numbers print as digits
    parse back to the record. *)
Lemma parse_renderings_printed (t : string) (p : ParsedControl) :
  parse t = Ok p ->
  printsDigits (number p) = true ->
  enhancementPrintsDigits (enhancement p) = true ->
  parse (internal p) = Ok p /\ parse (mcp p) = Ok p.
Proof.
  intros Hp Hn He.
  destruct (parse_inv t p Hp) as [Hf Hrec].
  destruct (parse_numbers t p Hp) as [[d Hd] Henh].
  destruct p as [f n e i m dsp]. cbn [family number enhancement internal mcp] in *.
  injection Hrec as -> -> ->. subst n.
  destruct (toString_parseInt_digits d Hn) as (Hdig & Hne & Hback).
  set (dn := toString (parseInt d)) in *.
  pose proof (toUpperCase_family _ Hf) as Huf.
  destruct e as [e|].
  - destruct (Henh e eq_refl) as [d2 ->].
    destruct (toString_parseInt_digits d2 He) as (Hdig2 & Hne2 & Hback2).
    set (de := toString (parseInt d2)) in *.
    assert (parsedAs (mkIdentifier f (digitsValue dn) (Some (digitsValue de)))
            = mkParsed f (parseInt d) (Some (parseInt d2))
                (dotted f (parseInt d) (Some (parseInt d2)))
                (hyphenated f (parseInt d) (Some (parseInt d2)))
                (hyphenated f (parseInt d) (Some (parseInt d2)))) as Hid.
    { unfold parsedAs, parsedOf. cbn [id_family id_number id_enhancement option_map].
      change (roundInt (digitsValue dn)) with (parseInt dn).
      change (roundInt (digitsValue de)) with (parseInt de).
      now rewrite Hback, Hback2. }
    rewrite <- Hid. unfold dotted, hyphenated. fold dn de.
    split; apply writes_parse;
      apply (writes_enhancement _ f dn de); auto; [left|right].
    + rewrite !append_assoc, !toUpperCase_app, Huf.
      rewrite (toUpperCase_digits dn Hdig), (toUpperCase_digits de Hdig2). reflexivity.
    + rewrite !append_assoc, !toUpperCase_app, Huf.
      rewrite (toUpperCase_digits dn Hdig), (toUpperCase_digits de Hdig2). reflexivity.
  - assert (parsedAs (mkIdentifier f (digitsValue dn) None)
            = mkParsed f (parseInt d) None
                (dotted f (parseInt d) None) (hyphenated f (parseInt d) None)
                (hyphenated f (parseInt d) None)) as Hid.
    { unfold parsedAs, parsedOf. cbn [id_family id_number id_enhancement option_map].
      change (roundInt (digitsValue dn)) with (parseInt dn).
      now rewrite Hback. }
    rewrite <- Hid. unfold dotted, hyphenated. fold dn. rewrite !append_Empty_r.
    split; apply writes_parse.
    + apply (writes_number _ f "." dn); auto; [unfold isSeparator; auto|].
      rewrite !toUpperCase_app, Huf, (toUpperCase_digits dn Hdig). reflexivity.
    + apply (writes_number _ f "-" dn); auto; [unfold isSeparator; auto|].
      rewrite !toUpperCase_app, Huf, (toUpperCase_digits dn Hdig). reflexivity.
Qed.

End RoundTrip.

(** ** The order on the identifiers written *)

Section WrittenOrder.

Lemma compareInt_finite (x y : Z) : compareInt (IntFinite x) (IntFinite y) = (x ?= y).
Proof.
  unfold compareInt, ltb.
  destruct (Z.ltb_spec x y) as [H|H]; [symmetry; now apply Z.compare_lt_iff|].
  destruct (Z.ltb_spec y x) as [H'|H']; [symmetry; now apply Z.compare_gt_iff|].
  symmetry. apply Z.compare_eq_iff. lia.
Qed.

(** In the exact range the order on parsed records is the order of the
    specification on the identifiers written. *)
Lemma identifierCompare_exact (a b : string) (ia ib : ControlIdentifier) :
  writes a ia -> writes b ib -> inExactRange ia -> inExactRange ib ->
  identifierCompare (parsedAs ia) (parsedAs ib) = identifierOrder ia ib.
Proof.
  intros Ha Hb Ra Rb.
  rewrite (writes_exact a ia Ha Ra), (writes_exact b ib Hb Rb).
  unfold identifierCompare, identifierOrder, parsedOf. cbn [family number enhancement].
  destruct (String.compare (id_family ia) (id_family ib)); try reflexivity.
  rewrite compareInt_finite.
  destruct (id_number ia ?= id_number ib); try reflexivity.
  destruct (id_enhancement ia), (id_enhancement ib); cbn; try reflexivity.
  apply compareInt_finite.
Qed.

Lemma identifierOrder_eq (ia ib : ControlIdentifier) :
  identifierOrder ia ib = Eq <-> ia = ib.
Proof.
  destruct ia as [fa na ea], ib as [fb nb eb].
  unfold identifierOrder. cbn [id_family id_number id_enhancement]. split.
  - destruct (String.compare fa fb) eqn:Ef; try discriminate.
    apply String.compare_eq_iff in Ef.
    destruct (na ?= nb) eqn:En; try discriminate.
    apply Z.compare_eq_iff in En.
    destruct ea as [u|], eb as [v|]; try discriminate.
    + intros ->%Z.compare_eq_iff. congruence.
    + intros _. congruence.
  - intros [= -> -> ->]. rewrite string_compare_refl, Z.compare_refl.
    destruct eb; [apply Z.compare_refl|reflexivity].
Qed.

Lemma signOf_zero (c : comparison) : signOf c = 0 <-> c = Eq.
Proof. destruct c; cbn; split; congruence. Qed.

End WrittenOrder.

(** ** Claims on the identifier module *)

(** A concrete text and the identifier it writes. *)
Ltac text_writes_number f sep d :=
  refine (writes_number _ f sep d _ _ _ _ _);
  [reflexivity | unfold isSeparator; auto | reflexivity | discriminate | reflexivity].
Ltac text_writes_enhancement f d d2 :=
  refine (writes_enhancement _ f d d2 _ _ _ _ _ _);
  [reflexivity | reflexivity | discriminate | reflexivity | discriminate
  | first [left; reflexivity | right; reflexivity]].

(** C3 (as amended).  A text that writes an identifier by one of the
    grammars parses, to the record of that identifier with its numbers
    rounded to the Number type.  When number and enhancement are at most
    [2^53] nothing is rounded: [normalize] returns the rendering of the
    identifier in either form, and for a text in the dotted or in the
    hyphen/paren form the rendering in that form is the canonical
    rendering of the text itself, its letters in upper case and its
    numbers without leading zeros.  When the parsed number and
    enhancement are below [10^21], both renderings of the record parse
    back to the record.  Every text that parses is such a text, and
    parses to the record of what it writes.
    ["ac-2(1)"], ["AC.2.1"] and their case variants write family AC,
    number 2, enhancement 1; the space-separated form has no enhancement
    part, so ["AC 2 (1)"] is refused. *)
Theorem parse_render_roundtrip (t : string) (id : ControlIdentifier) :
  writes t id ->
  parse t = Ok (parsedAs id) /\
  (inExactRange id ->
   number (parsedAs id) = IntFinite (id_number id) /\
   enhancement (parsedAs id) = option_map IntFinite (id_enhancement id) /\
   normalize t "dot" = Ok (render id Dotted) /\
   normalize t "hyphen" = Ok (render id Hyphenated) /\
   (forall form, formOf t = Some form ->
      normalize t (formatName form) = Ok (canonicalize t))) /\
  (printsDigits (number (parsedAs id)) = true ->
   enhancementPrintsDigits (enhancement (parsedAs id)) = true ->
   parse (internal (parsedAs id)) = Ok (parsedAs id) /\
   parse (mcp (parsedAs id)) = Ok (parsedAs id)) /\
  (forall u p, parse u = Ok p ->
     exists written, writes u written /\ p = parsedAs written) /\
  (forall v, In v ["ac-2(1)"; "AC.2.1"; "AC-2(1)"; "ac.2.1"] ->
     writes v (mkIdentifier "AC" 2 (Some 1)) /\
     exists q, parse v = Ok q /\ family q = "AC" /\
               number q = IntFinite 2 /\ enhancement q = Some (IntFinite 1)) /\
  parse "AC 2 (1)" = Throw (InvalidControlIdFormat "AC 2 (1)").
Proof.
  intros Hw. pose proof (writes_parse t id Hw) as Hp.
  split; [exact Hp|]. split; [|split; [|split; [|split]]].
  - intros Hr. rewrite (writes_exact t id Hw Hr) at 1 2.
    cbn [number enhancement parsedOf].
    destruct (renderings_exact t id Hw Hr) as [Hi Hm].
    split; [reflexivity|]. split; [reflexivity|].
    rewrite !(normalize_parse t _ _ Hp). cbn [String.eqb Ascii.eqb Bool.eqb].
    split; [now rewrite Hi|]. split; [now rewrite Hm|].
    intros form Hform. rewrite <- (writes_canonical t id form Hw Hform).
    rewrite (normalize_parse t _ _ Hp).
    destruct form; cbn [formatName String.eqb Ascii.eqb Bool.eqb]; congruence.
  - now apply parse_renderings_printed with (t := t).
  - intros u p Hu. destruct (parse_writes u p Hu) as [written Hwritten].
    exists written. split; [exact Hwritten|].
    pose proof (writes_parse u written Hwritten) as Hpw. congruence.
  - intros v Hv. cbn in Hv.
    destruct Hv as [<- | [<- | [<- | [<- | []]]]]; split;
      try (eexists; split; [vm_compute; reflexivity | cbn; auto]).
    + text_writes_enhancement "AC" "2" "1".
    + text_writes_enhancement "AC" "2" "1".
    + text_writes_enhancement "AC" "2" "1".
    + text_writes_enhancement "AC" "2" "1".
  - vm_compute. reflexivity.
Qed.

Lemma parse_render_roundtrip_witness :
  normalize "ac-02(001)" "hyphen" = Ok "AC-2(1)" /\
  canonicalize "ac-02(001)" = "AC-2(1)" /\
  parse "AC.2.1" = Ok (parsedOf "AC" (IntFinite 2) (Some (IntFinite 1))) /\
  parse "AC-2(1)" = Ok (parsedOf "AC" (IntFinite 2) (Some (IntFinite 1))).
Proof.
  assert (writes "ac-02(001)" (mkIdentifier "AC" 2 (Some 1))) as Hw
    by (text_writes_enhancement "AC" "02" "001").
  destruct (parse_render_roundtrip "ac-02(001)" (mkIdentifier "AC" 2 (Some 1)) Hw)
    as (_ & Hexact & Hback & _).
  destruct Hexact as (_ & _ & _ & Hh & Hc); [split; cbn; lia|].
  destruct (Hback eq_refl eq_refl) as [Hd Hm].
  split; [exact (Hc Hyphenated eq_refl)|].
  split; [reflexivity|]. split; [exact Hd|exact Hm].
Defined.

(** C3, as stated, fails beyond these two bounds.  The number
    [2^53 + 1] is rounded by [parseInt], so the rendering of
    ["AC-9007199254740993"] in its own form ends in 992; and a number of
    22 digits is printed in exponent form, so neither rendering of
    ["AC-1000000000000000000000"] parses. *)
Lemma parse_render_beyond_exact_range :
  writes "AC-9007199254740993" (mkIdentifier "AC" 9007199254740993 None) /\
  formOf "AC-9007199254740993" = Some Hyphenated /\
  canonicalize "AC-9007199254740993" = "AC-9007199254740993" /\
  normalize "AC-9007199254740993" "hyphen" = Ok "AC-9007199254740992" /\
  parse "AC-1000000000000000000000" =
    Ok (mkParsed "AC" (IntFinite (10 ^ 21)) None "AC.1e+21" "AC-1e+21" "AC-1e+21") /\
  parse "AC.1e+21" = Throw (InvalidControlIdFormat "AC.1e+21") /\
  parse "AC-1e+21" = Throw (InvalidControlIdFormat "AC-1e+21").
Proof.
  split.
  { text_writes_number "AC" "-" "9007199254740993". }
  repeat split; vm_compute; reflexivity.
Qed.

(** C4 (as amended).  On texts that write identifiers,
    [compareControlIds] is the sign of the order by family, then number,
    then enhancement with an absent enhancement first, the numbers being
    compared as the Numbers that [parseInt] returned: it is
    antisymmetric and transitive, it returns 0 exactly when the parsed
    fields are equal, two texts that compare equal compare alike with
    every third one, and an identifier without enhancement is below the
    same family and number with any enhancement, 0 included.  For
    identifiers whose number and enhancement are at most [2^53] this is
    the order of the specification on the integers written, and the
    result is 0 exactly for equal identifiers.  AC-9 < AC-10 < AC-10(1). *)
Theorem compareControlIds_total_order (a b c : string) (ia ib ic : ControlIdentifier) :
  writes a ia -> writes b ib -> writes c ic ->
  compareControlIds a b = Ok (signOf (identifierCompare (parsedAs ia) (parsedAs ib))) /\
  compareControlIds b a = Ok (- signOf (identifierCompare (parsedAs ia) (parsedAs ib))) /\
  (compareControlIds a b = Ok 0 <-> sameIdentifier (parsedAs ia) (parsedAs ib)) /\
  (compareControlIds a b = Ok (-1) -> compareControlIds b c = Ok (-1) ->
   compareControlIds a c = Ok (-1)) /\
  (compareControlIds a b = Ok 0 -> compareControlIds a c = compareControlIds b c) /\
  (id_family ia = id_family ib -> id_number ia = id_number ib ->
   id_enhancement ia = None -> id_enhancement ib <> None ->
   compareControlIds a b = Ok (-1)) /\
  (inExactRange ia -> inExactRange ib ->
   compareControlIds a b = Ok (signOf (identifierOrder ia ib)) /\
   (compareControlIds a b = Ok 0 <-> ia = ib)) /\
  compareControlIds "AC-9" "AC-10" = Ok (-1) /\
  compareControlIds "AC-10" "AC-10(1)" = Ok (-1) /\
  compareControlIds "AC-10" "AC-10(0)" = Ok (-1).
Proof.
  intros Wa Wb Wc.
  pose proof (writes_parse a ia Wa) as Ha.
  pose proof (writes_parse b ib Wb) as Hb.
  pose proof (writes_parse c ic Wc) as Hc.
  rewrite (compareControlIds_spec a b _ _ Ha Hb).
  rewrite (compareControlIds_spec b a _ _ Hb Ha).
  rewrite (compareControlIds_spec b c _ _ Hb Hc).
  rewrite (compareControlIds_spec a c _ _ Ha Hc).
  rewrite (identifierCompare_antisym (parsedAs ia) (parsedAs ib)).
  set (pa := parsedAs ia). set (pb := parsedAs ib). set (pc := parsedAs ic).
  split; [reflexivity|].
  split; [destruct (identifierCompare pa pb); reflexivity|].
  split.
  { rewrite <- identifierCompare_eq.
    destruct (identifierCompare pa pb); cbn; split; congruence. }
  split.
  { intros H1 H2.
    assert (identifierCompare pa pb = Lt) as L1
        by (destruct (identifierCompare pa pb); cbn in H1; congruence).
    assert (identifierCompare pb pc = Lt) as L2
        by (destruct (identifierCompare pb pc); cbn in H2; congruence).
    now rewrite (identifierCompare_trans pa pb pc L1 L2). }
  split.
  { intros H0.
    assert (sameIdentifier pa pb) as (Hf & Hn & He).
    { apply identifierCompare_eq.
      destruct (identifierCompare pa pb); cbn in H0; congruence. }
    unfold identifierCompare. now rewrite Hf, Hn, He. }
  split.
  { intros Hf Hn Hea Heb. unfold identifierCompare, pa, pb, parsedAs, parsedOf.
    cbn [family number enhancement].
    rewrite Hf, string_compare_refl, Hn.
    rewrite (proj2 (compareInt_eq _ _) eq_refl), Hea.
    destruct (id_enhancement ib); [reflexivity|contradiction]. }
  split.
  { intros Ra Rb. unfold pa, pb.
    rewrite (identifierCompare_exact a b ia ib Wa Wb Ra Rb).
    split; [reflexivity|].
    rewrite <- identifierOrder_eq, <- signOf_zero. split; congruence. }
  repeat split; vm_compute; reflexivity.
Qed.

Lemma compareControlIds_total_order_witness :
  compareControlIds "AC-9" "ac.10" = Ok (-1) /\
  compareControlIds "ac.10" "AC-9" = Ok 1.
Proof.
  assert (writes "AC-9" (mkIdentifier "AC" 9 None)) as Wa
    by (text_writes_number "AC" "-" "9").
  assert (writes "ac.10" (mkIdentifier "AC" 10 None)) as Wb
    by (text_writes_number "AC" "." "10").
  assert (writes "AC-10(1)" (mkIdentifier "AC" 10 (Some 1))) as Wc
    by (text_writes_enhancement "AC" "10" "1").
  destruct (compareControlIds_total_order _ _ _ _ _ _ Wa Wb Wc)
    as (_ & H2 & _ & _ & _ & _ & H6 & _).
  destruct H6 as [H6 _]; [split; cbn; lia | split; cbn; lia |].
  split; [exact H6 | exact H2].
Defined.

(** C4, as stated, fails beyond [2^53]: [2^53 + 1] and [2^53] are
    different numbers, and the two texts compare equal. *)
Lemma compareControlIds_beyond_exact_range :
  writes "AC-9007199254740993" (mkIdentifier "AC" 9007199254740993 None) /\
  writes "AC-9007199254740992" (mkIdentifier "AC" 9007199254740992 None) /\
  compareControlIds "AC-9007199254740993" "AC-9007199254740992" = Ok 0.
Proof.
  split; [|split].
  - text_writes_number "AC" "-" "9007199254740993".
  - text_writes_number "AC" "-" "9007199254740992".
  - vm_compute. reflexivity.
Qed.

(** ** The catalog accessor *)

Section CatalogAccessor.
Import OscalService.

Lemma isUpper_not_hyphen (a : ascii) : Char.isUpper a = true -> Ascii.eqb a "-" = false.
Proof.
intros H. destruct (Ascii.eqb_spec a "-") as [->|]; [|reflexivity].
vm_compute in H. discriminate.
Qed.

Lemma beforeFirst_hyphenated (f : string) (n : IntNumber) (e : option IntNumber) :
isFamily f = true -> beforeFirst "-" (hyphenated f n e) = f.
Proof.
intros Hf. destruct f as [|a [|b [|]]]; try discriminate.
cbn in Hf. apply andb_prop in Hf as [Ha Hb].
unfold hyphenated. norm_append.
cbn [beforeFirst].
rewrite (isUpper_not_hyphen a Ha), (isUpper_not_hyphen b Hb).
reflexivity.
Qed.

End CatalogAccessor.

(** C9 (as amended).  [getControl] never consults the catalog: for every
    identifier text that parses it returns a control made up from the
    normalized id (title "Control <id>", a stand-in description, the
    family code of the id), and it fails, with the parser's error, exactly
    when the text does not parse. *)
Theorem getControl_synthesizes (controlId : string) (includeEnhancements : bool) :
  OscalService.getControl controlId includeEnhancements =
  match parse controlId with
  | Ok p =>
      Ok (OscalService.mkControl
            (mcp p)
            ("Control " ++ mcp p)
            ("This is a placeholder for control " ++ mcp p)
            (family p)
            (if includeEnhancements then Some [] else None))
  | Throw e => Throw e
  end.
Proof.
  unfold OscalService.getControl, normalize.
  destruct controlId as [|c s]; [reflexivity|].
  destruct (parse (String c s)) as [p|e] eqn:Hp; [|reflexivity].
  cbn [bind]. cbn [String.eqb Ascii.eqb Bool.eqb]. cbn [bind].
  destruct (parse_inv _ _ Hp) as [Hf Hrec].
  assert (mcp p = hyphenated (family p) (number p) (enhancement p)) as Hm
      by (rewrite Hrec at 1; reflexivity).
  assert (beforeFirst "-" (mcp p) = family p) as ->
      by (rewrite Hm; now apply beforeFirst_hyphenated).
  destruct (family p) as [|a f']; [discriminate|]. reflexivity.
Qed.

(** C9, as stated, fails: the catalog holds no control at all, and
    [getControl] still answers for AC-1. *)
Lemma getControl_absent_from_catalog :
  OscalService.catalog_controls OscalService.loadControlCatalog !! "AC-1" = None /\
  OscalService.getControl "AC-1" false =
    Ok (OscalService.mkControl "AC-1" "Control AC-1"
          "This is a placeholder for control AC-1" "AC" None).
Proof. split; [reflexivity | vm_compute; reflexivity]. Qed.

(** ** The document store *)

Section Store.
Import SspService.

Lemma mapM_Forall2 {A B} (f : A -> result B) (l : list A) (l' : list B) :
mapM f l = Ok l' -> Forall2 (fun a b => f a = Ok b) l l'.
Proof.
revert l'. induction l as [|a l IH]; intros l'; cbn.
- intros [= <-]. constructor.
- destruct (f a) as [b|e] eqn:Hf; cbn; [|discriminate].
  destruct (mapM f l) as [bs|e]; cbn; [|discriminate].
  intros [= <-]. constructor; auto.
Qed.

Lemma mapM_map {A B} (f : A -> result B) (g : A -> B) (l : list A) :
(forall a, In a l -> f a = Ok (g a)) -> mapM f l = Ok (map g l).
Proof.
induction l as [|a l IH]; intros H; cbn; [reflexivity|].
rewrite (H a) by (now left). cbn.
rewrite IH by (intros; apply H; now right). reflexivity.
Qed.

Lemma mapM_planned (baseline ids : list string) :
mapM normalizeControlId baseline = Ok ids ->
mapM plannedImplementation baseline = Ok (zip_with seeded baseline ids).
Proof.
revert ids. induction baseline as [|raw l IH]; intros ids; cbn.
- intros [= <-]. reflexivity.
- unfold plannedImplementation at 1.
  destruct (normalizeControlId raw) as [n|e]; cbn; [|discriminate].
  destruct (mapM normalizeControlId l) as [ns|e]; cbn; [|discriminate].
  intros [= <-]. rewrite (IH ns eq_refl). reflexivity.
Qed.

Lemma mapM_planned_throw (baseline : list string) (e : Error) :
mapM normalizeControlId baseline = Throw e ->
mapM plannedImplementation baseline = Throw e.
Proof.
induction baseline as [|raw l IH]; cbn [mapM]; [discriminate|].
unfold plannedImplementation at 1.
destruct (normalizeControlId raw) as [n|e']; cbn [bind]; [|intros [= <-]; reflexivity].
destruct (mapM normalizeControlId l) as [ns|e'']; cbn [bind]; [discriminate|].
intros [= <-]. now rewrite (IH eq_refl).
Qed.

Lemma includes_validLevels (securityLevel : string) :
includes validLevels securityLevel = true <->
securityLevel = "LOW" \/ securityLevel = "MODERATE" \/ securityLevel = "HIGH".
Proof.
unfold includes, validLevels. cbn [existsb].
rewrite !orb_true_iff, !String.eqb_eq. intuition congruence.
Qed.

Lemma getSSP_lookup (sspId : string) (st : gmap string SSP) :
getSSP sspId st =
(match st !! sspId with Some ssp => Ok ssp | None => Throw (SSPNotFound sspId) end, st).
Proof. unfold getSSP, readFile. now destruct (st !! sspId). Qed.

(** [createSSP], case by case. *)
Lemma createSSP_unfold gbc env title description securityLevel systemId
                     (st : gmap string SSP) :
createSSP gbc env title description securityLevel systemId st =
if includes validLevels securityLevel then
  match gbc securityLevel with
  | Throw e => (Throw e, st)
  | Ok baseline =>
      match mapM normalizeControlId baseline with
      | Throw e => (Throw e, st)
      | Ok ids =>
          let id := match systemId with
                    | Some (String _ _ as given) => given
                    | _ => uuidForId env
                    end in
          let ssp :=
            mkSSP id (uuidForDocument env)
              (mkMetadata title (nowLastModified env) "1.0" "1.1.0")
              (mkCharacteristics title description securityLevel "operational" "fedramp")
              (zip_with seeded baseline ids)
              (nowCreated env) (nowUpdated env) in
          (Ok ssp, <[id := ssp]> st)
      end
  end
else (Throw (InvalidSecurityLevel securityLevel), st).
Proof.
unfold createSSP.
destruct (includes validLevels securityLevel); cbn [negb]; [|reflexivity].
unfold iobind, lift, writeFile, ret.
destruct (gbc securityLevel) as [baseline|e]; [|reflexivity].
destruct (mapM normalizeControlId baseline) as [ids|e] eqn:Hn.
- rewrite (mapM_planned _ _ Hn). reflexivity.
- rewrite (mapM_planned_throw _ _ Hn). reflexivity.
Qed.

(** [addControlImplementation], case by case. *)
Lemma addControlImplementation_unfold env sspId controlId implementationStatus
                                    description responsibleRoles
                                    (st : gmap string SSP) :
addControlImplementation env sspId controlId implementationStatus
                         description responsibleRoles st =
match st !! sspId with
| None => (Throw (SSPNotFound sspId), st)
| Some ssp =>
    match normalizeControlId controlId with
    | Throw e => (Throw e, st)
    | Ok normalizedControlId =>
        if includes validStatuses implementationStatus then
          let implementation :=
            mkImplementation normalizedControlId implementationStatus description
              (default [] responsibleRoles) (Some (nowLastUpdated env)) in
          (Ok implementation,
           <[sspId :=
               mkSSP (SspService.id ssp) (uuid ssp) (metadata ssp)
                 (systemCharacteristics ssp)
                 (upsert normalizedControlId implementation (controlImplementations ssp))
                 (created ssp) (nowDocumentUpdated env)]> st)
        else (Throw (InvalidImplementationStatus implementationStatus), st)
    end
end.
Proof.
unfold addControlImplementation, iobind. rewrite getSSP_lookup.
destruct (st !! sspId) as [ssp|]; [|reflexivity].
unfold lift. destruct (normalizeControlId controlId) as [n|e]; [|reflexivity].
destruct (includes validStatuses implementationStatus); reflexivity.
Qed.

End Store.

(** C5 (as amended).  [createSSP] throws the invalid-level error, and
    writes nothing, whenever the level is not one of LOW, MODERATE, HIGH.
    For a valid level whose baseline resolves and whose entries all parse,
    it stores and returns a document with one record per baseline entry,
    in order: the normalized id, status PLANNED, no responsible roles, no
    [lastUpdated], and the description "Implementation of <entry> is
    planned.".  For the baseline AC-1, AC-2, SI-4 the document has exactly
    three records, all PLANNED. *)
Theorem createSSP_seeds_baseline
    (getBaselineControls : string -> result (list string))
    (env : SspService.CreateEnv) (title description securityLevel : string)
    (systemId : option string) (st : gmap string SspService.SSP) :
  (~ (securityLevel = "LOW" \/ securityLevel = "MODERATE" \/ securityLevel = "HIGH") ->
   SspService.createSSP getBaselineControls env title description securityLevel systemId st
   = (Throw (InvalidSecurityLevel securityLevel), st)) /\
  (forall baseline ids,
     securityLevel = "LOW" \/ securityLevel = "MODERATE" \/ securityLevel = "HIGH" ->
     getBaselineControls securityLevel = Ok baseline ->
     mapM SspService.normalizeControlId baseline = Ok ids ->
     exists ssp,
       SspService.createSSP getBaselineControls env title description securityLevel systemId st
       = (Ok ssp, <[SspService.id ssp := ssp]> st) /\
       SspService.controlImplementations ssp = zip_with seeded baseline ids /\
       length (SspService.controlImplementations ssp) = length baseline /\
       Forall (fun r => SspService.status r = "PLANNED" /\
                        SspService.responsibleRoles r = [] /\
                        SspService.lastUpdated r = None)
              (SspService.controlImplementations ssp)) /\
  (securityLevel = "LOW" \/ securityLevel = "MODERATE" \/ securityLevel = "HIGH" ->
   getBaselineControls securityLevel = Ok ["AC-1"; "AC-2"; "SI-4"] ->
   exists ssp st',
     SspService.createSSP getBaselineControls env title description securityLevel systemId st
     = (Ok ssp, st') /\
     storedIds ssp = ["AC-1"; "AC-2"; "SI-4"] /\
     map SspService.status (SspService.controlImplementations ssp)
     = ["PLANNED"; "PLANNED"; "PLANNED"]).
Proof.
  split; [|split].
  - intros Hbad. rewrite createSSP_unfold.
    destruct (includes SspService.validLevels securityLevel) eqn:Hin; [|reflexivity].
    apply includes_validLevels in Hin. contradiction.
  - intros baseline ids Hok%includes_validLevels Hb Hn.
    rewrite createSSP_unfold, Hok, Hb, Hn. cbv zeta.
    match goal with |- context [Ok ?x] => exists x end. split; [reflexivity|]. cbn [SspService.controlImplementations].
    split; [reflexivity|].
    apply mapM_Forall2 in Hn.
    split.
    + rewrite length_zip_with. apply Forall2_length in Hn. lia.
    + clear Hb. induction Hn as [|raw n l ns _ _ IH]; cbn; constructor; auto.
  - intros Hok%includes_validLevels Hb. rewrite createSSP_unfold, Hok, Hb.
    replace (mapM SspService.normalizeControlId ["AC-1"; "AC-2"; "SI-4"])
      with (@Ok (list string) ["AC-1"; "AC-2"; "SI-4"]) by (vm_compute; reflexivity).
    eexists. eexists. split; [reflexivity|]. split; reflexivity.
Qed.

Lemma createSSP_seeds_baseline_witness :
  exists ssp st',
    SspService.createSSP (fun _ => Ok ["AC-1"; "AC-2"; "SI-4"])
      (SspService.mkCreateEnv "uuid-1" "uuid-2" "t1" "t2" "t3")
      "Title" "Description" "MODERATE" None ∅
    = (Ok ssp, st') /\
    storedIds ssp = ["AC-1"; "AC-2"; "SI-4"] /\
    map SspService.status (SspService.controlImplementations ssp)
    = ["PLANNED"; "PLANNED"; "PLANNED"].
Proof.
  exact (proj2 (proj2 (createSSP_seeds_baseline (fun _ => Ok ["AC-1"; "AC-2"; "SI-4"])
           (SspService.mkCreateEnv "uuid-1" "uuid-2" "t1" "t2" "t3")
           "Title" "Description" "MODERATE" None ∅))
         (or_intror (or_introl eq_refl)) eq_refl).
Defined.

(** C5, as stated, fails on the description default: the record seeded
    for AC-1 carries a description that is not empty. *)
Lemma createSSP_description_not_empty :
  exists ssp st',
    SspService.createSSP OscalService.Placeholder.getBaselineControls
      (SspService.mkCreateEnv "uuid-1" "uuid-2" "t1" "t2" "t3")
      "Title" "Description" "LOW" None ∅
    = (Ok ssp, st') /\
    head (map SspService.description (SspService.controlImplementations ssp))
    = Some (Some "Implementation of AC-1 is planned.").
Proof. eexists. eexists. split; vm_compute; reflexivity. Qed.

(** C10.  When the control id does not parse, or the status is not a
    recognised one, [addControlImplementation] throws and leaves the
    directory as it was; and whatever it throws, the directory is as it
    was: no record is inserted or replaced and no file is rewritten. *)
Theorem addControlImplementation_error_atomic
    (env : SspService.UpdateEnv) (sspId controlId implementationStatus : string)
    (description : option string) (responsibleRoles : option (list string))
    (st : gmap string SspService.SSP) :
  ((exists e, parse controlId = Throw e) \/
   includes SspService.validStatuses implementationStatus = false ->
   exists e,
     SspService.addControlImplementation env sspId controlId implementationStatus
       description responsibleRoles st = (Throw e, st)) /\
  (forall e st',
     SspService.addControlImplementation env sspId controlId implementationStatus
       description responsibleRoles st = (Throw e, st') -> st' = st).
Proof.
  rewrite addControlImplementation_unfold.
  split.
  - intros Hbad. destruct (st !! sspId) as [ssp|]; [|eauto].
    destruct (SspService.normalizeControlId controlId) as [n|e] eqn:Hn; [|eauto].
    destruct Hbad as [[e He] | Hs].
    + unfold SspService.normalizeControlId, normalize in Hn.
      destruct controlId; [discriminate|]. rewrite He in Hn. discriminate.
    + rewrite Hs. eauto.
  - intros e st'. destruct (st !! sspId) as [ssp|]; [|now intros [= _ <-]].
    destruct (SspService.normalizeControlId controlId) as [n|e']; [|now intros [= _ <-]].
    destruct (includes SspService.validStatuses implementationStatus);
      [discriminate | now intros [= _ <-]].
Qed.

Lemma addControlImplementation_error_atomic_witness :
  let doc := SspService.mkSSP "doc" "uuid"
               (SspService.mkMetadata "T" "t0" "1.0" "1.1.0")
               (SspService.mkCharacteristics "T" "D" "LOW" "operational" "fedramp")
               [seeded "AC-1" "AC-1"] "t0" "t0" in
  exists e,
    SspService.addControlImplementation (SspService.mkUpdateEnv "t1" "t2")
      "doc" "AC-1" "DONE" None None {[ "doc" := doc ]}
    = (Throw e, {[ "doc" := doc ]}).
Proof.
  intros doc.
  exact (proj1 (addControlImplementation_error_atomic (SspService.mkUpdateEnv "t1" "t2")
           "doc" "AC-1" "DONE" None None {[ "doc" := doc ]})
         (or_intror eq_refl)).
Defined.

(** ** Upsert of a record *)

Section Upsert.
Import SspService.

Lemma findIndex_Some {A} (p : A -> bool) (l : list A) (i : nat) :
findIndex p l = Some i ->
exists x, l !! i = Some x /\ p x = true /\
          forall j y, (j < i)%nat -> l !! j = Some y -> p y = false.
Proof.
revert i. induction l as [|a l IH]; intros i; cbn; [discriminate|].
destruct (p a) eqn:Hp.
- intros [= <-]. exists a. repeat split; auto. intros j y Hj. lia.
- destruct (findIndex p l) as [k|]; [|discriminate].
  intros [= <-]. destruct (IH k eq_refl) as (x & Hx & Hpx & Hbefore).
  exists x. repeat split; auto.
  intros [|j] y Hj; cbn; [now intros [= <-]|].
  apply Hbefore. lia.
Qed.

Lemma findIndex_None {A} (p : A -> bool) (l : list A) :
findIndex p l = None -> Forall (fun x => p x = false) l.
Proof.
induction l as [|a l IH]; cbn; [constructor|].
destruct (p a) eqn:Hp; [discriminate|].
destruct (findIndex p l); [discriminate|]. intros _. constructor; auto.
Qed.

Lemma findIndex_insert {A} (p : A -> bool) (l : list A) (i : nat) (x : A) :
findIndex p l = Some i -> p x = true -> findIndex p (<[i := x]> l) = Some i.
Proof.
revert i. induction l as [|a l IH]; intros i; cbn; [discriminate|].
destruct (p a) eqn:Hp.
- intros [= <-] Hx. cbn. now rewrite Hx.
- destruct (findIndex p l) as [k|] eqn:Hk; [|discriminate].
  intros [= <-] Hx. simpl. rewrite Hp, (IH k eq_refl Hx). reflexivity.
Qed.

Lemma findIndex_push {A} (p : A -> bool) (l : list A) (x : A) :
findIndex p l = None -> p x = true -> findIndex p (l ++ [x])%list = Some (length l).
Proof.
induction l as [|a l IH]; cbn.
- intros _ ->. reflexivity.
- destruct (p a); [discriminate|].
  destruct (findIndex p l); [discriminate|].
  intros _ Hx. now rewrite (IH eq_refl Hx).
Qed.

Variable n : string.
Variables r r' : ControlImplementation.
Hypothesis Hr : controlId r = n.
Hypothesis Hr' : controlId r' = n.

Let hasId (impl : ControlImplementation) : bool := String.eqb (controlId impl) n.

Lemma hasId_new : hasId r = true /\ hasId r' = true.
Proof. unfold hasId. rewrite Hr, Hr'. split; apply String.eqb_refl. Qed.

(** A second upsert of the same id lands on the record of the first. *)
Lemma upsert_upsert (l : list ControlImplementation) :
exists i, upsert n r l !! i = Some r /\ upsert n r' (upsert n r l) = <[i := r']> (upsert n r l).
Proof.
destruct hasId_new as [H1 H2].
unfold upsert at 1 3 4. fold hasId.
destruct (findIndex hasId l) as [i|] eqn:Hi.
- exists i. destruct (findIndex_Some _ _ _ Hi) as (x & Hx & _).
  split.
  + apply list_lookup_insert_eq. now apply lookup_lt_Some in Hx.
  + unfold upsert. fold hasId. now rewrite (findIndex_insert _ _ _ _ Hi H1).
- exists (length l). split.
  + rewrite lookup_app_r by lia. now rewrite Nat.sub_diag.
  + unfold upsert. fold hasId. now rewrite (findIndex_push _ _ _ Hi H1).
Qed.

Lemma upsert_length_idem (l : list ControlImplementation) :
length (upsert n r' (upsert n r l)) = length (upsert n r l).
Proof.
destruct (upsert_upsert l) as (i & _ & ->). apply length_insert.
Qed.

Lemma upsert_idem_map {B} (f : ControlImplementation -> B) (l : list ControlImplementation) :
f r' = f r -> map f (upsert n r' (upsert n r l)) = map f (upsert n r l).
Proof.
intros Hf. destruct (upsert_upsert l) as (i & Hi & ->).
change (map f) with (fmap (M := list) f).
rewrite list_fmap_insert, Hf.
apply list_insert_id. now rewrite list_lookup_fmap, Hi.
Qed.

(** The ids stored after an upsert. *)
Lemma upsert_ids (l : list ControlImplementation) :
map controlId (upsert n r l) =
if includes (map controlId l) n then map controlId l else (map controlId l ++ [n])%list.
Proof.
unfold upsert. fold hasId.
destruct (findIndex hasId l) as [i|] eqn:Hi.
- destruct (findIndex_Some _ _ _ Hi) as (x & Hx & Hpx & _).
  apply String.eqb_eq in Hpx.
  replace (includes (map controlId l) n) with true.
  + change (map controlId) with (fmap (M := list) controlId).
    rewrite list_fmap_insert, Hr. apply list_insert_id.
    now rewrite list_lookup_fmap, Hx, <- Hpx.
  + symmetry. unfold includes. apply existsb_exists. exists n.
    split; [|apply String.eqb_refl].
    apply in_map_iff. exists x. split; [assumption|].
    apply list_elem_of_In. eapply list_elem_of_lookup_2. eassumption.
- apply findIndex_None in Hi.
  replace (includes (map controlId l) n) with false.
  + rewrite map_app. cbn. now rewrite Hr.
  + symmetry. unfold includes. apply not_true_is_false.
    intros (s & Hin & Heq)%existsb_exists.
    apply String.eqb_eq in Heq. subst s.
    apply in_map_iff in Hin as (x & Hx & Hin).
    apply list_elem_of_In in Hin.
    rewrite Forall_forall in Hi. specialize (Hi x Hin).
    unfold hasId in Hi. rewrite Hx, String.eqb_refl in Hi. discriminate.
Qed.

Lemma includes_In (l : list string) (s : string) : includes l s = true <-> In s l.
Proof.
unfold includes. rewrite existsb_exists. split.
- intros (x & Hx & ->%String.eqb_eq). assumption.
- intros H. exists s. split; [assumption | apply String.eqb_refl].
Qed.

Lemma upsert_NoDup (l : list ControlImplementation) :
List.NoDup (map controlId l) -> List.NoDup (map controlId (upsert n r l)).
Proof.
intros Hnd. rewrite upsert_ids.
destruct (includes (map controlId l) n) eqn:Hin; [assumption|].
apply NoDup_ListNoDup. apply NoDup_app. repeat split.
- now apply NoDup_ListNoDup.
- intros x Hx [->|[]%elem_of_nil]%elem_of_cons.
  apply list_elem_of_In, includes_In in Hx. congruence.
- apply NoDup_singleton.
Qed.

(** Last write wins: the first record with the id is the new one. *)
Lemma upsert_find (l : list ControlImplementation) :
List.find hasId (upsert n r l) = Some r.
Proof.
assert (hasId r = true) as H1 by (unfold hasId; rewrite Hr; apply String.eqb_refl).
unfold upsert. fold hasId.
destruct (findIndex hasId l) as [i|] eqn:Hi.
- revert i Hi. induction l as [|a l IH]; intros i; cbn; [discriminate|].
  destruct (hasId a) eqn:Ha.
  + intros [= <-]. cbn. now rewrite H1.
  + destruct (findIndex hasId l) as [k|]; [|discriminate].
    intros [= <-]. cbn. rewrite Ha. now apply IH.
- induction l as [|a l IH]; cbn in *; [now rewrite H1|].
  destruct (hasId a); [discriminate|].
  destruct (findIndex hasId l); [discriminate|]. now apply IH.
Qed.

End Upsert.

Section NormalizedIds.

Lemma normalizeControlId_parse (raw : string) (p : ParsedControl) :
parse raw = Ok p -> SspService.normalizeControlId raw = Ok (mcp p).
Proof.
intros Hp. unfold SspService.normalizeControlId, normalize.
destruct raw; [discriminate|]. now rewrite Hp.
Qed.

Lemma normalizeControlId_inv (raw n : string) :
SspService.normalizeControlId raw = Ok n -> exists p, parse raw = Ok p /\ mcp p = n.
Proof.
unfold SspService.normalizeControlId, normalize.
destruct raw as [|c s]; [discriminate|].
destruct (parse (String c s)) as [p|e]; [|discriminate].
cbn. intros [= <-]. eauto.
Qed.

Lemma mcp_hyphenated (raw : string) (p : ParsedControl) :
parse raw = Ok p -> mcp p = hyphenated (family p) (number p) (enhancement p).
Proof. intros Hp. destruct (parse_inv _ _ Hp) as [_ Hrec]. now rewrite Hrec at 1. Qed.

(** Texts with the same identifier have the same normalized id. *)
Lemma sameIdentifier_mcp (raw1 raw2 : string) (p1 p2 : ParsedControl) :
parse raw1 = Ok p1 -> parse raw2 = Ok p2 -> sameIdentifier p1 p2 -> mcp p1 = mcp p2.
Proof.
intros H1 H2 (Hf & Hn & He).
rewrite (mcp_hyphenated _ _ H1), (mcp_hyphenated _ _ H2). congruence.
Qed.

End NormalizedIds.

(** C8.  A second [addControlImplementation] with the arguments of a
    successful first one succeeds as well, touches no other document and
    leaves the records of the document as the first call left them, up to
    the [lastUpdated] stamp: same number of records, same records once
    [lastUpdated] is erased; and the rest of the document is the same
    except for [updated]. *)
Theorem addControlImplementation_idempotent
    (env1 env2 : SspService.UpdateEnv) (sspId controlId implementationStatus : string)
    (description : option string) (responsibleRoles : option (list string))
    (st st1 : gmap string SspService.SSP) (impl1 : SspService.ControlImplementation) :
  SspService.addControlImplementation env1 sspId controlId implementationStatus
    description responsibleRoles st = (Ok impl1, st1) ->
  exists impl2 st2 doc1 doc2,
    SspService.addControlImplementation env2 sspId controlId implementationStatus
      description responsibleRoles st1 = (Ok impl2, st2) /\
    st1 !! sspId = Some doc1 /\ st2 !! sspId = Some doc2 /\
    (forall other, other <> sspId -> st2 !! other = st1 !! other) /\
    length (SspService.controlImplementations doc2)
    = length (SspService.controlImplementations doc1) /\
    map withoutLastUpdated (SspService.controlImplementations doc2)
    = map withoutLastUpdated (SspService.controlImplementations doc1) /\
    withoutLastUpdated impl2 = withoutLastUpdated impl1 /\
    (SspService.id doc2, SspService.uuid doc2, SspService.metadata doc2,
     SspService.systemCharacteristics doc2, SspService.created doc2)
    = (SspService.id doc1, SspService.uuid doc1, SspService.metadata doc1,
       SspService.systemCharacteristics doc1, SspService.created doc1).
Proof.
  rewrite addControlImplementation_unfold.
  destruct (st !! sspId) as [ssp|] eqn:Hdoc; [|discriminate].
  destruct (SspService.normalizeControlId controlId) as [n|e] eqn:Hn; [|discriminate].
  destruct (includes SspService.validStatuses implementationStatus) eqn:Hs; [|discriminate].
  cbv zeta. intros [= <- <-].
  rewrite addControlImplementation_unfold, lookup_insert_eq, Hn, Hs. cbv zeta.
  do 4 eexists.
  split; [reflexivity|].
  split; [reflexivity|].
  split; [apply lookup_insert_eq|].
  split; [intros other Hne; now rewrite lookup_insert_ne by congruence|].
  cbn [SspService.controlImplementations SspService.id SspService.uuid
       SspService.metadata SspService.systemCharacteristics SspService.created].
  split; [now apply upsert_length_idem|].
  split; [now apply upsert_idem_map|].
  split; reflexivity.
Qed.

Lemma addControlImplementation_idempotent_witness :
  let doc := SspService.mkSSP "doc" "uuid"
               (SspService.mkMetadata "T" "t0" "1.0" "1.1.0")
               (SspService.mkCharacteristics "T" "D" "LOW" "operational" "fedramp")
               [seeded "AC-1" "AC-1"; seeded "AC-2" "AC-2"] "t0" "t0" in
  let first := SspService.addControlImplementation (SspService.mkUpdateEnv "t1" "t2")
                 "doc" "ac.2" "IMPLEMENTED" (Some "done") None {[ "doc" := doc ]} in
  exists impl2 st2 doc1 doc2,
    SspService.addControlImplementation (SspService.mkUpdateEnv "t3" "t4")
      "doc" "ac.2" "IMPLEMENTED" (Some "done") None (snd first) = (Ok impl2, st2) /\
    snd first !! "doc" = Some doc1 /\
    st2 !! "doc" = Some doc2 /\
    length (SspService.controlImplementations doc2)
    = length (SspService.controlImplementations doc1).
Proof.
  intros doc first.
  assert (fst first = Ok (SspService.mkImplementation "AC-2" "IMPLEMENTED" (Some "done")
                            [] (Some "t1"))) as Hfst by (vm_compute; reflexivity).
  destruct (addControlImplementation_idempotent
              (SspService.mkUpdateEnv "t1" "t2") (SspService.mkUpdateEnv "t3" "t4")
              "doc" "ac.2" "IMPLEMENTED" (Some "done") None {[ "doc" := doc ]}
              (snd first) _
              (eq_trans (surjective_pairing first)
                        (f_equal (fun x => (x, snd first)) Hfst)))
    as (impl2 & st2 & doc1 & doc2 & H1 & H2 & H3 & _ & H5 & _).
  exists impl2, st2, doc1, doc2.
  repeat split; assumption.
Defined.

Section DistinctIdentifiers.

(** Pairwise distinct normalized ids are ids of pairwise distinct
    identifiers. *)
Lemma distinctNormalizedIds_one_record (ssp : SspService.SSP) :
  distinctNormalizedIds ssp -> oneRecordPerIdentifier ssp.
Proof.
  intros [Hnorm Hnd] i j ri rj pi pj Hi Hj Hpi Hpj Hsame.
  assert (storedIds ssp !! i = Some (SspService.controlId ri)) as Si
    by (unfold storedIds; change map with (@fmap list _); now rewrite list_lookup_fmap, Hi).
  assert (storedIds ssp !! j = Some (SspService.controlId rj)) as Sj
    by (unfold storedIds; change map with (@fmap list _); now rewrite list_lookup_fmap, Hj).
  rewrite Forall_lookup in Hnorm.
  destruct (Hnorm _ _ Si) as (qi & Hqi & Hmi).
  destruct (Hnorm _ _ Sj) as (qj & Hqj & Hmj).
  assert (qi = pi) as -> by congruence. assert (qj = pj) as -> by congruence.
  pose proof (sameIdentifier_mcp _ _ _ _ Hpi Hpj Hsame) as Hm.
  apply NoDup_ListNoDup in Hnd.
  apply (NoDup_lookup _ i j (SspService.controlId ri) Hnd Si). congruence.
Qed.

(** The id of a record whose numbers print as digits is normalized. *)
Lemma isNormalizedId_mcp (raw : string) (p : ParsedControl) :
  parse raw = Ok p ->
  printsDigits (number p) = true ->
  enhancementPrintsDigits (enhancement p) = true ->
  isNormalizedId (mcp p).
Proof.
  intros Hp Hn He. exists p. split; [|reflexivity].
  now apply (parse_renderings_printed raw p Hp Hn He).
Qed.

End DistinctIdentifiers.

(** C6 (as amended).  The invariant of the records of a document is
    that their ids are normalized and pairwise distinct; it says that no
    two records carry ids of the same identifier.
    [addControlImplementation] with an id whose number and enhancement
    are below [10^21] keeps it, and the record found under the
    normalized id afterwards is the one just written (last write wins).
    Whatever the stored ids are, the call keeps them pairwise distinct
    as texts, and two texts of the same identifier update the same
    record: the call is the same for both.  [createSSP] stores one
    record per baseline entry, so the ids of the new document are the
    normalized baseline entries, in order and with their repetitions. *)
Theorem one_record_per_normalized_id
    (getBaselineControls : string -> result (list string))
    (cenv : SspService.CreateEnv) (env : SspService.UpdateEnv)
    (sspId controlId implementationStatus : string)
    (description : option string) (responsibleRoles : option (list string))
    (st : gmap string SspService.SSP) :
  (forall doc impl st' p,
     st !! sspId = Some doc ->
     distinctNormalizedIds doc ->
     parse controlId = Ok p ->
     printsDigits (number p) = true ->
     enhancementPrintsDigits (enhancement p) = true ->
     SspService.addControlImplementation env sspId controlId implementationStatus
       description responsibleRoles st = (Ok impl, st') ->
     exists doc',
       st' !! sspId = Some doc' /\
       distinctNormalizedIds doc' /\
       oneRecordPerIdentifier doc' /\
       SspService.controlId impl = mcp p /\
       List.find (fun r => String.eqb (SspService.controlId r) (mcp p))
                 (SspService.controlImplementations doc') = Some impl) /\
  (forall doc, distinctNormalizedIds doc -> oneRecordPerIdentifier doc) /\
  (forall doc impl st',
     st !! sspId = Some doc ->
     List.NoDup (storedIds doc) ->
     SspService.addControlImplementation env sspId controlId implementationStatus
       description responsibleRoles st = (Ok impl, st') ->
     exists doc',
       st' !! sspId = Some doc' /\
       List.NoDup (storedIds doc') /\
       SspService.normalizeControlId controlId = Ok (SspService.controlId impl) /\
       List.find (fun r => String.eqb (SspService.controlId r) (SspService.controlId impl))
                 (SspService.controlImplementations doc') = Some impl) /\
  (forall other p q,
     parse controlId = Ok p -> parse other = Ok q -> sameIdentifier p q ->
     SspService.addControlImplementation env sspId other implementationStatus
       description responsibleRoles st
     = SspService.addControlImplementation env sspId controlId implementationStatus
         description responsibleRoles st) /\
  (forall title systemDescription securityLevel systemId ssp st',
     SspService.createSSP getBaselineControls cenv title systemDescription
       securityLevel systemId st = (Ok ssp, st') ->
     exists baseline,
       getBaselineControls securityLevel = Ok baseline /\
       mapM SspService.normalizeControlId baseline = Ok (storedIds ssp)).
Proof.
  split; [|split; [|split; [|split]]].
  - intros doc impl st' p Hdoc [Hnorm Hnd] Hp Hpn Hpe.
    rewrite addControlImplementation_unfold, Hdoc.
    rewrite (normalizeControlId_parse _ _ Hp).
    destruct (includes SspService.validStatuses implementationStatus); [|discriminate].
    cbv zeta. intros [= <- <-].
    eexists. split; [apply lookup_insert_eq|].
    match goal with
    | |- distinctNormalizedIds ?d /\ _ => assert (distinctNormalizedIds d) as Hinv
    end.
    { split; unfold storedIds; cbn [SspService.controlImplementations].
      - rewrite upsert_ids by reflexivity.
        destruct (includes _ (mcp p)); [exact Hnorm|].
        apply Forall_app. split; [exact Hnorm|].
        constructor; [|constructor]. now apply (isNormalizedId_mcp controlId).
      - now apply upsert_NoDup. }
    split; [exact Hinv|].
    split; [now apply distinctNormalizedIds_one_record|].
    cbn [SspService.controlImplementations SspService.controlId].
    split; [reflexivity|]. now apply upsert_find.
  - apply distinctNormalizedIds_one_record.
  - intros doc impl st' Hdoc Hnd.
    rewrite addControlImplementation_unfold, Hdoc.
    destruct (SspService.normalizeControlId controlId) as [n|e] eqn:Hn; [|discriminate].
    destruct (includes SspService.validStatuses implementationStatus); [|discriminate].
    cbv zeta. intros [= <- <-].
    eexists. split; [apply lookup_insert_eq|].
    unfold storedIds. cbn [SspService.controlImplementations SspService.controlId].
    split; [now apply upsert_NoDup|].
    split; [reflexivity|].
    now apply upsert_find.
  - intros other p q Hp Hq Hsame.
    rewrite !addControlImplementation_unfold.
    rewrite (normalizeControlId_parse _ _ Hp), (normalizeControlId_parse _ _ Hq).
    now rewrite (sameIdentifier_mcp _ _ _ _ Hp Hq Hsame).
  - intros title systemDescription securityLevel systemId ssp st'.
    rewrite createSSP_unfold.
    destruct (includes SspService.validLevels securityLevel); [|discriminate].
    destruct (getBaselineControls securityLevel) as [baseline|e]; [|discriminate].
    destruct (mapM SspService.normalizeControlId baseline) as [ids|e] eqn:Hn; [|discriminate].
    cbv zeta. intros [= <- _].
    exists baseline. split; [reflexivity|].
    unfold storedIds. cbn [SspService.controlImplementations].
    rewrite Hn. f_equal.
    apply mapM_Forall2 in Hn. clear -Hn.
    induction Hn as [|raw n l ns _ _ IH]; cbn; [reflexivity|]. now rewrite <- IH.
Qed.

Lemma one_record_per_normalized_id_witness :
  let doc := SspService.mkSSP "doc" "uuid"
               (SspService.mkMetadata "T" "t0" "1.0" "1.1.0")
               (SspService.mkCharacteristics "T" "D" "LOW" "operational" "fedramp")
               [seeded "AC-1" "AC-1"; seeded "AC-2" "AC-2"] "t0" "t0" in
  let call := SspService.addControlImplementation (SspService.mkUpdateEnv "t1" "t2")
                "doc" "ac.02" "IMPLEMENTED" (Some "done") None {[ "doc" := doc ]} in
  exists doc',
    snd call !! "doc" = Some doc' /\
    storedIds doc' = ["AC-1"; "AC-2"] /\
    oneRecordPerIdentifier doc'.
Proof.
  intros doc call.
  assert (distinctNormalizedIds doc) as Hinv.
  { split.
    - repeat constructor; (eexists; split; [vm_compute; reflexivity|reflexivity]).
    - repeat constructor; cbn; intuition discriminate. }
  assert (fst call = Ok (SspService.mkImplementation "AC-2" "IMPLEMENTED" (Some "done") []
                           (Some "t1"))) as Hfst by (vm_compute; reflexivity).
  destruct (proj1 (one_record_per_normalized_id (fun _ => Ok [])
                     (SspService.mkCreateEnv "u1" "u2" "t1" "t2" "t3")
                     (SspService.mkUpdateEnv "t1" "t2")
                     "doc" "ac.02" "IMPLEMENTED" (Some "done") None {[ "doc" := doc ]})
             doc _ (snd call) (parsedOf "AC" (IntFinite 2) None)
             (lookup_singleton_eq _ _) Hinv ltac:(vm_compute; reflexivity)
             eq_refl eq_refl
             (eq_trans (surjective_pairing call) (f_equal (fun x => (x, snd call)) Hfst)))
    as (doc' & Hdoc' & _ & Hone & _).
  exists doc'. split; [exact Hdoc'|]. split; [|exact Hone].
  assert (snd call !! "doc"
          = Some (SspService.mkSSP "doc" "uuid"
                    (SspService.mkMetadata "T" "t0" "1.0" "1.1.0")
                    (SspService.mkCharacteristics "T" "D" "LOW" "operational" "fedramp")
                    [seeded "AC-1" "AC-1";
                     SspService.mkImplementation "AC-2" "IMPLEMENTED" (Some "done") []
                       (Some "t1")] "t0" "t2")) as Hcall
    by (vm_compute; reflexivity).
  rewrite Hcall in Hdoc'. injection Hdoc' as <-. reflexivity.
Defined.

(** From [10^21] on the id that is stored is not the text of an
    identifier: it is the exponent form of the Number, which does not
    parse. *)
Example addControlImplementation_exponent_form :
  let doc := SspService.mkSSP "doc" "uuid"
               (SspService.mkMetadata "T" "t0" "1.0" "1.1.0")
               (SspService.mkCharacteristics "T" "D" "LOW" "operational" "fedramp")
               [] "t0" "t0" in
  let call := SspService.addControlImplementation (SspService.mkUpdateEnv "t1" "t2")
                "doc" "AC-1000000000000000000000" "PLANNED" None None {[ "doc" := doc ]} in
  (storedIds <$> snd call !! "doc") = Some ["AC-1e+21"] /\
  parse "AC-1e+21" = Throw (InvalidControlIdFormat "AC-1e+21").
Proof. split; vm_compute; reflexivity. Qed.

(** C6, as stated, fails for [createSSP]: a baseline that lists AC-1 in
    two spellings seeds two records with the id AC-1. *)
Lemma createSSP_repeats_identifier :
  exists ssp st',
    SspService.createSSP (fun _ => Ok ["AC-1"; "ac.1"])
      (SspService.mkCreateEnv "uuid-1" "uuid-2" "t1" "t2" "t3")
      "Title" "Description" "LOW" None ∅
    = (Ok ssp, st') /\
    storedIds ssp = ["AC-1"; "AC-1"].
Proof. eexists. eexists. split; vm_compute; reflexivity. Qed.

(** ** The baseline resolver *)

Section Resolver.
Import OscalService.Profiles.





(** A load either throws a not-found error or leaves a non-empty set
  built from the [.json] files of the directory. *)
Lemma loadBaselineProfiles_cases (fs : FileSystem) (st : State) (profileType : string) :
let path := if String.eqb profileType "fedramp" then FEDRAMP_PATH else BASELINES_PATH in
match loadBaselineProfiles fs st profileType with
| (Throw e, st1) =>
    isProfileNotFound e /\
    fedrampProfiles st1 = fedrampProfiles st /\
    baselineProfiles st1 = baselineProfiles st
| (Ok found, st1) =>
    found <> ∅ /\
    (if String.eqb profileType "fedramp" then fedrampProfiles st1 else baselineProfiles st1)
    = found /\
    exists files, readdir fs path = Some files /\
      found = mapFiles profileType path
                (filter (fun file => Is_true (endsWith ".json" file)) files) ∅
end.
Proof.
unfold loadBaselineProfiles.
destruct (readdir fs _) as [files|] eqn:Hdir; [|now repeat split].
destruct (filter _ files) as [|f fl] eqn:Hjson; [now repeat split|].
rewrite <- Hjson.
case_bool_decide as Hempty; [now repeat split|].
split; [assumption|]. split.
- now destruct (String.eqb profileType "fedramp").
- exists files. split; reflexivity.
Qed.

End Resolver.




(** ** The validator *)

Section Validator.
Import SspService.

Variable getBaselineControls : string -> result (list string).

(** [validateSSP], case by case. *)
Lemma validateSSP_unfold (sspId : string) (st : gmap string SSP) :
validateSSP getBaselineControls sspId st =
match st !! sspId with
| None => (Throw (SSPNotFound sspId), st)
| Some ssp =>
    match getBaselineControls (securityImpactLevel (systemCharacteristics ssp)) with
    | Throw e => (Throw e, st)
    | Ok baselineControls =>
        match mapM normalizeControlId baselineControls with
        | Throw e => (Throw e, st)
        | Ok normalized =>
            let missing :=
              List.filter (fun c => negb (includes (storedIds ssp) c)) normalized in
            let counts := countStatuses (controlImplementations ssp) in
            let total := length (controlImplementations ssp) in
            (Ok (mkReport
                   (length missing =? 0)%nat missing counts
                   (if (total =? 0)%nat then ofZ 0
                    else parseFloat2 (toFixed2
                           (rawPercentage (default O (counts !! "IMPLEMENTED"))
                                          (default O (counts !! "PARTIALLY_IMPLEMENTED"))
                                          total)))
                   total), st)
        end
    end
end.
Proof.
unfold validateSSP, iobind. rewrite getSSP_lookup.
destruct (st !! sspId) as [ssp|]; [|reflexivity].
unfold lift.
destruct (getBaselineControls _) as [bl|e]; [|reflexivity].
destruct (mapM normalizeControlId bl) as [nb|e]; reflexivity.
Qed.

End Validator.

Section MissingControls.

Lemma mapM_normalize_In (baseline normalized : list string) (raw : string) (p : ParsedControl) :
mapM SspService.normalizeControlId baseline = Ok normalized ->
In raw baseline -> parse raw = Ok p -> In (mcp p) normalized.
Proof.
intros Hn%mapM_Forall2 Hin Hp.
induction Hn as [|r n l ns Hr _ IH]; [contradiction|].
destruct Hin as [->|Hin]; [|right; auto].
left. rewrite (normalizeControlId_parse _ _ Hp) in Hr. congruence.
Qed.

Lemma filter_not_includes (stored normalized : list string) (c : string) :
In c (List.filter (fun c => negb (includes stored c)) normalized) <->
In c normalized /\ ~ In c stored.
Proof.
rewrite filter_In, negb_true_iff. split; intros [H1 H2]; (split; [assumption|]).
- intros Hin%includes_In. congruence.
- destruct (includes stored c) eqn:E; [|reflexivity].
  apply includes_In in E. contradiction.
Qed.

(** A safe identifier is the one its hyphen rendering parses to. *)
Lemma parse_mcp_safe (raw : string) (p : ParsedControl) :
parse raw = Ok p ->
isSafeInteger (number p) = true -> isSafeEnhancement (enhancement p) = true ->
parse (mcp p) = Ok p.
Proof.
intros Hp Hn He. destruct (parse_inv _ _ Hp) as [Hf Hrec].
destruct (parse_renderings _ _ _ Hf Hn He) as [_ Hh]. cbv zeta in Hh.
rewrite <- Hrec in Hh. rewrite Hrec at 1. exact Hh.
Qed.

End MissingControls.

(** C2 (as amended).  For a stored document whose baseline resolves and
    parses, [validateSSP] leaves the directory as it is and reports as
    [missingControls] the normalized baseline ids that are not, as texts,
    among the ids stored in the records: the baseline side goes through
    the parser, the record side is compared as stored.  [totalControls]
    is the number of records, and [valid] holds exactly when
    [missingControls] is empty.  When every stored id is in normalized
    form, a baseline entry with number and enhancement below [2^53] is
    reported missing exactly when no record has its identifier. *)
Theorem validateSSP_missing_controls
    (getBaselineControls : string -> result (list string))
    (sspId : string) (st : gmap string SspService.SSP)
    (ssp : SspService.SSP) (baseline normalized : list string) :
  st !! sspId = Some ssp ->
  getBaselineControls
    (SspService.securityImpactLevel (SspService.systemCharacteristics ssp)) = Ok baseline ->
  mapM SspService.normalizeControlId baseline = Ok normalized ->
  exists report,
    SspService.validateSSP getBaselineControls sspId st = (Ok report, st) /\
    SspService.missingControls report
    = List.filter (fun c => negb (includes (storedIds ssp) c)) normalized /\
    (forall c, In c (SspService.missingControls report) <->
               In c normalized /\ ~ In c (storedIds ssp)) /\
    SspService.totalControls report = length (SspService.controlImplementations ssp) /\
    (SspService.valid report = true <-> SspService.missingControls report = []) /\
    (Forall isNormalizedId (storedIds ssp) ->
     forall raw p,
       In raw baseline -> parse raw = Ok p ->
       isSafeInteger (number p) = true -> isSafeEnhancement (enhancement p) = true ->
       (In (mcp p) (SspService.missingControls report) <->
        ~ exists s q, In s (storedIds ssp) /\ parse s = Ok q /\ sameIdentifier p q)).
Proof.
  intros Hdoc Hb Hn. rewrite validateSSP_unfold, Hdoc, Hb, Hn. cbv zeta.
  eexists. split; [reflexivity|].
  cbn [SspService.missingControls SspService.totalControls SspService.valid].
  split; [reflexivity|].
  split; [apply filter_not_includes|].
  split; [reflexivity|].
  split.
  { rewrite Nat.eqb_eq. split; [apply length_zero_iff_nil | now intros ->]. }
  intros Hnorm raw p Hin Hp Hsn Hse.
  rewrite filter_not_includes. split.
  - intros [_ Hnot] (s & q & Hs & Hq & Hsame).
    apply Hnot.
    rewrite Forall_forall in Hnorm.
    destruct (Hnorm s (proj2 (list_elem_of_In _ _) Hs)) as (q' & Hq' & Hm).
    rewrite Hq in Hq'. injection Hq' as <-.
    rewrite (sameIdentifier_mcp _ _ _ _ Hp Hq Hsame), Hm. exact Hs.
  - intros Hnone. split; [now apply (mapM_normalize_In baseline normalized raw p)|].
    intros Hs. apply Hnone. exists (mcp p), p.
    split; [assumption|]. split; [now apply (parse_mcp_safe raw)|].
    now repeat split.
Qed.

Lemma validateSSP_missing_controls_witness :
  let doc := SspService.mkSSP "doc" "uuid"
               (SspService.mkMetadata "T" "t0" "1.0" "1.1.0")
               (SspService.mkCharacteristics "T" "D" "MODERATE" "operational" "fedramp")
               [seeded "ac-1" "AC-1"; seeded "si-4" "SI-4"] "t0" "t0" in
  exists report,
    SspService.validateSSP (fun _ => Ok ["ac-1"; "ac-2"; "si-4"]) "doc" {[ "doc" := doc ]}
    = (Ok report, {[ "doc" := doc ]}) /\
    SspService.missingControls report = ["AC-2"] /\
    SspService.totalControls report = 2%nat.
Proof.
  intros doc.
  destruct (validateSSP_missing_controls (fun _ => Ok ["ac-1"; "ac-2"; "si-4"])
              "doc" {[ "doc" := doc ]} doc ["ac-1"; "ac-2"; "si-4"] ["AC-1"; "AC-2"; "SI-4"]
              (lookup_singleton_eq _ _) eq_refl ltac:(vm_compute; reflexivity))
    as (report & H1 & H2 & _ & H4 & _).
  exists report. split; [exact H1|]. split; [|exact H4].
  rewrite H2. vm_compute. reflexivity.
Defined.

(** C2, as stated, fails on a document whose record stores AC-1 as
    ["ac-1"]: the record has the identifier of the baseline entry, and
    AC-1 is reported missing all the same. *)
Lemma validateSSP_compares_stored_text :
  let doc := SspService.mkSSP "doc" "uuid"
               (SspService.mkMetadata "T" "t0" "1.0" "1.1.0")
               (SspService.mkCharacteristics "T" "D" "MODERATE" "operational" "oscal")
               [SspService.mkImplementation "ac-1" "IMPLEMENTED" (Some "policy") []
                  (Some "t0")] "t0" "t0" in
  (exists p q, parse "AC-1" = Ok p /\ parse "ac-1" = Ok q /\ sameIdentifier p q) /\
  exists report,
    fst (SspService.validateSSP (fun _ => Ok ["AC-1"]) "doc" {[ "doc" := doc ]}) = Ok report /\
    SspService.missingControls report = ["AC-1"] /\
    SspService.valid report = false.
Proof.
  intros doc. split.
  - do 2 eexists. split; [vm_compute; reflexivity|].
    split; [vm_compute; reflexivity|]. now repeat split.
  - eexists. split; [vm_compute; reflexivity|]. split; reflexivity.
Qed.


(** ** Binary64: values and the error of one operation *)

Section Values.
#[local] Open Scope Q_scope.

Lemma pow2_pos (e : Z) : 0 < (2 # 1) ^ e.
Proof. apply Qpower_0_lt. reflexivity. Qed.

Lemma pow2_add (a b : Z) : (2 # 1) ^ (a + b) == (2 # 1) ^ a * (2 # 1) ^ b.
Proof. apply Qpower_plus. discriminate. Qed.

Lemma pow2_inject (k : Z) : (0 <= k)%Z -> inject_Z (2 ^ k) == (2 # 1) ^ k.
Proof. intros Hk. now rewrite Zpower_Qpower. Qed.

(** [m * 2^k] at exponent [e] is [m] at exponent [e + k]. *)
Lemma value_shift (m k e : Z) :
(0 <= k)%Z -> inject_Z (m * 2 ^ k) * (2 # 1) ^ e == inject_Z m * (2 # 1) ^ (e + k).
Proof.
intros Hk. rewrite inject_Z_mult, pow2_inject, pow2_add by assumption. ring.
Qed.

(** The value after [binary_round_aux] is within one roundoff of any
  [v] between the mantissa and the next one. *)
Lemma binary_round_aux_value (m e : Z) (l : location) (v : Q) :
(0 < m)%Z -> (53 <= Zdigits2 m)%Z ->
(-1074 <= Zdigits2 m + e - 53)%Z -> (Zdigits2 m + e - 52 <= 971)%Z ->
inject_Z m * (2 # 1) ^ e <= v -> v <= inject_Z (m + 1) * (2 # 1) ^ e ->
exists (m' : positive) (e' : Z),
  normal53 (binary_round_aux prec emax false m e l) m' e' /\
  (Zdigits2 m + e - 53 <= e' <= Zdigits2 m + e - 52)%Z /\
  within 1 (valueOf (S754_finite false m' e')) v.
Proof.
intros Hm Hd Hlo Hhi Hv1 Hv2.
destruct (binary_round_aux_faithful m e l Hm Hd Hlo Hhi) as (m' & e' & Hr & Hd' & He' & Hcases).
cbv zeta in He', Hcases.
set (n := (Zdigits2 m - 53)%Z) in *.
assert (0 <= n)%Z as Hn by (unfold n; lia).
exists m', e'. split; [split; assumption|]. split; [lia|].
set (m0 := (m / 2 ^ n)%Z) in *.
set (g := (2 # 1) ^ (e + n)).
assert (0 < g) as Hg by apply pow2_pos.
pose proof (Zdigits2_bounds m Hm) as [Blo Bhi].
assert (0 < 2 ^ n)%Z as Hpn by (apply Z.pow_pos_nonneg; lia).
assert (2 ^ 52 <= m0)%Z as Hm0.
{ unfold m0. apply Z.div_le_lower_bound; [assumption|].
  rewrite <- Z.pow_add_r by lia.
  replace (n + 52)%Z with (Zdigits2 m - 1)%Z by (unfold n; lia). assumption. }
assert (m0 * 2 ^ n <= m)%Z as Hfloor
    by (unfold m0; rewrite Z.mul_comm; apply Z.mul_div_le; assumption).
assert (m + 1 <= (m0 + 1) * 2 ^ n)%Z as Hceil.
{ unfold m0. pose proof (Z.mod_pos_bound m (2 ^ n) Hpn).
  pose proof (Z.div_mod m (2 ^ n) ltac:(lia)). nia. }
(* the value, as a multiple of [g] *)
assert (valueOf (S754_finite false m' e')
        == inject_Z (Z.pos m' * 2 ^ (e' - (e + n))) * g) as Hval.
{ unfold valueOf, g. rewrite value_shift by lia.
  replace (e + n + (e' - (e + n)))%Z with e' by lia. ring. }
assert (inject_Z m0 * g <= v) as Hlow.
{ apply Qle_trans with (inject_Z m * (2 # 1) ^ e); [|assumption].
  unfold g. rewrite <- value_shift by assumption.
  apply Qmult_le_compat_r; [|apply Qlt_le_weak, pow2_pos].
  rewrite <- Zle_Qle. assumption. }
assert (v <= inject_Z (m0 + 1) * g) as Hupp.
{ apply Qle_trans with (inject_Z (m + 1) * (2 # 1) ^ e); [assumption|].
  unfold g. rewrite <- value_shift by assumption.
  apply Qmult_le_compat_r; [|apply Qlt_le_weak, pow2_pos].
  rewrite <- Zle_Qle. assumption. }
assert (inject_Z (2 ^ 52) * g <= inject_Z m0 * g) as Hbig.
{ apply Qmult_le_compat_r; [|apply Qlt_le_weak; assumption].
  rewrite <- Zle_Qle. assumption. }
assert (v <= inject_Z m0 * g + g) as Hupp'.
{ rewrite inject_Z_plus in Hupp. change (inject_Z 1) with 1 in Hupp.
  apply Qle_trans with ((inject_Z m0 + 1) * g); [assumption|].
  apply Qle_lteq. right. ring. }
clear Hupp.
unfold within. change ((1 - roundoff) ^ Z.of_nat 1) with (1 - roundoff).
change ((1 + roundoff) ^ Z.of_nat 1) with (1 + roundoff).
rewrite Hval.
change (inject_Z (2 ^ 52)) with (4503599627370496 # 1) in Hbig.
unfold roundoff.
set (p := inject_Z m0 * g) in *.
destruct Hcases as [-> | ->].
- fold p. split; lra.
- assert (inject_Z (m0 + 1) * g == p + g) as ->
      by (rewrite inject_Z_plus; unfold p; change (inject_Z 1) with 1; ring).
  split; lra.
Qed.


Lemma normal53_mantissa (x : Number) (m : positive) (e : Z) :
normal53 x m e -> (2 ^ 52 <= Z.pos m < 2 ^ 53)%Z.
Proof.
intros [_ Hd]. pose proof (digits2_pos_bounds m) as H. rewrite Hd in H. exact H.
Qed.

Lemma normal53_value (x : Number) (m : positive) (e : Z) :
normal53 x m e -> valueOf x == inject_Z (Z.pos m) * (2 # 1) ^ e /\ 0 < valueOf x.
Proof.
intros [-> _]. unfold valueOf. split; [ring|].
assert (0 < inject_Z (Z.pos m)) by (rewrite <- (Zlt_Qlt 0); lia).
pose proof (pow2_pos e). nra.
Qed.

(** The Number of a positive integer below [2^53] is normal and holds
  the integer. *)
Lemma ofZ_normal (z : Z) :
(0 < z < 2 ^ 53)%Z ->
exists (m : positive) (e : Z),
  normal53 (ofZ z) m e /\ (-52 <= e <= 0)%Z /\
  (z < 2 ^ 32 -> e <= -21)%Z /\
  valueOf (ofZ z) == inject_Z z.
Proof.
intros Hz. destruct (ofZ_small z Hz) as (m & e & Hof & Hd & He & Hm).
exists m, e. split; [split; assumption|]. split; [assumption|]. split.
- intros Hsmall.
  pose proof (digits2_pos_bounds m) as [Blo _]. rewrite Hd in Blo.
  destruct (Z.le_gt_cases e (-21)) as [|Hgt]; [assumption|exfalso].
  assert (2 ^ (- e) <= 2 ^ 20)%Z by (apply Z.pow_le_mono_r; lia).
  assert (0 < 2 ^ (- e))%Z by (apply Z.pow_pos_nonneg; lia).
  change (2 ^ (53 - 1))%Z with (2 ^ 32 * 2 ^ 20)%Z in Blo. nia.
- rewrite Hof. unfold valueOf. rewrite Hm.
  transitivity (inject_Z (z * 2 ^ (- e)) * (2 # 1) ^ e); [ring|].
  rewrite value_shift by lia.
  replace (e + - e)%Z with 0%Z by lia. change ((2 # 1) ^ 0) with 1. ring.
Qed.

(** One rounding for the product of two normal Numbers. *)
Lemma mul_within (x y : Number) (mx my : positive) (ex ey : Z) :
normal53 x mx ex -> normal53 y my ey -> (-500 <= ex + ey <= 500)%Z ->
exists (m : positive) (e : Z),
  normal53 (mul x y) m e /\ (ex + ey + 52 <= e <= ex + ey + 54)%Z /\
  within 1 (valueOf (mul x y)) (valueOf x * valueOf y).
Proof.
intros Hx Hy He.
pose proof (normal53_mantissa _ _ _ Hx) as Bx.
pose proof (normal53_mantissa _ _ _ Hy) as By.
destruct (normal53_value _ _ _ Hx) as [Vx _].
destruct (normal53_value _ _ _ Hy) as [Vy _].
destruct Hx as [-> _], Hy as [-> _].
unfold mul, SFmul. cbn [xorb].
change (2 ^ 52)%Z with 4503599627370496%Z in *.
change (2 ^ 53)%Z with 9007199254740992%Z in *.
assert (2 ^ 104 <= Z.pos (mx * my) < 2 ^ 106)%Z as Bp.
{ rewrite Pos2Z.inj_mul.
  change (2 ^ 104)%Z with (4503599627370496 * 4503599627370496)%Z.
  change (2 ^ 106)%Z with (9007199254740992 * 9007199254740992)%Z. nia. }
assert (105 <= Zdigits2 (Z.pos (mx * my)) <= 106)%Z as Hd.
{ destruct (Z.lt_ge_cases (Z.pos (mx * my)) (2 ^ 105)) as [Hlt|Hge].
  - rewrite (Zdigits2_unique _ 105); [lia | lia |].
    change (105 - 1)%Z with 104%Z. lia.
  - rewrite (Zdigits2_unique _ 106); [lia | lia |].
    change (106 - 1)%Z with 105%Z. lia. }
destruct (binary_round_aux_value (Z.pos (mx * my)) (ex + ey) loc_Exact
            (valueOf (S754_finite false mx ex) * valueOf (S754_finite false my ey)))
  as (m & e & Hn & Hwin & Hw); try lia.
- rewrite Vx, Vy, Pos2Z.inj_mul, inject_Z_mult, pow2_add.
  apply Qle_lteq. right. ring.
- rewrite Vx, Vy, inject_Z_plus, Pos2Z.inj_mul, inject_Z_mult, pow2_add.
  change (inject_Z 1) with 1.
  pose proof (pow2_pos ex). pose proof (pow2_pos ey).
  assert (0 < (2 # 1) ^ ex * (2 # 1) ^ ey) by nra.
  nra.
- exists m, e. split; [assumption|]. split; [lia|].
  destruct Hn as [-> _]. exact Hw.
Qed.


(** One rounding for the quotient of two normal Numbers. *)
Lemma div_within (x y : Number) (mx my : positive) (ex ey : Z) :
normal53 x mx ex -> normal53 y my ey -> (-500 <= ex - ey <= 500)%Z ->
exists (m : positive) (e : Z),
  normal53 (div x y) m e /\ (ex - ey - 53 <= e <= ex - ey - 51)%Z /\
  within 1 (valueOf (div x y)) (valueOf x / valueOf y).
Proof.
intros Hx Hy He.
pose proof (normal53_mantissa _ _ _ Hx) as Bx.
pose proof (normal53_mantissa _ _ _ Hy) as By.
destruct (normal53_value _ _ _ Hx) as [Vx Px].
destruct (normal53_value _ _ _ Hy) as [Vy Py].
destruct Hx as [-> Dx], Hy as [-> Dy].
unfold div, SFdiv, SFdiv_core_binary. cbn [xorb Zdigits2]. rewrite Dx, Dy.
assert (Z.min (fexp prec emax (53 + ex - (53 + ey))) (ex - ey) = ex - ey - 53)%Z as ->
    by (unfold fexp, SpecFloat.emin, prec, emax; lia).
replace (ex - ey - (ex - ey - 53))%Z with 53%Z by lia.
rewrite Z.shiftl_mul_pow2 by lia.
pose proof (Z_div_mod (Z.pos mx * 2 ^ 53) (Z.pos my) ltac:(lia)) as Hdm.
destruct (Z.div_eucl (Z.pos mx * 2 ^ 53) (Z.pos my)) as [q r].
destruct Hdm as [Heq Hr].
change (2 ^ 52)%Z with 4503599627370496%Z in *.
change (2 ^ 53)%Z with 9007199254740992%Z in *.
assert (4503599627370496 <= q < 18014398509481984)%Z as Bq by nia.
assert (53 <= Zdigits2 q <= 54)%Z as Hd.
{ destruct (Z.lt_ge_cases q (2 ^ 53)) as [Hlt|Hge].
  - rewrite (Zdigits2_unique q 53); [lia | lia |].
    change (2 ^ (53 - 1))%Z with 4503599627370496%Z. lia.
  - rewrite (Zdigits2_unique q 54); [lia | lia |].
    change (2 ^ (54 - 1))%Z with (2 ^ 53)%Z.
    change (2 ^ 54)%Z with 18014398509481984%Z. lia. }
set (g := (2 # 1) ^ (ex - ey - 53)).
assert (0 < g) as Hg by apply pow2_pos.
set (A := inject_Z (Z.pos mx)) in *. set (B := inject_Z (Z.pos my)) in *.
set (a := (2 # 1) ^ ex) in *. set (b := (2 # 1) ^ ey) in *.
assert (0 < b) as Hb by apply pow2_pos.
assert (0 < B) as HB by (unfold B; rewrite <- (Zlt_Qlt 0); lia).
assert (a == g * b * 9007199254740992) as Ha.
{ unfold a, g, b. change 9007199254740992 with ((2 # 1) ^ 53).
  rewrite <- !pow2_add. replace (ex - ey - 53 + ey + 53)%Z with ex by lia. reflexivity. }
assert (A * 9007199254740992 == B * inject_Z q + inject_Z r) as HeqQ.
{ unfold A, B. change 9007199254740992 with (inject_Z 9007199254740992).
  rewrite <- !inject_Z_mult, <- inject_Z_plus. now rewrite Heq. }
assert (0 <= inject_Z r < B) as HrQ
    by (unfold B; rewrite <- (Zle_Qle 0), <- Zlt_Qlt; lia).
assert (inject_Z q * B <= A * 9007199254740992) as Hlow by lra.
assert (A * 9007199254740992 <= inject_Z (q + 1) * B) as Hupp
    by (rewrite inject_Z_plus; change (inject_Z 1) with 1; lra).
assert (0 < g * b) as Hgb by (apply Qmult_lt_0_compat; assumption).
assert (0 < B * b) as HBb by (apply Qmult_lt_0_compat; assumption).
destruct (binary_round_aux_value q (ex - ey - 53) (new_location (Z.pos my) r)
            (valueOf (S754_finite false mx ex) / valueOf (S754_finite false my ey)))
  as (m & e & Hn & Hwin & Hw); try lia.
- rewrite Vx, Vy. fold g. apply Qle_shift_div_l; [assumption|].
  rewrite Ha.
  assert (inject_Z q * g * (B * b) == g * b * (inject_Z q * B)) as -> by ring.
  assert (A * (g * b * 9007199254740992) == g * b * (A * 9007199254740992)) as -> by ring.
  apply Qmult_le_l; assumption.
- rewrite Vx, Vy. fold g. apply Qle_shift_div_r; [assumption|].
  rewrite Ha.
  assert (inject_Z (q + 1) * g * (B * b) == g * b * (inject_Z (q + 1) * B)) as -> by ring.
  assert (A * (g * b * 9007199254740992) == g * b * (A * 9007199254740992)) as -> by ring.
  apply Qmult_le_l; assumption.
- exists m, e. split; [assumption|]. split; [lia|].
  destruct Hn as [-> _]. exact Hw.
Qed.

Lemma shl_align_fst (m : positive) (e ez : Z) :
(ez <= e)%Z -> Z.pos (fst (shl_align m e ez)) = (Z.pos m * 2 ^ (e - ez))%Z.
Proof.
intros Hle. unfold shl_align.
destruct (ez - e)%Z as [|d|d] eqn:Hd; cbn [fst]; try lia.
- replace (e - ez)%Z with 0%Z by lia. cbn. lia.
- rewrite iter_xO_value. f_equal. f_equal. lia.
Qed.

(** One rounding for the sum of two normal Numbers. *)
Lemma add_within (x y : Number) (mx my : positive) (ex ey : Z) :
normal53 x mx ex -> normal53 y my ey ->
(-500 <= ex <= 500)%Z -> (-500 <= ey <= 500)%Z ->
exists (m : positive) (e : Z),
  normal53 (add x y) m e /\ (Z.min ex ey <= e <= Z.max ex ey + 2)%Z /\
  within 1 (valueOf (add x y)) (valueOf x + valueOf y).
Proof.
intros Hx Hy Hex Hey.
pose proof (normal53_mantissa _ _ _ Hx) as Bx.
pose proof (normal53_mantissa _ _ _ Hy) as By.
destruct (normal53_value _ _ _ Hx) as [Vx Px].
destruct (normal53_value _ _ _ Hy) as [Vy Py].
destruct Hx as [-> Dx], Hy as [-> Dy].
unfold add, SFadd. cbn [cond_Zopp].
set (ez := Z.min ex ey).
rewrite !shl_align_fst by (unfold ez; lia).
set (S := (Z.pos mx * 2 ^ (ex - ez) + Z.pos my * 2 ^ (ey - ez))%Z).
assert (0 < 2 ^ (ex - ez))%Z as Hpx by (apply Z.pow_pos_nonneg; unfold ez; lia).
assert (0 < 2 ^ (ey - ez))%Z as Hpy by (apply Z.pow_pos_nonneg; unfold ez; lia).
set (D := (Z.max ex ey - ez)%Z).
assert (0 <= D)%Z as HD by (unfold D, ez; lia).
assert (2 ^ (ex - ez) <= 2 ^ D)%Z as Hqx by (apply Z.pow_le_mono_r; unfold D, ez; lia).
assert (2 ^ (ey - ez) <= 2 ^ D)%Z as Hqy by (apply Z.pow_le_mono_r; unfold D, ez; lia).
assert (0 < 2 ^ D)%Z as HpD by (apply Z.pow_pos_nonneg; lia).
assert (2 ^ 52 <= S < 2 ^ (54 + D))%Z as BS.
{ rewrite Z.pow_add_r by lia.
  change (2 ^ 54)%Z with (2 * 2 ^ 53)%Z. unfold S. split; nia. }
assert (0 < S)%Z as HS by lia.
assert (53 <= Zdigits2 S <= 54 + D)%Z as Hd.
{ pose proof (Zdigits2_bounds S HS) as [Dlo Dhi]. split.
  - destruct (Z.le_gt_cases 53 (Zdigits2 S)) as [|Hlt]; [assumption|exfalso].
    assert (2 ^ Zdigits2 S <= 2 ^ 52)%Z by (apply Z.pow_le_mono_r; lia). lia.
  - destruct (Z.le_gt_cases (Zdigits2 S) (54 + D)) as [|Hgt]; [assumption|exfalso].
    assert (2 ^ (54 + D) <= 2 ^ (Zdigits2 S - 1))%Z by (apply Z.pow_le_mono_r; lia). lia. }
unfold binary_normalize. destruct S as [|s|s] eqn:HSeq; try lia.
unfold binary_round.
assert (shl_align s ez (fexp prec emax (Z.pos (digits2_pos s) + ez)) = (s, ez)) as ->.
{ unfold shl_align. cbn [Zdigits2] in Hd.
  destruct (fexp prec emax (Z.pos (digits2_pos s) + ez) - ez)%Z as [|k|k] eqn:Hk;
    try reflexivity.
  unfold fexp, SpecFloat.emin, prec, emax in Hk. lia. }
destruct (binary_round_aux_value (Z.pos s) ez loc_Exact
            (valueOf (S754_finite false mx ex) + valueOf (S754_finite false my ey)))
  as (m & e & Hn & Hwin & Hw); try (unfold D, ez in *; lia).
- rewrite Vx, Vy, <- HSeq. unfold S. rewrite inject_Z_plus, Qmult_plus_distr_l.
  rewrite !value_shift by (unfold ez; lia).
  replace (ez + (ex - ez))%Z with ex by lia.
  replace (ez + (ey - ez))%Z with ey by lia. lra.
- rewrite Vx, Vy, <- HSeq. unfold S. rewrite !inject_Z_plus, !Qmult_plus_distr_l.
  rewrite !value_shift by (unfold ez; lia).
  replace (ez + (ex - ez))%Z with ex by lia.
  replace (ez + (ey - ez))%Z with ey by lia.
  change (inject_Z 1) with 1. pose proof (pow2_pos ez). lra.
- exists m, e. split; [assumption|]. split; [unfold D, ez in *; lia|].
  destruct Hn as [-> _]. exact Hw.
Qed.


(** *** Accumulating roundings *)

Lemma roundoff_factors (k : nat) :
0 < (1 - roundoff) ^ Z.of_nat k /\ 0 < (1 + roundoff) ^ Z.of_nat k.
Proof. split; apply Qpower_0_lt; reflexivity. Qed.

Lemma roundoff_succ (k : nat) :
(1 - roundoff) ^ Z.of_nat (S k) == (1 - roundoff) ^ Z.of_nat k * (1 - roundoff) /\
(1 + roundoff) ^ Z.of_nat (S k) == (1 + roundoff) ^ Z.of_nat k * (1 + roundoff).
Proof.
rewrite Nat2Z.inj_succ. unfold Z.succ.
split; (rewrite Qpower_plus by discriminate); reflexivity.
Qed.

Lemma within_exact (r v : Q) : r == v -> within 0 r v.
Proof.
intros H. unfold within. change (Z.of_nat 0) with 0%Z.
change ((1 - roundoff) ^ 0) with 1. change ((1 + roundoff) ^ 0) with 1.
rewrite H. split; lra.
Qed.

Lemma within_succ (k : nat) (r v : Q) : 0 <= v -> within k r v -> within (S k) r v.
Proof.
unfold within. intros Hv [H1 H2].
destruct (roundoff_succ k) as [-> ->].
destruct (roundoff_factors k) as [L U].
set (lo := (1 - roundoff) ^ Z.of_nat k) in *.
set (hi := (1 + roundoff) ^ Z.of_nat k) in *.
assert (0 <= v * lo) by (apply Qmult_le_0_compat; lra).
assert (0 <= v * hi) by (apply Qmult_le_0_compat; lra).
unfold roundoff. split.
- apply Qle_trans with (v * lo); [|assumption].
  assert (v * (lo * (1 - (1 # 4503599627370496)))
          == v * lo - (1 # 4503599627370496) * (v * lo)) as -> by ring. lra.
- apply Qle_trans with (v * hi); [assumption|].
  assert (v * (hi * (1 + (1 # 4503599627370496)))
          == v * hi + (1 # 4503599627370496) * (v * hi)) as -> by ring. lra.
Qed.

(** One more rounding on top of [k]. *)
Lemma within_step (k : nat) (r r' v : Q) :
0 <= v -> within k r v -> within 1 r' r -> within (S k) r' v.
Proof.
unfold within. intros Hv [H1 H2] [H3 H4].
change ((1 - roundoff) ^ Z.of_nat 1) with (1 - roundoff) in H3.
change ((1 + roundoff) ^ Z.of_nat 1) with (1 + roundoff) in H4.
destruct (roundoff_succ k) as [-> ->].
destruct (roundoff_factors k) as [L U].
set (lo := (1 - roundoff) ^ Z.of_nat k) in *.
set (hi := (1 + roundoff) ^ Z.of_nat k) in *.
assert (0 <= 1 - roundoff) as Hl by (unfold roundoff; lra).
assert (0 <= 1 + roundoff) as Hh by (unfold roundoff; lra).
split.
- apply Qle_trans with (r * (1 - roundoff)); [|assumption].
  assert (v * (lo * (1 - roundoff)) == v * lo * (1 - roundoff)) as -> by ring.
  apply Qmult_le_compat_r; assumption.
- apply Qle_trans with (r * (1 + roundoff)); [assumption|].
  assert (v * (hi * (1 + roundoff)) == v * hi * (1 + roundoff)) as -> by ring.
  apply Qmult_le_compat_r; assumption.
Qed.

Lemma within_scale (k : nat) (r v c : Q) : 0 <= c -> within k r v -> within k (r * c) (v * c).
Proof.
unfold within. intros Hc [H1 H2]. split.
- assert (v * c * (1 - roundoff) ^ Z.of_nat k == v * (1 - roundoff) ^ Z.of_nat k * c)
    as -> by ring.
  apply Qmult_le_compat_r; assumption.
- assert (v * c * (1 + roundoff) ^ Z.of_nat k == v * (1 + roundoff) ^ Z.of_nat k * c)
    as -> by ring.
  apply Qmult_le_compat_r; assumption.
Qed.

Lemma within_add (k : nat) (r1 v1 r2 v2 : Q) :
within k r1 v1 -> within k r2 v2 -> within k (r1 + r2) (v1 + v2).
Proof.
unfold within. intros [H1 H2] [H3 H4].
rewrite !Qmult_plus_distr_l. split; lra.
Qed.


(** *** The percentage before [toFixed] *)

#[local] Instance within_proper (k : nat) : Proper (Qeq ==> Qeq ==> iff) (within k).
Proof. intros r r' Hr v v' Hv. unfold within. rewrite Hr, Hv. reflexivity. Qed.

Lemma half_normal : normal53 half 4503599627370496 (-53) /\ valueOf half == 1 # 2.
Proof. split; [split; reflexivity|reflexivity]. Qed.

Lemma hundred_normal :
normal53 (ofZ 100) 7036874417766400 (-46) /\ valueOf (ofZ 100) == 100.
Proof. split; [split; reflexivity|reflexivity]. Qed.

(** [partiallyImplementedCount * 0.5] *)
Lemma halved_within (p : Z) :
(0 < p < 2 ^ 32)%Z ->
exists (m : positive) (e : Z),
  normal53 (mul (ofZ p) half) m e /\ (-53 <= e <= -20)%Z /\
  within 1 (valueOf (mul (ofZ p) half)) (inject_Z p * (1 # 2)).
Proof.
intros Hp.
destruct (ofZ_normal p) as (mp & ep & Np & Ep & Ep' & Vp); [lia|].
destruct half_normal as [Nh Vh].
destruct (mul_within _ _ _ _ _ _ Np Nh) as (m & e & N & E & W); [lia|].
exists m, e. split; [assumption|]. split; [lia|].
rewrite Vp, Vh in W. exact W.
Qed.

(** [implementedCount + (partiallyImplementedCount * 0.5)] *)
Lemma numerator_within (i p : Z) :
(0 <= i < 2 ^ 32)%Z -> (0 <= p < 2 ^ 32)%Z -> (0 < i + p)%Z ->
exists (m : positive) (e : Z),
  normal53 (add (ofZ i) (mul (ofZ p) half)) m e /\ (-53 <= e <= -18)%Z /\
  within 2 (valueOf (add (ofZ i) (mul (ofZ p) half)))
           (inject_Z i + inject_Z p * (1 # 2)).
Proof.
intros Hi Hp Hip.
assert (0 <= inject_Z i) as Qi by (rewrite <- (Zle_Qle 0); lia).
assert (0 <= inject_Z p) as Qp by (rewrite <- (Zle_Qle 0); lia).
destruct (Z.eq_dec p 0%Z) as [->|Pnz].
- (* no partially implemented record *)
  destruct (ofZ_normal i) as (mi & ei & Ni & Ei & Ei' & Vi); [lia|].
  change (mul (ofZ 0) half) with (S754_zero false).
  assert (add (ofZ i) (S754_zero false) = ofZ i) as ->
    by (destruct Ni as [-> _]; reflexivity).
  exists mi, ei. split; [assumption|]. split; [lia|].
  apply within_succ, within_succ, within_exact;
    rewrite ?Vi; change (inject_Z 0) with 0; lra.
- destruct (halved_within p) as (ma & ea & Na & Ea & Wa); [lia|].
  pose proof (normal53_value _ _ _ Na) as [_ Pa].
  destruct (Z.eq_dec i 0%Z) as [->|Inz].
  + (* no implemented record *)
    change (ofZ 0) with (S754_zero false).
    assert (add (S754_zero false) (mul (ofZ p) half) = mul (ofZ p) half) as ->
      by (destruct Na as [-> _]; reflexivity).
    exists ma, ea. split; [assumption|]. split; [lia|].
    apply within_succ; [change (inject_Z 0) with 0; lra|].
    destruct Wa as [W1 W2]. split; change (inject_Z 0) with 0.
    * eapply Qle_trans; [|exact W1]. rewrite Qplus_0_l. apply Qle_refl.
    * eapply Qle_trans; [exact W2|]. rewrite Qplus_0_l. apply Qle_refl.
  + destruct (ofZ_normal i) as (mi & ei & Ni & Ei & Ei' & Vi); [lia|].
    destruct (add_within _ _ _ _ _ _ Ni Na) as (m & e & N & E & W); [lia|lia|].
    exists m, e. split; [assumption|]. split; [lia|].
    apply within_step with (r := valueOf (ofZ i) + valueOf (mul (ofZ p) half));
      [lra| |exact W].
    apply within_add; [|exact Wa].
    rewrite Vi. unfold within.
    change ((1 - roundoff) ^ Z.of_nat 1) with (1 - roundoff).
    change ((1 + roundoff) ^ Z.of_nat 1) with (1 + roundoff).
    unfold roundoff. split; nra.
Qed.

(** [((implementedCount + partiallyImplementedCount * 0.5) /
    totalControls) * 100], when some record counts. *)
Lemma rawPercentage_within (i p t : nat) :
(Z.of_nat i < 2 ^ 32)%Z -> (Z.of_nat p < 2 ^ 32)%Z ->
(0 < Z.of_nat t < 2 ^ 32)%Z -> (0 < i + p)%nat ->
exists (m : positive) (e : Z),
  SspService.rawPercentage i p t = S754_finite false m e /\ (-79 <= e <= -9)%Z /\
  within 4 (inject_Z (Z.pos m) * (2 # 1) ^ e)
           ((inject_Z (Z.of_nat i) + inject_Z (Z.of_nat p) * (1 # 2))
            / inject_Z (Z.of_nat t) * 100).
Proof.
intros Hi Hp Ht Hip. unfold SspService.rawPercentage.
destruct (numerator_within (Z.of_nat i) (Z.of_nat p)) as (mb & eb & Nb & Eb & Wb);
  [lia..|].
destruct (ofZ_normal (Z.of_nat t)) as (mt & et & Nt & Et & Et' & Vt); [lia|].
destruct (div_within _ _ _ _ _ _ Nb Nt) as (mc & ec & Nc & Ec & Wc); [lia|].
destruct hundred_normal as [Nh Vh].
destruct (mul_within _ _ _ _ _ _ Nc Nh) as (m & e & N & E & W); [lia|].
exists m, e.
pose proof (normal53_value _ _ _ N) as [V _].
split; [exact (proj1 N)|]. split; [lia|].
rewrite <- V.
assert (0 <= inject_Z (Z.of_nat i)) as Qi by (rewrite <- (Zle_Qle 0); lia).
assert (0 <= inject_Z (Z.of_nat p)) as Qp by (rewrite <- (Zle_Qle 0); lia).
assert (0 < inject_Z (Z.of_nat t)) as Qt by (rewrite <- (Zlt_Qlt 0); lia).
assert (0 < / inject_Z (Z.of_nat t)) as Qt' by (apply Qinv_lt_0_compat; exact Qt).
set (x := inject_Z (Z.of_nat i) + inject_Z (Z.of_nat p) * (1 # 2)) in *.
assert (0 <= x) as Qx by (unfold x; lra).
assert (0 <= x / inject_Z (Z.of_nat t)) as Qxt
  by (apply Qmult_le_0_compat; lra).
rewrite Vt in Wc. rewrite Vh in W.
refine (within_step 3 _ _ _ _ _ W).
- apply Qmult_le_0_compat; lra.
- apply within_scale; [lra|].
  refine (within_step 2 _ _ _ Qxt _ Wc).
  apply within_scale; [lra|exact Wb].
Qed.


(** *** [toFixed(2)] of the percentage *)

Lemma four_roundings :
1 - (1 # 562949953421312) <= (1 - roundoff) ^ Z.of_nat 4 /\
(1 + roundoff) ^ Z.of_nat 4 <= 1 + (1 # 562949953421312).
Proof. split; apply Qle_bool_imp_le; vm_compute; reflexivity. Qed.

Ltac push_inject H :=
repeat first [rewrite inject_Z_plus in H | rewrite inject_Z_mult in H].

(** A value within four roundings of [50 * x2 / t], in hundredths. *)
Lemma nearest_hundredth (m : positive) (e x2 t : Z) (v : Q) :
(e < 0)%Z -> (0 < t < 2 ^ 32)%Z -> (0 <= x2 <= 2 * t)%Z ->
v * inject_Z t == 50 * inject_Z x2 ->
within 4 (inject_Z (Z.pos m) * (2 # 1) ^ e) v ->
let n := ((2 * 100 * Z.pos m + 2 ^ (- e)) / (2 * 2 ^ (- e)))%Z in
((2 * n - 1) * t <= 10000 * x2 <= (2 * n + 1) * t)%Z.
Proof.
intros He Ht Hx Hv [W1 W2] n.
destruct four_roundings as [L4 U4].
set (lo := (1 - roundoff) ^ Z.of_nat 4) in *.
set (hi := (1 + roundoff) ^ Z.of_nat 4) in *.
set (K := (2 ^ (- e))%Z) in *.
assert (0 < K)%Z as HK by (apply Z.pow_pos_nonneg; lia).
assert (0 < inject_Z K) as QK by (rewrite <- (Zlt_Qlt 0); exact HK).
assert (0 < inject_Z t) as Qt by (rewrite <- (Zlt_Qlt 0); lia).
assert (inject_Z t < 4294967296) as Qt'
  by (change 4294967296 with (inject_Z (2 ^ 32)); rewrite <- Zlt_Qlt; lia).
assert (0 <= inject_Z x2) as Qx by (rewrite <- (Zle_Qle 0); lia).
assert (inject_Z x2 <= 2 * inject_Z t) as Qx'
  by (change 2 with (inject_Z 2); rewrite <- inject_Z_mult, <- Zle_Qle; lia).
set (y := inject_Z (Z.pos m) * (2 # 1) ^ e) in *.
(* the value, scaled *)
assert (y * inject_Z K == inject_Z (Z.pos m)) as Hy.
{ unfold y, K. rewrite pow2_inject by lia.
  assert (inject_Z (Z.pos m) * (2 # 1) ^ e * (2 # 1) ^ (- e)
          == inject_Z (Z.pos m) * ((2 # 1) ^ e * (2 # 1) ^ (- e))) as -> by ring.
  rewrite <- pow2_add. replace (e + - e)%Z with 0%Z by lia.
  change ((2 # 1) ^ 0) with 1. ring. }
(* the quotient of [toFixed] *)
assert (2 * K * n <= 2 * 100 * Z.pos m + K < 2 * K * n + 2 * K)%Z as [F1 F2].
{ unfold n. pose proof (Z.div_mod (2 * 100 * Z.pos m + K) (2 * K)) as D.
  pose proof (Z.mod_pos_bound (2 * 100 * Z.pos m + K) (2 * K)) as B. lia. }
rewrite Zle_Qle in F1. rewrite Zlt_Qlt in F2.
push_inject F1. push_inject F2.
change (inject_Z 2) with 2 in F1, F2. change (inject_Z 100) with 100 in F1, F2.
assert (inject_Z n - (1 # 2) <= 100 * y) as G1.
{ apply (Qmult_le_l _ _ (2 * inject_Z K)); [lra|].
  assert (2 * inject_Z K * (inject_Z n - (1 # 2))
          == 2 * inject_Z K * inject_Z n - inject_Z K) as -> by ring.
  assert (2 * inject_Z K * (100 * y) == 2 * 100 * (y * inject_Z K)) as -> by ring.
  lra. }
assert (100 * y < inject_Z n + (1 # 2)) as G2.
{ apply (Qmult_lt_l _ _ (2 * inject_Z K)); [lra|].
  assert (2 * inject_Z K * (inject_Z n + (1 # 2))
          == 2 * inject_Z K * inject_Z n + inject_Z K) as -> by ring.
  assert (2 * inject_Z K * (100 * y) == 2 * 100 * (y * inject_Z K)) as -> by ring.
  lra. }
(* the exact percentage *)
assert (0 <= v) as V0.
{ destruct (Qlt_le_dec v 0) as [Neg|]; [exfalso|assumption].
  assert (v * inject_Z t < 0 * inject_Z t) by (apply Qmult_lt_compat_r; assumption).
  lra. }
assert (v <= 100) as V100.
{ destruct (Qlt_le_dec 100 v) as [Big|]; [exfalso|assumption].
  assert (100 * inject_Z t < v * inject_Z t) by (apply Qmult_lt_compat_r; assumption).
  lra. }
assert (v * (1 - (1 # 562949953421312)) <= v * lo) as L
  by (rewrite !(Qmult_comm v); apply Qmult_le_compat_r; assumption).
assert (v * hi <= v * (1 + (1 # 562949953421312))) as U
  by (rewrite !(Qmult_comm v); apply Qmult_le_compat_r; assumption).
assert (v - (100 # 562949953421312) <= y) as Y1 by lra.
assert (y <= v + (100 # 562949953421312)) as Y2 by lra.
assert ((inject_Z n - (1 # 2) - (10000 # 562949953421312)) * inject_Z t
        <= 100 * v * inject_Z t) as T1
  by (apply Qmult_le_compat_r; lra).
assert (100 * v * inject_Z t
        < (inject_Z n + (1 # 2) + (10000 # 562949953421312)) * inject_Z t) as T2
  by (apply Qmult_lt_compat_r; lra).
assert (100 * v * inject_Z t == 5000 * inject_Z x2) as Hv'
  by (assert (100 * v * inject_Z t == 100 * (v * inject_Z t)) as -> by ring;
      rewrite Hv; ring).
rewrite Hv' in T1, T2.
split.
- destruct (Z.le_gt_cases ((2 * n - 1) * t) (10000 * x2)) as [|Bad]; [assumption|exfalso].
  assert (10000 * x2 + 1 + t <= 2 * n * t)%Z as Bad' by lia.
  rewrite Zle_Qle in Bad'.
  push_inject Bad'.
  change (inject_Z 10000) with 10000 in Bad'. change (inject_Z 2) with 2 in Bad'.
  change (inject_Z 1) with 1 in Bad'.
  lra.
- destruct (Z.le_gt_cases (10000 * x2) ((2 * n + 1) * t)) as [|Bad]; [assumption|exfalso].
  assert ((2 * n + 1) * t + 1 <= 10000 * x2)%Z as Bad' by lia.
  rewrite Zle_Qle in Bad'.
  push_inject Bad'.
  change (inject_Z 10000) with 10000 in Bad'. change (inject_Z 2) with 2 in Bad'.
  change (inject_Z 1) with 1 in Bad'.
  lra.
Qed.

End Values.

(** ** The implementation percentage *)

Section Percentage.
Import SspService.

#[local] Existing Instance within_proper.

(** The object of counts, read at a status. *)
Lemma countStatuses_from (wanted : string) (recs : list ControlImplementation)
  (counts : gmap string nat) :
default O (fold_left
             (fun counts impl =>
                <[SspService.status impl :=
                    S (default O (counts !! SspService.status impl))]> counts)
             recs counts !! wanted)
= (default O (counts !! wanted) + countStatus wanted recs)%nat.
Proof.
revert counts. induction recs as [|r recs IH]; intros counts.
- cbn. lia.
- cbn [fold_left]. rewrite IH. unfold countStatus. cbn [List.filter].
  destruct (String.eqb_spec (SspService.status r) wanted) as [->|Hne].
  + rewrite lookup_insert_eq. cbn. lia.
  + rewrite lookup_insert_ne by assumption. lia.
Qed.

Lemma countStatuses_lookup (wanted : string) (recs : list ControlImplementation) :
default O (countStatuses recs !! wanted)
= (default O (initialCounts !! wanted) + countStatus wanted recs)%nat.
Proof. apply countStatuses_from. Qed.

(** Each record has one status. *)
Lemma countStatus_disjoint (recs : list ControlImplementation) :
(countStatus "IMPLEMENTED" recs + countStatus "PARTIALLY_IMPLEMENTED" recs
 + countStatus "ALTERNATIVE_IMPLEMENTATION" recs + countStatus "NOT_APPLICABLE" recs
 <= length recs)%nat.
Proof.
unfold countStatus. induction recs as [|r recs IH]; [cbn; lia|].
cbn [List.filter length].
destruct (String.eqb_spec (SspService.status r) "IMPLEMENTED") as [->|_];
  [cbn; lia|].
destruct (String.eqb_spec (SspService.status r) "PARTIALLY_IMPLEMENTED") as [->|_];
  [cbn; lia|].
destruct (String.eqb_spec (SspService.status r) "ALTERNATIVE_IMPLEMENTATION") as [->|_];
  [cbn; lia|].
destruct (SspService.status r =? "NOT_APPLICABLE")%string; cbn; lia.
Qed.

Lemma countStatus_statuses (wanted : string) (recs : list ControlImplementation) :
countStatus wanted recs
= length (List.filter (fun s => String.eqb s wanted) (map SspService.status recs)).
Proof.
unfold countStatus. induction recs as [|r recs IH]; [reflexivity|].
cbn [List.filter map]. destruct (SspService.status r =? wanted)%string; cbn; lia.
Qed.

Lemma filter_length_Permutation {A : Type} (f : A -> bool) (l l' : list A) :
l ≡ₚ l' -> length (List.filter f l) = length (List.filter f l').
Proof.
induction 1 as [|x l l' _ IH|x y l|l l' l'' _ IH1 _ IH2]; cbn [List.filter].
- reflexivity.
- destruct (f x); cbn; lia.
- destruct (f x), (f y); reflexivity.
- lia.
Qed.

(** [toFixed(2)] picks a hundredth nearest to the formula. *)
Lemma toFixed2_rawPercentage (i p t : nat) :
(0 < t)%nat -> Z.of_nat t < 2 ^ 32 -> (i + p <= t)%nat ->
let n := toFixed2 (rawPercentage i p t) in
(2 * n - 1) * Z.of_nat t <= 10000 * (2 * Z.of_nat i + Z.of_nat p)
<= (2 * n + 1) * Z.of_nat t.
Proof.
intros Ht Ht' Hip.
destruct (Nat.eq_dec (i + p)%nat 0%nat) as [Hz|Hnz].
- assert (i = 0%nat) as -> by lia. assert (p = 0%nat) as -> by lia.
  destruct (ofZ_normal (Z.of_nat t)) as (mt & et & [Nt _] & _); [lia|].
  unfold rawPercentage. rewrite Nt.
  change (add (ofZ (Z.of_nat 0)) (mul (ofZ (Z.of_nat 0)) half)) with (S754_zero false).
  change (div (S754_zero false) (S754_finite false mt et)) with (S754_zero false).
  change (mul (S754_zero false) (ofZ 100)) with (S754_zero false).
  change (toFixed2 (S754_zero false)) with 0. lia.
- destruct (rawPercentage_within i p t) as (m & e & -> & He & W); [lia..|].
  cbn [toFixed2]. destruct (Z.leb_spec 0 e) as [|_]; [lia|].
  apply (nearest_hundredth m e (2 * Z.of_nat i + Z.of_nat p) (Z.of_nat t)
           ((inject_Z (Z.of_nat i) + inject_Z (Z.of_nat p) * (1 # 2))
            / inject_Z (Z.of_nat t) * 100)%Q); [lia|lia|lia| |exact W].
  rewrite inject_Z_plus, inject_Z_mult. change (inject_Z 2) with (2 # 1)%Q.
  assert (0 < inject_Z (Z.of_nat t))%Q as Qt by (rewrite <- (Zlt_Qlt 0); lia).
  field. lra.
Qed.

(** The same, against the formula of the specification. *)
Lemma toFixed2_scoreFormula (i p t : nat) :
(0 < t)%nat -> Z.of_nat t < 2 ^ 32 -> (i + p <= t)%nat ->
let n := toFixed2 (rawPercentage i p t) in
0 <= n <= 10000 /\
(inject_Z n / 100 - (1 # 200) <= scoreFormula i p t
 /\ scoreFormula i p t <= inject_Z n / 100 + (1 # 200))%Q.
Proof.
intros Ht Ht' Hip n. pose proof (toFixed2_rawPercentage i p t Ht Ht' Hip) as H.
fold n in H. cbv zeta in H. destruct H as [H1 H2].
split; [nia|].
assert (0 < inject_Z (Z.of_nat t))%Q as Qt by (rewrite <- (Zlt_Qlt 0); lia).
assert (scoreFormula i p t * inject_Z (Z.of_nat t)
        == 50 * (2 * inject_Z (Z.of_nat i) + inject_Z (Z.of_nat p)))%Q as Hs.
{ unfold scoreFormula. field. lra. }
assert (10000 * (2 * Z.of_nat i + Z.of_nat p) + Z.of_nat t
        >= 2 * (n * Z.of_nat t)) as H1' by lia.
assert (10000 * (2 * Z.of_nat i + Z.of_nat p)
        <= 2 * (n * Z.of_nat t) + Z.of_nat t) as H2' by lia.
apply Z.ge_le in H1'. rewrite Zle_Qle in H1', H2'.
repeat first [rewrite inject_Z_plus in H1' | rewrite inject_Z_mult in H1'].
repeat first [rewrite inject_Z_plus in H2' | rewrite inject_Z_mult in H2'].
change (inject_Z 2) with (2 # 1)%Q in *. change (inject_Z 10000) with (10000 # 1)%Q in *.
set (s := scoreFormula i p t) in *.
split.
- apply (Qmult_le_r _ _ (inject_Z (Z.of_nat t))); [exact Qt|].
  assert ((inject_Z n / 100 - (1 # 200)) * inject_Z (Z.of_nat t)
          == (1 # 100) * (inject_Z n * inject_Z (Z.of_nat t))
             - (1 # 200) * inject_Z (Z.of_nat t))%Q as -> by field.
  lra.
- apply (Qmult_le_r _ _ (inject_Z (Z.of_nat t))); [exact Qt|].
  assert ((inject_Z n / 100 + (1 # 200)) * inject_Z (Z.of_nat t)
          == (1 # 100) * (inject_Z n * inject_Z (Z.of_nat t))
             + (1 # 200) * inject_Z (Z.of_nat t))%Q as -> by field.
  lra.
Qed.

(** [parseFloat] of the two-decimal text: the Number next to [n / 100]. *)
Lemma parseFloat2_within (n : Z) :
0 <= n < 2 ^ 53 -> within 1 (valueOf (parseFloat2 n)) (inject_Z n / 100).
Proof.
intros Hn. destruct (Z.eq_dec n 0) as [->|Hnz].
- cbn. unfold within. split; apply Qle_bool_imp_le; reflexivity.
- destruct (ofZ_normal n) as (m & e & N & E & _ & V); [lia|].
  destruct hundred_normal as [Nh Vh].
  destruct (div_within _ _ _ _ _ _ N Nh) as (m' & e' & _ & _ & W); [lia|].
  unfold parseFloat2. rewrite V, Vh in W. exact W.
Qed.

End Percentage.

(** *** The nearest hundredth *)

Section NearestHundredth.
#[local] Open Scope Q_scope.

Lemma Qfloor_quotient (a b : Z) : (0 < b)%Z -> Qfloor (inject_Z a / inject_Z b) = (a / b)%Z.
Proof.
  intros Hb.
  assert (inject_Z a / inject_Z b == a # Z.to_pos b) as ->.
  { rewrite (Qmake_Qdiv a (Z.to_pos b)). now rewrite Z2Pos.id. }
  unfold Qfloor. now rewrite Z2Pos.id.
Qed.

(** The score formula in hundredths, as a quotient of integers. *)
Lemma scoreFormula_hundredths (i p t : nat) :
  (0 < t)%nat ->
  scoreFormula i p t * 100
  == inject_Z (10000 * (2 * Z.of_nat i + Z.of_nat p)) / inject_Z (2 * Z.of_nat t).
Proof.
  intros Ht. unfold scoreFormula.
  rewrite !inject_Z_mult, !inject_Z_plus, !inject_Z_mult.
  change (inject_Z 10000) with 10000. change (inject_Z 2) with 2.
  assert (~ inject_Z (Z.of_nat t) == 0)
    by (change 0 with (inject_Z 0); rewrite inject_Z_injective; lia).
  field. assumption.
Qed.

Lemma roundHalfUp_hundredths (i p t : nat) :
  (0 < t)%nat ->
  roundHalfUp (scoreFormula i p t * 100)
  = ((10000 * (2 * Z.of_nat i + Z.of_nat p) + Z.of_nat t) / (2 * Z.of_nat t))%Z.
Proof.
  intros Ht. unfold roundHalfUp.
  rewrite <- (Qfloor_quotient _ (2 * Z.of_nat t)) by lia.
  apply Qfloor_comp.
  rewrite (scoreFormula_hundredths i p t Ht).
  rewrite !inject_Z_plus, !inject_Z_mult, !inject_Z_plus, !inject_Z_mult.
  change (inject_Z 10000) with 10000. change (inject_Z 2) with 2.
  assert (~ inject_Z (Z.of_nat t) == 0)
    by (change 0 with (inject_Z 0); rewrite inject_Z_injective; lia).
  field. assumption.
Qed.

Lemma isMidway_hundredths (i p t : nat) (n : Z) :
  (0 < t)%nat ->
  (10000 * (2 * Z.of_nat i + Z.of_nat p) = (2 * n + 1) * Z.of_nat t)%Z ->
  isMidway (scoreFormula i p t * 100).
Proof.
  intros Ht Heq. unfold isMidway.
  assert (~ inject_Z (Z.of_nat t) == 0) as Hne
    by (change 0 with (inject_Z 0); rewrite inject_Z_injective; lia).
  assert (scoreFormula i p t * 100 == inject_Z n + (1 # 2)) as Hx.
  { rewrite (scoreFormula_hundredths i p t Ht), Heq.
    rewrite !inject_Z_mult, !inject_Z_plus, !inject_Z_mult.
    change (inject_Z 2) with 2. change (inject_Z 1) with 1. field. assumption. }
  assert (Qfloor (scoreFormula i p t * 100) = n) as ->.
  { rewrite (Qfloor_comp _ _ Hx).
    assert (inject_Z n + (1 # 2) == inject_Z (2 * n + 1) / inject_Z 2) as ->
      by (rewrite inject_Z_plus, inject_Z_mult; change (inject_Z 2) with 2;
          change (inject_Z 1) with 1; field).
    rewrite Qfloor_quotient by lia.
    symmetry. apply Z.div_unique with (r := 1%Z); lia. }
  rewrite Hx. ring.
Qed.

(** An integer within half a unit of the formula in hundredths is the
    formula rounded to the nearest integer, or the integer below a
    midway value. *)
Lemma nearest_roundHalfUp (i p t : nat) (n : Z) :
  (0 < t)%nat ->
  ((2 * n - 1) * Z.of_nat t <= 10000 * (2 * Z.of_nat i + Z.of_nat p)
   <= (2 * n + 1) * Z.of_nat t)%Z ->
  n = roundHalfUp (scoreFormula i p t * 100) \/
  (isMidway (scoreFormula i p t * 100) /\
   n = (roundHalfUp (scoreFormula i p t * 100) - 1)%Z).
Proof.
  intros Ht [Hlo Hhi]. rewrite (roundHalfUp_hundredths i p t Ht).
  set (a := (10000 * (2 * Z.of_nat i + Z.of_nat p))%Z) in *.
  set (T := Z.of_nat t) in *.
  assert (0 < T)%Z as HT by (unfold T; lia).
  destruct (Z.eq_dec a ((2 * n + 1) * T)%Z) as [Heq|Hne].
  - right. split; [now apply isMidway_hundredths with (n := n)|].
    rewrite Heq. replace ((2 * n + 1) * T + T)%Z with ((n + 1) * (2 * T))%Z by ring.
    rewrite Z.div_mul by lia. lia.
  - left. apply Z.div_unique with (r := (a + T - n * (2 * T))%Z); lia.
Qed.

End NearestHundredth.

(** C1 (as amended).  For a stored document, [validateSSP] throws
    when the baseline of the document's tier does not resolve or has an
    entry that does not parse, and otherwise returns a report, leaving
    the directory as it was.  The report has the number of records as
    [totalControls] and, as [implementationPercentage], the Number [0]
    when there is no record and otherwise the Number next to [n / 100],
    where [n] is the score formula
    [100 * (implementedCount + 0.5 * partiallyImplementedCount) / totalControls]
    in hundredths, rounded to the nearest integer; only when the formula
    lies midway between two hundredths can [n] be the integer below
    instead, as the binary64 arithmetic decides.  The two counts are
    those of the records with status IMPLEMENTED and
    PARTIALLY_IMPLEMENTED: records with status ALTERNATIVE_IMPLEMENTATION
    or NOT_APPLICABLE are counted apart from them, in [totalControls]
    only.  Three records with statuses IMPLEMENTED, PARTIALLY_IMPLEMENTED
    and PLANNED give 50, and [missingControls] is empty when every
    normalized baseline identifier is stored.  The number of records is
    below [2^32], the bound of a JavaScript array. *)
Theorem validateSSP_percentage
    (getBaselineControls : string -> result (list string))
    (sspId : string) (st : gmap string SspService.SSP) (ssp : SspService.SSP) :
  st !! sspId = Some ssp ->
  Z.of_nat (length (SspService.controlImplementations ssp)) < 2 ^ 32 ->
  let recs := SspService.controlImplementations ssp in
  let implementedCount := countStatus "IMPLEMENTED" recs in
  let partiallyImplementedCount := countStatus "PARTIALLY_IMPLEMENTED" recs in
  let level := SspService.securityImpactLevel (SspService.systemCharacteristics ssp) in
  let score := scoreFormula implementedCount partiallyImplementedCount (length recs) in
  match SspService.validateSSP getBaselineControls sspId st with
  | (Throw e, st') =>
      st' = st /\
      (getBaselineControls level = Throw e \/
       exists baseline,
         getBaselineControls level = Ok baseline /\
         mapM SspService.normalizeControlId baseline = Throw e)
  | (Ok report, st') =>
      st' = st /\
      (exists baseline normalized,
         getBaselineControls level = Ok baseline /\
         mapM SspService.normalizeControlId baseline = Ok normalized /\
         ((forall c, In c normalized -> In c (storedIds ssp)) ->
          SspService.missingControls report = [])) /\
      SspService.totalControls report = length recs /\
      (implementedCount + partiallyImplementedCount
       + countStatus "ALTERNATIVE_IMPLEMENTATION" recs + countStatus "NOT_APPLICABLE" recs
       <= length recs)%nat /\
      (length recs = 0%nat -> SspService.implementationPercentage report = ofZ 0) /\
      (length recs <> 0%nat ->
       exists n : Z,
         0 <= n <= 10000 /\
         SspService.implementationPercentage report = SspService.parseFloat2 n /\
         within 1 (valueOf (SspService.implementationPercentage report)) (inject_Z n / 100) /\
         (inject_Z n / 100 - (1 # 200) <= score /\ score <= inject_Z n / 100 + (1 # 200))%Q /\
         (n = roundHalfUp (score * 100) \/
          (isMidway (score * 100) /\ n = roundHalfUp (score * 100) - 1))) /\
      (map SspService.status recs ≡ₚ ["IMPLEMENTED"; "PARTIALLY_IMPLEMENTED"; "PLANNED"] ->
       SspService.implementationPercentage report = ofZ 50)
  end.
Proof.
  intros Hdoc Hlen recs implementedCount partiallyImplementedCount level score.
  rewrite validateSSP_unfold, Hdoc. fold level.
  destruct (getBaselineControls level) as [baseline|e] eqn:Hb; [|now split; [|left]].
  destruct (mapM SspService.normalizeControlId baseline) as [normalized|e] eqn:Hn;
    [|split; [reflexivity|right; eauto]].
  cbv zeta. split; [reflexivity|].
  cbn [SspService.missingControls SspService.totalControls
       SspService.implementationPercentage].
  rewrite !countStatuses_lookup.
  change (default O (SspService.initialCounts !! "IMPLEMENTED")) with O.
  change (default O (SspService.initialCounts !! "PARTIALLY_IMPLEMENTED")) with O.
  rewrite !Nat.add_0_l.
  fold recs implementedCount partiallyImplementedCount.
  pose proof (countStatus_disjoint recs) as Hdis.
  fold implementedCount partiallyImplementedCount in Hdis.
  split; [|split; [reflexivity|split; [exact Hdis|split; [|split]]]].
  - exists baseline, normalized. split; [reflexivity|]. split; [exact Hn|].
    intros Hall.
    destruct (List.filter _ normalized) as [|c rest] eqn:Hf; [reflexivity|exfalso].
    assert (In c (List.filter (fun c => negb (includes (storedIds ssp) c)) normalized))
      as Hin by (rewrite Hf; left; reflexivity).
    apply filter_not_includes in Hin as [Hc Hnot]. exact (Hnot (Hall c Hc)).
  - intros ->. reflexivity.
  - intros Hpos. destruct (Nat.eqb_spec (length recs) 0) as [|_]; [contradiction|].
    assert (0 < length recs)%nat as Hpos' by lia.
    assert (implementedCount + partiallyImplementedCount <= length recs)%nat as Hsum by lia.
    pose proof (toFixed2_scoreFormula _ _ _ Hpos' Hlen Hsum) as [Hrange Hnear].
    pose proof (toFixed2_rawPercentage _ _ _ Hpos' Hlen Hsum) as Hbounds.
    cbv zeta in Hbounds.
    exists (SspService.toFixed2
              (SspService.rawPercentage implementedCount partiallyImplementedCount
                                        (length recs))).
    split; [exact Hrange|]. split; [reflexivity|].
    split; [apply parseFloat2_within; lia|]. split; [exact Hnear|].
    now apply nearest_roundHalfUp.
  - intros Hperm.
    assert (length recs = 3%nat) as ->
      by (rewrite <- (length_map SspService.status), Hperm; reflexivity).
    assert (implementedCount = 1%nat) as ->
      by (unfold implementedCount;
          rewrite countStatus_statuses, (filter_length_Permutation _ _ _ Hperm);
          reflexivity).
    assert (partiallyImplementedCount = 1%nat) as ->
      by (unfold partiallyImplementedCount;
          rewrite countStatus_statuses, (filter_length_Permutation _ _ _ Hperm);
          reflexivity).
    vm_compute. reflexivity.
Qed.

Lemma validateSSP_percentage_witness :
  let record id st := SspService.mkImplementation id st (Some "text") [] (Some "t1") in
  let doc := SspService.mkSSP "doc" "uuid"
               (SspService.mkMetadata "T" "t0" "1.0" "1.1.0")
               (SspService.mkCharacteristics "T" "D" "MODERATE" "operational" "oscal")
               [record "AC-1" "IMPLEMENTED"; record "AC-2" "PARTIALLY_IMPLEMENTED";
                seeded "si-4" "SI-4"] "t0" "t1" in
  exists report,
    SspService.validateSSP (fun _ => Ok ["ac-1"; "ac-2"; "si-4"]) "doc" {[ "doc" := doc ]}
    = (Ok report, {[ "doc" := doc ]}) /\
    SspService.totalControls report = 3%nat /\
    SspService.implementationPercentage report = ofZ 50 /\
    SspService.missingControls report = [].
Proof.
  intros record doc.
  pose proof (validateSSP_percentage (fun _ => Ok ["ac-1"; "ac-2"; "si-4"])
                "doc" {[ "doc" := doc ]} doc (lookup_singleton_eq _ _) eq_refl) as H.
  cbv zeta in H.
  destruct (SspService.validateSSP _ "doc" {[ "doc" := doc ]}) as [[report|e] st'] eqn:Hcall.
  - destruct H as (-> & (baseline & normalized & Hb & Hn & Hmissing) & Htotal & _ & _ & _ & H50).
    exists report. split; [reflexivity|]. split; [exact Htotal|]. split.
    + apply H50. reflexivity.
    + apply Hmissing. injection Hb as <-. vm_compute in Hn. injection Hn as <-.
      intros c Hc. vm_compute in Hc |- *. tauto.
  - exfalso. destruct H as (_ & [Hb | (baseline & Hb & Hn)]); [discriminate Hb|].
    injection Hb as <-. vm_compute in Hn. discriminate Hn.
Defined.

(** C1, as stated, fails where the score lies midway between two
    hundredths: 11 implemented and 1 partially implemented records out
    of 80 score 14.375 by the formula, the product computed in binary64
    is just below it, and the report says 14.37, which is 14.375 rounded
    by no rule; 1 implemented record out of 32 scores 3.125 and is
    reported as 3.13. *)
Lemma validateSSP_percentage_midway :
  let status k :=
    if (k <=? 11)%nat then "IMPLEMENTED"
    else if (k =? 12)%nat then "PARTIALLY_IMPLEMENTED" else "PLANNED" in
  let record k :=
    SspService.mkImplementation ("AC-" ++ decimal (Z.of_nat k)) (status k) None [] None in
  let doc := SspService.mkSSP "doc" "uuid"
               (SspService.mkMetadata "T" "t0" "1.0" "1.1.0")
               (SspService.mkCharacteristics "T" "D" "LOW" "operational" "oscal")
               (map record (seq 1 80)) "t0" "t1" in
  exists report,
    SspService.validateSSP (fun _ => Ok ["AC-1"]) "doc" {[ "doc" := doc ]}
    = (Ok report, {[ "doc" := doc ]}) /\
    SspService.totalControls report = 80%nat /\
    (scoreFormula 11 1 80 == 14375 # 1000)%Q /\
    roundHalfUp (scoreFormula 11 1 80 * 100) = 1438 /\
    SspService.implementationPercentage report = SspService.parseFloat2 1437 /\
    SspService.parseFloat2 1437 <> SspService.parseFloat2 1438 /\
    (scoreFormula 1 0 32 == 3125 # 1000)%Q /\
    SspService.toFixed2 (SspService.rawPercentage 1 0 32) = 313.
Proof.
  intros status record doc.
  eexists. split; [vm_compute; reflexivity|].
  split; [reflexivity|]. split; [reflexivity|]. split; [vm_compute; reflexivity|].
  split; [vm_compute; reflexivity|]. split; [vm_compute; discriminate|].
  split; [reflexivity|]. vm_compute. reflexivity.
Qed.

(** * Further properties *)

(** ** The identifier module: letter case and accepted texts *)


(** X1.  [parse] and [normalize] read the letters of their argument
    through [toUpperCase]: two texts with the same upper-cased form parse
    to the same record and normalize to the same text, and the lower-cased
    and upper-cased variants of a text are such texts. *)
Theorem parse_ignores_case (t u : string) :
  toUpperCase t = toUpperCase u ->
  (forall p, parse t = Ok p <-> parse u = Ok p) /\
  (forall format s, normalize t format = Ok s <-> normalize u format = Ok s) /\
  toUpperCase (toLowerCase t) = toUpperCase t /\
  toUpperCase (toUpperCase t) = toUpperCase t.
Proof.
  intros H.
  assert (forall t u, toUpperCase t = toUpperCase u ->
          forall format s, normalize t format = Ok s -> normalize u format = Ok s) as Hn.
  { clear. intros t u H format s. unfold normalize.
    destruct t as [|c t]; [discriminate|].
    destruct (parse (String c t)) as [p|] eqn:Hp; [|discriminate].
    rewrite (parse_upper _ _ _ H Hp).
    destruct u; [discriminate|]. trivial. }
  split; [|split; [|split]].
  - intros p. split; apply parse_upper; congruence.
  - intros format s. split; apply Hn; congruence.
  - apply toUpperCase_toLowerCase.
  - apply toUpperCase_idem.
Qed.

Lemma parse_ignores_case_witness :
  parse "Ac-2(1)" = Ok (parsedOf "AC" (IntFinite 2) (Some (IntFinite 1))) /\
  normalize "aC.2.1" "hyphen" = Ok "AC-2(1)".
Proof.
  pose proof (parse_ignores_case "ac-2(1)" "Ac-2(1)" eq_refl) as [Hp _].
  pose proof (parse_ignores_case "ac.2.1" "aC.2.1" eq_refl) as (_ & Hn & _).
  split.
  - apply Hp. vm_compute. reflexivity.
  - apply Hn. vm_compute. reflexivity.
Defined.

(** X2.  The texts that [parse] accepts for two letters [a], [b] and a
    non-empty run of digits [d]: the letters followed by a dot, by a hyphen,
    by white space or by nothing, and then the digits, all give the record
    of the upper-cased letters and the number [parseInt d], without
    enhancement; with a second run of digits [d2], the forms [ab.d.d2] and
    [ab-d(d2)] give the record with the enhancement [parseInt d2]. *)
Theorem parse_accepts_forms (a b : ascii) (d : string) :
  isLetter a = true -> isLetter b = true ->
  allDigits d = true -> d <> EmptyString ->
  let ab := String a (String b EmptyString) in
  let plain := parsedOf (toUpperCase ab) (parseInt d) None in
  (parse (ab ++ "." ++ d) = Ok plain /\
   parse (ab ++ "-" ++ d) = Ok plain /\
   parse (ab ++ d) = Ok plain /\
   forall w, allSpaces w = true -> w <> EmptyString -> parse (ab ++ w ++ d) = Ok plain) /\
  (forall d2, allDigits d2 = true -> d2 <> EmptyString ->
     let enhanced := parsedOf (toUpperCase ab) (parseInt d) (Some (parseInt d2)) in
     parse (ab ++ "." ++ d ++ "." ++ d2) = Ok enhanced /\
     parse (ab ++ "-" ++ d ++ "(" ++ d2 ++ ")") = Ok enhanced) /\
  parseInt (String "0" d) = parseInt d.
Proof.
  intros Ha%isLetter_toUpper Hb%isLetter_toUpper Hd Hne ab plain.
  unfold plain, ab. norm_append. cbn [toUpperCase].
  set (A := Char.toUpper a) in *. set (B := Char.toUpper b) in *.
  assert (forall r, toUpperCase r = r ->
          toUpperCase (String a (String b r)) = String A (String B r)) as Hup
    by (intros r Hr; cbn [toUpperCase]; now rewrite Hr).
  split; [split; [|split; [|split]]|split; [|apply parseInt_leading_zero]].
  - erewrite parse_dot_match; [|discriminate|].
    2:{ rewrite Hup; [now apply dotNotationRegex_plain|].
        rewrite toUpperCase_String. now rewrite (toUpperCase_digits d Hd). }
    reflexivity.
  - erewrite parse_hyphen_match; [|discriminate| |].
    2:{ rewrite Hup; [now apply dotNotationRegex_hyphen|].
        rewrite toUpperCase_String. now rewrite (toUpperCase_digits d Hd). }
    2:{ rewrite Hup; [now apply hyphenParensRegex_plain|].
        rewrite toUpperCase_String. now rewrite (toUpperCase_digits d Hd). }
    reflexivity.
  - destruct (regexes_noSep A B d Ha Hb Hd Hne) as (H1 & H2 & H3 & H4 & H5).
    unfold parse. cbn [toUpperCase]. fold A B. rewrite (toUpperCase_digits d Hd).
    rewrite H1, H2, H3, H4, H5. reflexivity.
  - intros w Hw Hwne.
    destruct (regexes_space A B d Ha Hb Hd Hne w Hw Hwne) as (H1 & H2 & H3 & H4).
    norm_append. unfold parse. cbn [toUpperCase]. fold A B.
    rewrite toUpperCase_app, (toUpperCase_spaces w Hw), (toUpperCase_digits d Hd).
    rewrite H1, H2, H3, H4. reflexivity.
  - intros d2 Hd2 Hne2. norm_append.
    assert (toUpperCase (d ++ String "." d2) = d ++ String "." d2) as U1.
    { apply toUpperCase_canonical_tail; [assumption|].
      rewrite toUpperCase_String. now rewrite (toUpperCase_digits d2 Hd2). }
    assert (toUpperCase (d ++ String "(" (d2 ++ ")")) = d ++ String "(" (d2 ++ ")")) as U2.
    { apply toUpperCase_canonical_tail; [assumption|].
      rewrite toUpperCase_String.
      now rewrite (toUpperCase_canonical_tail d2 ")" Hd2 eq_refl). }
    split.
    + erewrite parse_dot_match; [|discriminate|].
      2:{ rewrite Hup; [now apply dotNotationRegex_enh|].
          rewrite toUpperCase_String. now rewrite U1. }
      cbn [group1 group2 group3]. now rewrite (enhancementOf_digits d2 Hne2).
    + erewrite parse_hyphen_match; [|discriminate| |].
      2:{ rewrite Hup; [now apply dotNotationRegex_hyphen|].
          rewrite toUpperCase_String. now rewrite U2. }
      2:{ rewrite Hup; [now apply hyphenParensRegex_enh|].
          rewrite toUpperCase_String. now rewrite U2. }
      cbn [group1 group2 group3]. now rewrite (enhancementOf_digits d2 Hne2).
Qed.

Lemma parse_accepts_forms_witness :
  parse "ac 007" = Ok (parsedOf "AC" (IntFinite 7) None) /\
  parse "ac.007.01" = Ok (parsedOf "AC" (IntFinite 7) (Some (IntFinite 1))).
Proof.
  pose proof (parse_accepts_forms "a" "c" "007" eq_refl eq_refl eq_refl
                ltac:(discriminate)) as [(_ & _ & _ & Hs) [He _]].
  split.
  - exact (Hs " " eq_refl ltac:(discriminate)).
  - exact (proj1 (He "01" eq_refl ltac:(discriminate))).
Defined.

(** X3.  [parse] accepts nothing else.  The upper-cased form of an
    accepted text is the family of the record (two capital letters)
    followed by a run of digits that [parseInt] reads as the number: with
    a dot, a hyphen, white space or nothing in between when the record has
    no enhancement, and as [F.d.d2] or [F-d(d2)], with [parseInt d2] the
    enhancement, when it has one.  So there is no sign, no surrounding
    white space and no enhancement after white space or after no
    separator. *)
Theorem parse_accepts_only_forms (t : string) (p : ParsedControl) :
  parse t = Ok p ->
  isFamily (family p) = true /\
  exists d, allDigits d = true /\ d <> EmptyString /\ number p = parseInt d /\
    match enhancement p with
    | None =>
        exists sep, toUpperCase t = family p ++ sep ++ d /\
          (sep = "." \/ sep = "-" \/ sep = "" \/
           (sep <> EmptyString /\ allSpaces sep = true))
    | Some e =>
        exists d2, allDigits d2 = true /\ d2 <> EmptyString /\ e = parseInt d2 /\
          (toUpperCase t = family p ++ "." ++ d ++ "." ++ d2 \/
           toUpperCase t = family p ++ "-" ++ d ++ "(" ++ d2 ++ ")")
    end.
Proof.
  intros (m & -> & H)%parse_shape.
  cbn [family number enhancement parsedOf].
  assert (forall sep, plainForm (toUpperCase t) m sep ->
            (sep = "." \/ sep = "-" \/ sep = "" \/
             (sep <> EmptyString /\ allSpaces sep = true)) ->
            isFamily (group1 m) = true /\
            exists d, allDigits d = true /\ d <> EmptyString /\
              parseInt (group2 m) = parseInt d /\
              match enhancementOf (group3 m) with
              | None =>
                  exists sep, toUpperCase t = group1 m ++ sep ++ d /\
                    (sep = "." \/ sep = "-" \/ sep = "" \/
                     (sep <> EmptyString /\ allSpaces sep = true))
              | Some e =>
                  exists d2, allDigits d2 = true /\ d2 <> EmptyString /\ e = parseInt d2 /\
                    (toUpperCase t = group1 m ++ "." ++ d ++ "." ++ d2 \/
                     toUpperCase t = group1 m ++ "-" ++ d ++ "(" ++ d2 ++ ")")
              end) as Hplain.
  { intros sep (Hf & Hd & Hne & -> & Ht) Hsep. split; [assumption|].
    exists (group2 m). repeat split; auto. cbn. eauto. }
  assert (forall s1 s2 cl, enhancedForm (toUpperCase t) m s1 s2 cl ->
            (s1 = "." /\ s2 = "." /\ cl = "") \/ (s1 = "-" /\ s2 = "(" /\ cl = ")") ->
            isFamily (group1 m) = true /\
            exists d, allDigits d = true /\ d <> EmptyString /\
              parseInt (group2 m) = parseInt d /\
              match enhancementOf (group3 m) with
              | None =>
                  exists sep, toUpperCase t = group1 m ++ sep ++ d /\
                    (sep = "." \/ sep = "-" \/ sep = "" \/
                     (sep <> EmptyString /\ allSpaces sep = true))
              | Some e =>
                  exists d2, allDigits d2 = true /\ d2 <> EmptyString /\ e = parseInt d2 /\
                    (toUpperCase t = group1 m ++ "." ++ d ++ "." ++ d2 \/
                     toUpperCase t = group1 m ++ "-" ++ d ++ "(" ++ d2 ++ ")")
              end) as Henh.
  { intros s1 s2 cl (Hf & Hd & Hne & d2 & -> & Hd2 & Hne2 & Ht) Hs. split; [assumption|].
    exists (group2 m). repeat split; auto.
    rewrite (enhancementOf_digits d2 Hne2).
    exists d2. repeat split; auto.
    destruct Hs as [(-> & -> & ->)|(-> & -> & ->)]; [left|right]; [|exact Ht].
    rewrite Ht. now rewrite append_Empty_r. }
  destruct H as [H|[H|[H|[H|[(w & Hw & Hwne & H)|H]]]]].
  - apply (Hplain _ H). auto.
  - apply (Henh _ _ _ H). auto.
  - apply (Hplain _ H). auto.
  - apply (Henh _ _ _ H). auto.
  - apply (Hplain _ H). auto.
  - apply (Hplain _ H). auto.
Qed.

Lemma parse_accepts_only_forms_witness :
  exists d, allDigits d = true /\ d <> EmptyString /\ IntFinite 2 = parseInt d /\
    exists d2, allDigits d2 = true /\ d2 <> EmptyString /\ IntFinite 1 = parseInt d2 /\
      (toUpperCase "ac-2(1)" = "AC" ++ "." ++ d ++ "." ++ d2 \/
       toUpperCase "ac-2(1)" = "AC" ++ "-" ++ d ++ "(" ++ d2 ++ ")").
Proof.
  exact (proj2 (parse_accepts_only_forms "ac-2(1)"
                  (parsedOf "AC" (IntFinite 2) (Some (IntFinite 1)))
                  ltac:(vm_compute; reflexivity))).
Defined.

(** ** The identifier module: the accessors *)

Section Accessors.

Lemma append_length (s t : string) :
  String.length (s ++ t) = (String.length s + String.length t)%nat.
Proof. induction s as [|c s IH]; [reflexivity|]. rewrite append_String. cbn. now rewrite IH. Qed.

Lemma append_nonempty_neq (s t : string) : t <> EmptyString -> s ++ t <> s.
Proof.
  intros Ht H. apply (f_equal String.length) in H. rewrite append_length in H.
  destruct t; [contradiction|]. cbn in H. lia.
Qed.

Lemma toUpperCase_substring (n : nat) (s : string) :
  toUpperCase (String.substring 0 n s) = String.substring 0 n (toUpperCase s).
Proof.
  revert s. induction n as [|n IH]; intros [|c s]; cbn; try reflexivity.
  now rewrite IH.
Qed.

Lemma substring_family (f r : string) :
  isFamily f = true -> String.substring 0 2 (f ++ r) = f.
Proof.
  destruct f as [|a [|b [|]]]; try discriminate. intros _.
  rewrite !append_String, append_Empty. cbn. now destruct r.
Qed.

End Accessors.

(** X4.  [getBaseControl] removes the enhancement.  For a text that
    parses, with a number below [2^53], the result is the family and the
    number joined by a hyphen; that text parses to the same family and
    number without enhancement, so it is its own base control and
    [hasEnhancement] is false on it; [hasEnhancement] is false on the
    original text exactly when its normalized form is the base control;
    and [compareControlIds] puts the base control at or before the text:
    equal when the text has no enhancement, before it otherwise. *)
Theorem getBaseControl_strips_enhancement (t : string) (p : ParsedControl) :
  parse t = Ok p ->
  isSafeInteger (number p) = true ->
  let base := family p ++ "-" ++ toString (number p) in
  getBaseControl t = Ok base /\
  parse base = Ok (parsedOf (family p) (number p) None) /\
  getBaseControl base = Ok base /\
  hasEnhancement base = Ok false /\
  getFamily base = getFamily t /\
  (hasEnhancement t = Ok false <-> normalize t "hyphen" = Ok base) /\
  compareControlIds base t
  = Ok (match enhancement p with None => 0 | Some _ => -1 end).
Proof.
  intros Hp Hn base.
  destruct (parse_inv t p Hp) as [Hf Hrec].
  destruct (parse_renderings (family p) (number p) None Hf Hn eq_refl) as [_ Hb].
  cbv zeta in Hb. unfold hyphenated in Hb at 1. rewrite append_Empty_r in Hb.
  fold base in Hb. fold (parsedOf (family p) (number p) None) in Hb.
  assert (base <> EmptyString) as Hne.
  { unfold base. destruct (family p); [discriminate Hf|]. discriminate. }
  assert (t <> EmptyString) as Hte by (intros ->; discriminate Hp).
  split; [|split; [|split; [|split; [|split; [|split]]]]].
  - unfold getBaseControl. destruct t; [contradiction|]. now rewrite Hp.
  - exact Hb.
  - unfold getBaseControl. destruct base eqn:E; [contradiction|]. rewrite Hb.
    cbn [bind family number parsedOf]. exact (f_equal Ok E).
  - unfold hasEnhancement. destruct base eqn:E; [contradiction|]. rewrite Hb. reflexivity.
  - unfold getFamily. destruct base eqn:E; [contradiction|]. rewrite Hb.
    destruct t; [contradiction|]. now rewrite Hp.
  - unfold hasEnhancement, normalize. destruct t; [contradiction|]. rewrite Hp.
    cbn [bind String.eqb Ascii.eqb Bool.eqb]. rewrite Hrec. cbn [enhancement mcp].
    unfold hyphenated. fold base.
    destruct (enhancement p) as [e|].
    + split; [discriminate|]. intros [= H]. exfalso.
      revert H. apply append_nonempty_neq. discriminate.
    + rewrite append_Empty_r. split; reflexivity.
  - rewrite (compareControlIds_spec base t _ p Hb Hp).
    unfold identifierCompare. cbn [family number enhancement parsedOf].
    rewrite string_compare_refl, (proj2 (compareInt_eq _ _) eq_refl).
    destruct (enhancement p); reflexivity.
Qed.

Lemma getBaseControl_strips_enhancement_witness :
  getBaseControl "ac.2.1" = Ok "AC-2" /\
  compareControlIds "AC-2" "ac.2.1" = Ok (-1).
Proof.
  pose proof (getBaseControl_strips_enhancement "ac.2.1"
                (parsedOf "AC" (IntFinite 2) (Some (IntFinite 1)))
                ltac:(vm_compute; reflexivity) eq_refl) as (H1 & _ & _ & _ & _ & _ & H7).
  split; [exact H1 | exact H7].
Defined.

(** X5.  [getFamily] returns the first two characters of its argument,
    upper-cased, and they are two capital letters; and [getFamily],
    [hasEnhancement], [getBaseControl] and [normalize] throw exactly
    when [parse] throws, with the error of [parse]. *)
Theorem getFamily_first_two_letters (t : string) :
  (forall f, getFamily t = Ok f ->
     f = toUpperCase (String.substring 0 2 t) /\ isFamily f = true) /\
  (forall e, parse t = Throw e <-> getFamily t = Throw e) /\
  (forall e, parse t = Throw e <-> hasEnhancement t = Throw e) /\
  (forall e, parse t = Throw e <-> getBaseControl t = Throw e) /\
  (forall e format, parse t = Throw e <-> normalize t format = Throw e).
Proof.
  split; [|repeat split].
  - intros f. unfold getFamily. destruct t as [|c t]; [discriminate|].
    destruct (parse (String c t)) as [p|] eqn:Hp; [|discriminate].
    cbn [bind]. intros [= <-].
    destruct (parse_inv _ _ Hp) as [Hf _]. split; [|assumption].
    destruct (parse_family_prefix _ _ Hp) as [r Hr].
    rewrite toUpperCase_substring, Hr. symmetry. now apply substring_family.
  - unfold getFamily. destruct t; [now intros [= <-]|]. destruct (parse _); cbn; [discriminate|now intros [= <-]].
  - unfold getFamily. destruct t; [now intros [= <-]|]. destruct (parse _); cbn; [discriminate|now intros [= <-]].
  - unfold hasEnhancement. destruct t; [now intros [= <-]|].
    destruct (parse _); cbn; [discriminate|now intros [= <-]].
  - unfold hasEnhancement. destruct t; [now intros [= <-]|].
    destruct (parse _); cbn; [discriminate|now intros [= <-]].
  - unfold getBaseControl. destruct t; [now intros [= <-]|].
    destruct (parse _); cbn; [discriminate|now intros [= <-]].
  - unfold getBaseControl. destruct t; [now intros [= <-]|].
    destruct (parse _); cbn; [discriminate|now intros [= <-]].
  - unfold normalize. destruct t; [now intros [= <-]|]. destruct (parse _); cbn; [discriminate|now intros [= <-]].
  - unfold normalize. destruct t; [now intros [= <-]|].
    destruct (parse _); cbn; [destruct (_ =? _)%string; discriminate|now intros [= <-]].
Qed.

(** ** The document service: reading records *)

Section Reading.
Import SspService.

(** [getControlImplementation], case by case. *)
Lemma getControlImplementation_unfold (sspId controlId : string) (st : gmap string SSP) :
  getControlImplementation sspId controlId st =
  match st !! sspId with
  | None => (Throw (SSPNotFound sspId), st)
  | Some ssp =>
      match normalizeControlId controlId with
      | Throw e => (Throw e, st)
      | Ok n =>
          match List.find (fun impl => String.eqb (SspService.controlId impl) n)
                          (controlImplementations ssp) with
          | Some implementation => (Ok implementation, st)
          | None => (Throw (ControlImplementationNotFound n), st)
          end
      end
  end.
Proof.
  unfold getControlImplementation, iobind. rewrite getSSP_lookup.
  destruct (st !! sspId) as [ssp|]; [|reflexivity].
  unfold lift. destruct (normalizeControlId controlId) as [n|e]; [|reflexivity].
  destruct (List.find _ _); reflexivity.
Qed.

Lemma listControlImplementations_unfold (sspId : string) (status : option string)
                                        (st : gmap string SSP) :
  listControlImplementations sspId status st =
  match st !! sspId with
  | None => (Throw (SSPNotFound sspId), st)
  | Some ssp =>
      (Ok match status with
          | Some (String _ _ as wanted) =>
              List.filter (fun impl => String.eqb (SspService.status impl) wanted)
                          (controlImplementations ssp)
          | _ => controlImplementations ssp
          end, st)
  end.
Proof.
  unfold listControlImplementations, iobind. rewrite getSSP_lookup.
  destruct (st !! sspId) as [ssp|]; [|reflexivity].
  destruct status as [[|c s]|]; reflexivity.
Qed.

(** The first record that satisfies a test, by position. *)
Lemma find_first {A} (p : A -> bool) (l : list A) :
  match List.find p l with
  | Some x =>
      exists i, l !! i = Some x /\ p x = true /\
                forall j y, (j < i)%nat -> l !! j = Some y -> p y = false
  | None => forall y, In y l -> p y = false
  end.
Proof.
  induction l as [|a l IH]; cbn; [tauto|].
  destruct (p a) eqn:Hp.
  - exists O. repeat split; auto. intros j y Hj. lia.
  - destruct (List.find p l) as [x|].
    + destruct IH as (i & Hi & Hx & Hbefore). exists (S i). repeat split; auto.
      intros [|j] y Hj; cbn; [now intros [= <-]|]. apply Hbefore. lia.
    + intros y [<-|Hy]; auto.
Qed.

(** An upsert under one id leaves the search for another id as it was. *)
Lemma upsert_find_other (n m : string) (r : ControlImplementation)
                        (l : list ControlImplementation) :
  controlId r = n -> m <> n ->
  List.find (fun impl => String.eqb (controlId impl) m) (upsert n r l)
  = List.find (fun impl => String.eqb (controlId impl) m) l.
Proof.
  intros Hr Hmn. unfold upsert.
  assert (String.eqb (controlId r) m = false) as Hrm
    by (rewrite Hr; apply String.eqb_neq; congruence).
  destruct (findIndex _ l) as [i|] eqn:Hi.
  - revert i Hi. induction l as [|a l IH]; intros i; cbn; [discriminate|].
    destruct (String.eqb (controlId a) n) eqn:Ha.
    + intros [= <-]. cbn. rewrite Hrm.
      apply String.eqb_eq in Ha.
      replace (String.eqb (controlId a) m) with false; [reflexivity|].
      symmetry. apply String.eqb_neq. congruence.
    + destruct (findIndex _ l) as [k|]; [|discriminate].
      intros [= <-]. change (<[S k:=r]> (a :: l)) with (a :: <[k:=r]> l).
      cbn [List.find]. now rewrite (IH k eq_refl).
  - clear Hi. induction l as [|a l IH]; cbn; [now rewrite Hrm|].
    now rewrite IH.
Qed.

End Reading.

(** X6.  What [getControlImplementation] finds after a successful
    [addControlImplementation]: asked with any text of the identifier
    that was added, it returns the record that the call returned; asked
    for an id with another normalized form, or in another document, it
    answers as it did before the call.  The directory is not written. *)
Theorem getControlImplementation_after_add
    (env : SspService.UpdateEnv) (sspId controlId implementationStatus : string)
    (description : option string) (responsibleRoles : option (list string))
    (st st1 : gmap string SspService.SSP) (impl : SspService.ControlImplementation) :
  SspService.addControlImplementation env sspId controlId implementationStatus
    description responsibleRoles st = (Ok impl, st1) ->
  (forall other p q,
     parse controlId = Ok p -> parse other = Ok q -> sameIdentifier p q ->
     SspService.getControlImplementation sspId other st1 = (Ok impl, st1)) /\
  (forall other n,
     SspService.normalizeControlId other = Ok n -> n <> SspService.controlId impl ->
     SspService.getControlImplementation sspId other st1
     = (fst (SspService.getControlImplementation sspId other st), st1)) /\
  (forall otherDoc other,
     otherDoc <> sspId ->
     SspService.getControlImplementation otherDoc other st1
     = (fst (SspService.getControlImplementation otherDoc other st), st1)).
Proof.
  rewrite addControlImplementation_unfold.
  destruct (st !! sspId) as [ssp|] eqn:Hdoc; [|discriminate].
  destruct (SspService.normalizeControlId controlId) as [n|e] eqn:Hn; [|discriminate].
  destruct (includes SspService.validStatuses implementationStatus); [|discriminate].
  cbv zeta. intros [= <- <-]. cbn [SspService.controlId].
  split; [|split].
  - intros other p q Hp Hq Hsame.
    rewrite getControlImplementation_unfold, lookup_insert_eq.
    rewrite (normalizeControlId_parse _ _ Hq).
    rewrite <- (sameIdentifier_mcp _ _ _ _ Hp Hq Hsame).
    rewrite (normalizeControlId_parse _ _ Hp) in Hn. injection Hn as ->.
    cbn [SspService.controlImplementations].
    now rewrite upsert_find.
  - intros other m Hm Hne.
    rewrite !getControlImplementation_unfold, lookup_insert_eq, Hdoc, Hm.
    cbn [SspService.controlImplementations].
    rewrite upsert_find_other by auto.
    now destruct (List.find _ _).
  - intros otherDoc other Hne.
    rewrite !getControlImplementation_unfold, lookup_insert_ne by congruence.
    destruct (st !! otherDoc) as [doc|]; [|reflexivity].
    destruct (SspService.normalizeControlId other); [|reflexivity].
    now destruct (List.find _ _).
Qed.

Lemma getControlImplementation_after_add_witness :
  let doc := SspService.mkSSP "doc" "uuid"
               (SspService.mkMetadata "T" "t0" "1.0" "1.1.0")
               (SspService.mkCharacteristics "T" "D" "LOW" "operational" "fedramp")
               [seeded "AC-1" "AC-1"] "t0" "t0" in
  exists impl st1,
    SspService.addControlImplementation (SspService.mkUpdateEnv "t1" "t2")
      "doc" "ac.2" "IMPLEMENTED" (Some "done") None {[ "doc" := doc ]} = (Ok impl, st1) /\
    SspService.getControlImplementation "doc" "AC-2" st1 = (Ok impl, st1) /\
    SspService.getControlImplementation "doc" "ac1" st1 = (Ok (seeded "AC-1" "AC-1"), st1).
Proof.
  intros doc.
  pose (call := SspService.addControlImplementation (SspService.mkUpdateEnv "t1" "t2")
      "doc" "ac.2" "IMPLEMENTED" (Some "done") None {[ "doc" := doc ]}).
  assert (call = (fst call, snd call)) as Hcall by apply surjective_pairing.
  assert (fst call = Ok (SspService.mkImplementation "AC-2" "IMPLEMENTED" (Some "done") []
                           (Some "t1"))) as Hfst by (vm_compute; reflexivity).
  rewrite Hfst in Hcall.
  destruct (getControlImplementation_after_add (SspService.mkUpdateEnv "t1" "t2")
              "doc" "ac.2" "IMPLEMENTED" (Some "done") None {[ "doc" := doc ]}
              (snd call) _ Hcall) as (H1 & H2 & _).
  eexists. exists (snd call). split; [exact Hcall|]. split.
  - apply (H1 "AC-2" (parsedOf "AC" (IntFinite 2) None) (parsedOf "AC" (IntFinite 2) None));
      [vm_compute; reflexivity | vm_compute; reflexivity | now repeat split].
  - rewrite (H2 "ac1" "AC-1"); [|vm_compute; reflexivity|discriminate].
    f_equal.
Defined.

(** X7.  [getControlImplementation] looks for the document first, then
    parses the id, then searches the records for the normalized id as
    stored text.  Without the document it throws the not-found error of
    the document, whatever the id; with the document and an id that does
    not parse it throws the error of [parse]; with an id that parses it
    returns the first record whose stored id is the normalized id, and
    throws [ControlImplementationNotFound] of the normalized id exactly
    when no record stores it.  In every case the directory is left as it
    was. *)
Theorem getControlImplementation_spec (sspId controlId : string)
                                      (st : gmap string SspService.SSP) :
  (st !! sspId = None ->
   SspService.getControlImplementation sspId controlId st = (Throw (SSPNotFound sspId), st)) /\
  (forall doc e,
     st !! sspId = Some doc -> parse controlId = Throw e ->
     SspService.getControlImplementation sspId controlId st = (Throw e, st)) /\
  (forall doc p,
     st !! sspId = Some doc -> parse controlId = Ok p ->
     (~ In (mcp p) (storedIds doc) <->
      SspService.getControlImplementation sspId controlId st
      = (Throw (ControlImplementationNotFound (mcp p)), st)) /\
     (In (mcp p) (storedIds doc) ->
      exists r i,
        SspService.getControlImplementation sspId controlId st = (Ok r, st) /\
        SspService.controlImplementations doc !! i = Some r /\
        SspService.controlId r = mcp p /\
        forall j r', (j < i)%nat ->
          SspService.controlImplementations doc !! j = Some r' ->
          SspService.controlId r' <> mcp p)) /\
  snd (SspService.getControlImplementation sspId controlId st) = st.
Proof.
  rewrite getControlImplementation_unfold.
  split; [|split; [|split]].
  - now intros ->.
  - intros doc e -> Hp.
    assert (SspService.normalizeControlId controlId = Throw e) as ->; [|reflexivity].
    unfold SspService.normalizeControlId, normalize.
    destruct controlId; [cbn in Hp; congruence|]. now rewrite Hp.
  - intros doc p -> Hp. rewrite (normalizeControlId_parse _ _ Hp).
    pose proof (find_first
                  (fun impl => String.eqb (SspService.controlId impl) (mcp p))
                  (SspService.controlImplementations doc)) as Hfind.
    destruct (List.find _ _) as [r|].
    + destruct Hfind as (i & Hi & Hr%String.eqb_eq & Hbefore).
      assert (In (mcp p) (storedIds doc)) as Hin.
      { unfold storedIds. apply in_map_iff. exists r. split; [assumption|].
        apply list_elem_of_In. eapply list_elem_of_lookup_2. eassumption. }
      split; [split; [contradiction|discriminate]|].
      intros _. exists r, i. repeat split; auto.
      intros j r' Hj Hj'. apply String.eqb_neq. eauto.
    + assert (~ In (mcp p) (storedIds doc)) as Hnot.
      { unfold storedIds. intros (r & Hr & Hin)%in_map_iff.
        specialize (Hfind r Hin). rewrite Hr, String.eqb_refl in Hfind. discriminate. }
      split; [split; auto|contradiction].
  - destruct (st !! sspId) as [doc|]; [|reflexivity].
    destruct (SspService.normalizeControlId controlId); [|reflexivity].
    now destruct (List.find _ _).
Qed.

(** ** The document service: listing and counting *)

Section Listing.
Import SspService.

Lemma initialCounts_default (status : string) :
  default O (initialCounts !! status) = O.
Proof.
  unfold initialCounts.
  destruct (decide (status = "IMPLEMENTED")) as [->|?];
    [now rewrite lookup_insert_eq|rewrite lookup_insert_ne by congruence].
  destruct (decide (status = "PARTIALLY_IMPLEMENTED")) as [->|?];
    [now rewrite lookup_insert_eq|rewrite lookup_insert_ne by congruence].
  destruct (decide (status = "PLANNED")) as [->|?];
    [now rewrite lookup_insert_eq|rewrite lookup_insert_ne by congruence].
  destruct (decide (status = "ALTERNATIVE_IMPLEMENTATION")) as [->|?];
    [now rewrite lookup_insert_eq|rewrite lookup_insert_ne by congruence].
  destruct (decide (status = "NOT_APPLICABLE")) as [->|?];
    [now rewrite lookup_insert_eq|rewrite lookup_insert_ne by congruence].
  now rewrite lookup_empty.
Qed.

Lemma reportedCount_countStatus (status : string) (recs : list ControlImplementation) :
  default O (countStatuses recs !! status) = countStatus status recs.
Proof. now rewrite countStatuses_lookup, initialCounts_default. Qed.

(** Records with recognised statuses fall into the five classes. *)
Lemma countStatus_partition (recs : list ControlImplementation) :
  Forall (fun r => In (SspService.status r) validStatuses) recs ->
  (countStatus "IMPLEMENTED" recs + countStatus "PARTIALLY_IMPLEMENTED" recs
   + countStatus "PLANNED" recs + countStatus "ALTERNATIVE_IMPLEMENTATION" recs
   + countStatus "NOT_APPLICABLE" recs = length recs)%nat.
Proof.
  unfold countStatus. induction 1 as [|r recs Hr _ IH]; [reflexivity|].
  cbn [List.filter length].
  cbn in Hr. destruct Hr as [<-|[<-|[<-|[<-|[<-|[]]]]]]; cbn; lia.
Qed.

End Listing.

Section ListingFacts.
Import SspService.

Lemma filter_sublist {A} (f : A -> bool) (l : list A) : sublist (List.filter f l) l.
Proof.
  induction l as [|a l IH]; cbn; [constructor|].
  destruct (f a); now constructor.
Qed.

Lemma Forall_upsert (P : ControlImplementation -> Prop) (n : string)
                    (r : ControlImplementation) (l : list ControlImplementation) :
  Forall P l -> P r -> Forall P (upsert n r l).
Proof.
  intros Hl Hr. unfold upsert. destruct (findIndex _ l).
  - now apply Forall_insert.
  - apply Forall_app. split; [assumption|]. now constructor.
Qed.

Lemma includes_validStatuses (status : string) :
  includes validStatuses status = true -> In status validStatuses.
Proof. apply includes_In. Qed.

(** No record counts: the percentage computed is the Number zero. *)
Lemma rawPercentage_none (t : nat) :
  0 < Z.of_nat t < 2 ^ 32 ->
  parseFloat2 (toFixed2 (rawPercentage 0 0 t)) = ofZ 0.
Proof.
  intros Ht.
  destruct (ofZ_normal (Z.of_nat t)) as (mt & et & [Nt _] & _); [lia|].
  unfold rawPercentage. rewrite Nt.
  change (add (ofZ (Z.of_nat 0)) (mul (ofZ (Z.of_nat 0)) half)) with (S754_zero false).
  change (div (S754_zero false) (S754_finite false mt et)) with (S754_zero false).
  reflexivity.
Qed.

Lemma seeded_ids (baseline ids : list string) :
  length baseline = length ids -> map controlId (zip_with seeded baseline ids) = ids.
Proof.
  revert ids. induction baseline as [|raw l IH]; intros [|n ns]; cbn; try discriminate.
  - reflexivity.
  - intros [= H]. now rewrite IH.
Qed.

Lemma seeded_statuses (wanted : string) (baseline ids : list string) :
  countStatus wanted (zip_with seeded baseline ids)
  = if String.eqb "PLANNED" wanted then length (zip_with seeded baseline ids) else O.
Proof.
  unfold countStatus.
  revert ids. induction baseline as [|raw l IH]; intros [|n ns]; cbn [zip_with List.filter];
    try (now destruct (String.eqb _ _)).
  change (status (seeded raw n)) with "PLANNED".
  destruct (String.eqb "PLANNED" wanted); cbn [length]; now rewrite IH.
Qed.

End ListingFacts.

(** X8.  [listControlImplementations] without a status, or with the
    empty status, returns all records of the document; with a status it
    returns the records that carry it, in their stored order.  For each
    of the five recognised statuses the number of records returned is the
    count that [validateSSP] reports under that status.  Without the
    document the call throws its not-found error, and the directory is
    never written. *)
Theorem listControlImplementations_filters
    (getBaselineControls : string -> result (list string))
    (sspId : string) (st : gmap string SspService.SSP) :
  (st !! sspId = None ->
   forall status,
     SspService.listControlImplementations sspId status st
     = (Throw (SSPNotFound sspId), st)) /\
  (forall doc,
     st !! sspId = Some doc ->
     SspService.listControlImplementations sspId None st
     = (Ok (SspService.controlImplementations doc), st) /\
     SspService.listControlImplementations sspId (Some "") st
     = (Ok (SspService.controlImplementations doc), st) /\
     forall status, status <> "" ->
       exists found,
         SspService.listControlImplementations sspId (Some status) st = (Ok found, st) /\
         (forall r, In r found <->
                    In r (SspService.controlImplementations doc) /\
                    SspService.status r = status) /\
         sublist found (SspService.controlImplementations doc) /\
         (In status SspService.validStatuses ->
          forall report,
            fst (SspService.validateSSP getBaselineControls sspId st) = Ok report ->
            reportedCount report status = length found)).
Proof.
  split.
  - intros Hnone status. now rewrite listControlImplementations_unfold, Hnone.
  - intros doc Hdoc. rewrite !listControlImplementations_unfold, Hdoc.
    split; [reflexivity|]. split; [reflexivity|].
    intros status Hne. rewrite listControlImplementations_unfold, Hdoc.
    destruct status as [|c s]; [contradiction|].
    eexists. split; [reflexivity|]. split; [|split].
    + intros r. rewrite filter_In, String.eqb_eq. tauto.
    + apply filter_sublist.
    + intros _ report. rewrite validateSSP_unfold, Hdoc.
      destruct (getBaselineControls _); [|discriminate].
      destruct (mapM _ _); [|discriminate].
      cbv zeta. intros [= <-]. unfold reportedCount.
      cbn [SspService.implementationByStatus].
      apply reportedCount_countStatus.
Qed.

(** X9.  The records that the service writes are well formed: a
    recognised status and an id that is the normalized form of a text that
    parses.  [createSSP] and [addControlImplementation] keep a directory
    of such records such a directory, whatever they return; and on a
    document of such records the five counts that [validateSSP] reports
    add up to [totalControls]. *)
Theorem wellFormedStore_preserved
    (getBaselineControls : string -> result (list string))
    (cenv : SspService.CreateEnv) (env : SspService.UpdateEnv)
    (st : gmap string SspService.SSP) :
  wellFormedStore st ->
  (forall title description securityLevel systemId outcome st',
     SspService.createSSP getBaselineControls cenv title description securityLevel
       systemId st = (outcome, st') ->
     wellFormedStore st') /\
  (forall sspId controlId implementationStatus description responsibleRoles outcome st',
     SspService.addControlImplementation env sspId controlId implementationStatus
       description responsibleRoles st = (outcome, st') ->
     wellFormedStore st') /\
  (forall sspId report,
     fst (SspService.validateSSP getBaselineControls sspId st) = Ok report ->
     (reportedCount report "IMPLEMENTED" + reportedCount report "PARTIALLY_IMPLEMENTED"
      + reportedCount report "PLANNED" + reportedCount report "ALTERNATIVE_IMPLEMENTATION"
      + reportedCount report "NOT_APPLICABLE" = SspService.totalControls report)%nat).
Proof.
  intros Hst. split; [|split].
  - intros title description securityLevel systemId outcome st'.
    rewrite createSSP_unfold.
    destruct (includes SspService.validLevels securityLevel); [|now intros [= _ <-]].
    destruct (getBaselineControls securityLevel) as [baseline|e]; [|now intros [= _ <-]].
    destruct (mapM SspService.normalizeControlId baseline) as [ids|e] eqn:Hn;
      [|now intros [= _ <-]].
    cbv zeta. intros [= _ <-] sspId doc.
    match goal with |- <[?k := _]> _ !! _ = _ -> _ =>
      destruct (decide (k = sspId)) as [->|Hne] end.
    + rewrite lookup_insert_eq. intros [= <-]. cbn [SspService.controlImplementations].
      apply mapM_Forall2 in Hn. clear -Hn.
      induction Hn as [|raw n l ns Hraw _ IH]; cbn; constructor; [|assumption].
      split; [cbn; tauto|].
      apply normalizeControlId_inv in Hraw as (p & Hp & <-). eauto.
    + rewrite lookup_insert_ne by assumption. apply Hst.
  - intros sspId controlId implementationStatus description responsibleRoles outcome st'.
    rewrite addControlImplementation_unfold.
    destruct (st !! sspId) as [ssp|] eqn:Hdoc; [|now intros [= _ <-]].
    destruct (SspService.normalizeControlId controlId) as [n|e] eqn:Hn;
      [|now intros [= _ <-]].
    destruct (includes SspService.validStatuses implementationStatus) eqn:Hs;
      [|now intros [= _ <-]].
    cbv zeta. intros [= _ <-] other doc.
    destruct (decide (sspId = other)) as [->|Hne].
    + rewrite lookup_insert_eq. intros [= <-]. cbn [SspService.controlImplementations].
      apply Forall_upsert; [exact (Hst _ _ Hdoc)|].
      split; [now apply includes_validStatuses|].
      apply normalizeControlId_inv in Hn as (p & Hp & <-). eauto.
    + rewrite lookup_insert_ne by assumption. apply Hst.
  - intros sspId report. rewrite validateSSP_unfold.
    destruct (st !! sspId) as [doc|] eqn:Hdoc; [|discriminate].
    destruct (getBaselineControls _); [|discriminate].
    destruct (mapM _ _); [|discriminate].
    cbv zeta. intros [= <-]. unfold reportedCount.
    cbn [SspService.implementationByStatus SspService.totalControls].
    rewrite !reportedCount_countStatus.
    apply countStatus_partition.
    eapply Forall_impl; [exact (Hst _ _ Hdoc)|]. now intros r [Hr _].
Qed.

Lemma wellFormedStore_preserved_witness :
  wellFormedStore
    (snd (SspService.createSSP OscalService.Placeholder.getBaselineControls
            (SspService.mkCreateEnv "uuid-1" "uuid-2" "t1" "t2" "t3")
            "Title" "Description" "LOW" None ∅)).
Proof.
  assert (wellFormedStore ∅) as Hempty
    by (intros sspId doc H; rewrite lookup_empty in H; discriminate H).
  exact (proj1 (wellFormedStore_preserved OscalService.Placeholder.getBaselineControls
                  (SspService.mkCreateEnv "uuid-1" "uuid-2" "t1" "t2" "t3")
                  (SspService.mkUpdateEnv "t4" "t5") ∅ Hempty)
           "Title" "Description" "LOW" None _ _ (surjective_pairing _)).
Defined.

(** X10.  A document validates right after [createSSP] created it, with
    the same baseline service: [validateSSP] returns a report with no
    missing control and [valid] true, [totalControls] the number of
    seeded records, all of them counted as PLANNED, and an
    [implementationPercentage] of zero.  The number of records is below
    [2^32], the bound of a JavaScript array. *)
Theorem validateSSP_after_createSSP
    (getBaselineControls : string -> result (list string))
    (env : SspService.CreateEnv) (title description securityLevel : string)
    (systemId : option string) (st st1 : gmap string SspService.SSP)
    (ssp : SspService.SSP) :
  SspService.createSSP getBaselineControls env title description securityLevel systemId st
  = (Ok ssp, st1) ->
  Z.of_nat (length (SspService.controlImplementations ssp)) < 2 ^ 32 ->
  exists report,
    SspService.validateSSP getBaselineControls (SspService.id ssp) st1 = (Ok report, st1) /\
    SspService.valid report = true /\
    SspService.missingControls report = [] /\
    SspService.totalControls report = length (SspService.controlImplementations ssp) /\
    reportedCount report "PLANNED" = length (SspService.controlImplementations ssp) /\
    reportedCount report "IMPLEMENTED" = O /\
    SspService.implementationPercentage report = ofZ 0.
Proof.
  rewrite createSSP_unfold.
  destruct (includes SspService.validLevels securityLevel); [|discriminate].
  destruct (getBaselineControls securityLevel) as [baseline|e] eqn:Hb; [|discriminate].
  destruct (mapM SspService.normalizeControlId baseline) as [ids|e] eqn:Hn; [|discriminate].
  cbv zeta. intros [= <- <-]. cbn [SspService.controlImplementations SspService.id].
  intros Hlen.
  rewrite validateSSP_unfold, lookup_insert_eq.
  cbn [SspService.systemCharacteristics SspService.securityImpactLevel].
  rewrite Hb, Hn. cbv zeta.
  assert (length baseline = length ids) as Hsame
    by (apply mapM_Forall2 in Hn; now apply Forall2_length in Hn).
  unfold storedIds. cbn [SspService.controlImplementations].
  rewrite (seeded_ids _ _ Hsame).
  assert (List.filter (fun c => negb (includes ids c)) ids = []) as ->.
  { destruct (List.filter _ ids) as [|c rest] eqn:Hf; [reflexivity|exfalso].
    assert (In c (List.filter (fun c => negb (includes ids c)) ids)) as Hin
      by (rewrite Hf; now left).
    apply filter_not_includes in Hin as [Hc Hnot]. contradiction. }
  eexists. split; [reflexivity|].
  cbn [SspService.valid SspService.missingControls SspService.totalControls
       SspService.implementationPercentage].
  unfold reportedCount. cbn [SspService.implementationByStatus].
  rewrite !reportedCount_countStatus, !seeded_statuses.
  repeat split.
  destruct (Nat.eqb_spec (length (zip_with seeded baseline ids)) 0) as [|Hpos];
    [reflexivity|].
  apply rawPercentage_none. lia.
Qed.

Lemma validateSSP_after_createSSP_witness :
  exists ssp st1 report,
    SspService.createSSP OscalService.Placeholder.getBaselineControls
      (SspService.mkCreateEnv "uuid-1" "uuid-2" "t1" "t2" "t3")
      "Title" "Description" "LOW" None ∅ = (Ok ssp, st1) /\
    SspService.validateSSP OscalService.Placeholder.getBaselineControls
      (SspService.id ssp) st1 = (Ok report, st1) /\
    SspService.valid report = true /\
    SspService.totalControls report = 11%nat.
Proof.
  pose (call := SspService.createSSP OscalService.Placeholder.getBaselineControls
      (SspService.mkCreateEnv "uuid-1" "uuid-2" "t1" "t2" "t3")
      "Title" "Description" "LOW" None ∅).
  destruct (fst call) as [ssp|e] eqn:Hfst; [|vm_compute in Hfst; discriminate Hfst].
  assert (call = (Ok ssp, snd call)) as Hcall
    by (rewrite <- Hfst; apply surjective_pairing).
  assert (length (SspService.controlImplementations ssp) = 11%nat) as Hlen
    by (vm_compute in Hfst; injection Hfst as <-; reflexivity).
  destruct (validateSSP_after_createSSP OscalService.Placeholder.getBaselineControls
              (SspService.mkCreateEnv "uuid-1" "uuid-2" "t1" "t2" "t3")
              "Title" "Description" "LOW" None ∅ (snd call) ssp Hcall
              ltac:(rewrite Hlen; reflexivity))
    as (report & H1 & H2 & _ & H4 & _).
  exists ssp, (snd call), report.
  split; [exact Hcall|]. split; [exact H1|]. split; [exact H2|]. now rewrite H4.
Defined.

(** X11.  [addControlImplementation] can only shorten the list of
    missing controls.  When the document validated before a successful
    call, it validates after it; the controls reported missing afterwards
    are those reported before, without the id that was written; and
    [totalControls] stays as it was when the id was already stored and
    grows by one when it was not. *)
Theorem addControlImplementation_shrinks_missing
    (getBaselineControls : string -> result (list string))
    (env : SspService.UpdateEnv) (sspId controlId implementationStatus : string)
    (description : option string) (responsibleRoles : option (list string))
    (st st1 : gmap string SspService.SSP) (impl : SspService.ControlImplementation)
    (report : SspService.ValidationReport) :
  SspService.addControlImplementation env sspId controlId implementationStatus
    description responsibleRoles st = (Ok impl, st1) ->
  fst (SspService.validateSSP getBaselineControls sspId st) = Ok report ->
  exists report1,
    SspService.validateSSP getBaselineControls sspId st1 = (Ok report1, st1) /\
    (forall missing,
       In missing (SspService.missingControls report1) <->
       In missing (SspService.missingControls report) /\
       missing <> SspService.controlId impl) /\
    (forall doc,
       st !! sspId = Some doc ->
       SspService.totalControls report1
       = if includes (storedIds doc) (SspService.controlId impl)
         then SspService.totalControls report
         else S (SspService.totalControls report)).
Proof.
  rewrite addControlImplementation_unfold, validateSSP_unfold.
  destruct (st !! sspId) as [ssp|] eqn:Hdoc; [|discriminate].
  destruct (SspService.normalizeControlId controlId) as [n|e] eqn:Hn; [|discriminate].
  destruct (includes SspService.validStatuses implementationStatus); [|discriminate].
  cbv zeta. intros [= <- <-].
  destruct (getBaselineControls _) as [baseline|e] eqn:Hb; [|discriminate].
  destruct (mapM _ baseline) as [normalized|e] eqn:Hnorm; [|discriminate].
  cbv zeta. intros [= <-].
  rewrite validateSSP_unfold, lookup_insert_eq.
  cbn [SspService.systemCharacteristics SspService.securityImpactLevel].
  rewrite Hb, Hnorm. cbv zeta.
  eexists. split; [reflexivity|].
  cbn [SspService.missingControls SspService.totalControls SspService.controlId
       SspService.controlImplementations].
  unfold storedIds at 1. cbn [SspService.controlImplementations].
  set (new := SspService.mkImplementation n _ _ _ _).
  assert (SspService.controlId new = n) as Hnew by reflexivity.
  pose proof (upsert_ids n new Hnew (SspService.controlImplementations ssp)) as Hids.
  fold (storedIds ssp) in Hids.
  split.
  - intros missing. rewrite !filter_not_includes, Hids.
    destruct (includes (storedIds ssp) n) eqn:Hin.
    + apply includes_In in Hin. split; [|tauto].
      intros [H1 H2]. repeat split; auto. congruence.
    + rewrite in_app_iff. cbn [In]. split.
      * intros [H1 H2]. repeat split; auto.
      * intros [[H1 H2] H3]. split; [assumption|]. intros [H|[H|[]]]; auto.
  - intros doc [= <-].
    rewrite <- !(length_map SspService.controlId), Hids.
    fold (storedIds ssp).
    destruct (includes (storedIds ssp) n); [reflexivity|].
    rewrite length_app. cbn. lia.
Qed.

Lemma addControlImplementation_shrinks_missing_witness :
  let doc := SspService.mkSSP "doc" "uuid"
               (SspService.mkMetadata "T" "t0" "1.0" "1.1.0")
               (SspService.mkCharacteristics "T" "D" "LOW" "operational" "fedramp")
               [seeded "AC-1" "AC-1"] "t0" "t0" in
  exists st1 report1,
    SspService.validateSSP (fun _ => Ok ["ac-1"; "ac-2"; "si-4"]) "doc" st1
    = (Ok report1, st1) /\
    (forall missing, In missing (SspService.missingControls report1) <->
                     In missing ["AC-2"; "SI-4"] /\ missing <> "AC-2").
Proof.
  intros doc.
  pose (call := SspService.addControlImplementation (SspService.mkUpdateEnv "t1" "t2")
      "doc" "ac.2" "IMPLEMENTED" (Some "done") None {[ "doc" := doc ]}).
  assert (call = (fst call, snd call)) as Hcall by apply surjective_pairing.
  assert (fst call = Ok (SspService.mkImplementation "AC-2" "IMPLEMENTED" (Some "done") []
                           (Some "t1"))) as Hfst by (vm_compute; reflexivity).
  rewrite Hfst in Hcall.
  pose (before := SspService.validateSSP (fun _ => Ok ["ac-1"; "ac-2"; "si-4"])
                    "doc" {[ "doc" := doc ]}).
  destruct (fst before) as [report|e] eqn:Hbefore;
    [|vm_compute in Hbefore; discriminate Hbefore].
  assert (SspService.missingControls report = ["AC-2"; "SI-4"]) as Hmissing
    by (vm_compute in Hbefore; injection Hbefore as <-; reflexivity).
  destruct (addControlImplementation_shrinks_missing
              (fun _ => Ok ["ac-1"; "ac-2"; "si-4"]) (SspService.mkUpdateEnv "t1" "t2")
              "doc" "ac.2" "IMPLEMENTED" (Some "done") None {[ "doc" := doc ]}
              (snd call) _ report Hcall Hbefore) as (report1 & H1 & H2 & _).
  exists (snd call), report1. split; [exact H1|].
  intros missing. rewrite <- Hmissing. apply H2.
Defined.

(** ** The document service: what an update changes *)

Section Replacement.
Import SspService.

Variable n : string.
Variable r : ControlImplementation.
Hypothesis Hr : controlId r = n.

Let hasId (impl : ControlImplementation) : bool := String.eqb (controlId impl) n.

Lemma upsert_cons_other (a : ControlImplementation) (l : list ControlImplementation) :
  hasId a = false -> upsert n r (a :: l) = a :: upsert n r l.
Proof.
  intros Ha. unfold hasId in Ha. unfold upsert. cbn [findIndex]. rewrite Ha.
  destruct (findIndex _ l); reflexivity.
Qed.

Lemma upsert_cons_same (a : ControlImplementation) (l : list ControlImplementation) :
  hasId a = true -> upsert n r (a :: l) = r :: l.
Proof. intros Ha. unfold hasId in Ha. unfold upsert. cbn [findIndex]. now rewrite Ha. Qed.

(** The first record with the id is replaced, the others stay. *)
Lemma upsert_filter (l : list ControlImplementation) :
  List.filter hasId (upsert n r l) = r :: tl (List.filter hasId l) /\
  List.filter (fun impl => negb (hasId impl)) (upsert n r l)
  = List.filter (fun impl => negb (hasId impl)) l.
Proof.
  assert (hasId r = true) as H1 by (unfold hasId; rewrite Hr; apply String.eqb_refl).
  induction l as [|a l [IH1 IH2]].
  - unfold upsert. cbn. now rewrite H1.
  - destruct (hasId a) eqn:Ha.
    + rewrite (upsert_cons_same a l Ha). cbn. now rewrite H1, Ha.
    + rewrite (upsert_cons_other a l Ha). cbn. rewrite Ha. cbn. now rewrite IH1, IH2.
Qed.

Lemma filter_hasId_NoDup (l : list ControlImplementation) :
  List.NoDup (map controlId l) -> tl (List.filter hasId l) = [].
Proof.
  induction l as [|a l IH]; [reflexivity|].
  cbn [map]. intros Hnd. apply List.NoDup_cons_iff in Hnd as [Hnot Hnd].
  cbn. destruct (hasId a) eqn:Ha; [|auto].
  cbn. apply String.eqb_eq in Ha.
  destruct (List.filter hasId l) as [|b rest] eqn:Hf; [reflexivity|exfalso].
  assert (In b (List.filter hasId l)) as Hb by (rewrite Hf; now left).
  apply filter_In in Hb as [Hin Hb%String.eqb_eq].
  apply Hnot. rewrite Ha, <- Hb. now apply in_map.
Qed.

End Replacement.

(** X12.  What a successful [addControlImplementation] changes in the
    document.  The records with another id are the same, in the same
    order.  Among the records with the normalized id, the first is
    replaced by the new record and the later ones stay; when there was
    none the new record comes last.  So a document whose ids are pairwise
    distinct has exactly one record with the id afterwards, the new one;
    and a document in which the id is repeated keeps the later
    repetitions as they were. *)
Theorem addControlImplementation_replaces_first
    (env : SspService.UpdateEnv) (sspId controlId implementationStatus : string)
    (description : option string) (responsibleRoles : option (list string))
    (st st1 : gmap string SspService.SSP) (doc : SspService.SSP)
    (impl : SspService.ControlImplementation) :
  st !! sspId = Some doc ->
  SspService.addControlImplementation env sspId controlId implementationStatus
    description responsibleRoles st = (Ok impl, st1) ->
  exists doc1,
    st1 !! sspId = Some doc1 /\
    let hasId record :=
      String.eqb (SspService.controlId record) (SspService.controlId impl) in
    List.filter hasId (SspService.controlImplementations doc1)
    = impl :: tl (List.filter hasId (SspService.controlImplementations doc)) /\
    List.filter (fun record => negb (hasId record)) (SspService.controlImplementations doc1)
    = List.filter (fun record => negb (hasId record)) (SspService.controlImplementations doc) /\
    (List.NoDup (storedIds doc) ->
     forall record,
       In record (SspService.controlImplementations doc1) ->
       SspService.controlId record = SspService.controlId impl -> record = impl).
Proof.
  intros Hdoc. rewrite addControlImplementation_unfold, Hdoc.
  destruct (SspService.normalizeControlId controlId) as [n|e]; [|discriminate].
  destruct (includes SspService.validStatuses implementationStatus); [|discriminate].
  cbv zeta. intros [= <- <-].
  eexists. split; [apply lookup_insert_eq|].
  cbn [SspService.controlImplementations SspService.controlId].
  set (new := SspService.mkImplementation n _ _ _ _).
  destruct (upsert_filter n new eq_refl (SspService.controlImplementations doc)) as [H1 H2].
  split; [exact H1|]. split; [exact H2|].
  intros Hnd record Hin Hid.
  assert (In record
             (List.filter (fun impl => String.eqb (SspService.controlId impl) n)
                (SspService.upsert n new (SspService.controlImplementations doc)))) as Hf
    by (apply filter_In; split; [assumption|now apply String.eqb_eq]).
  rewrite H1, (filter_hasId_NoDup n _ Hnd) in Hf.
  destruct Hf as [<-|[]]. reflexivity.
Qed.

Lemma addControlImplementation_replaces_first_witness :
  let doc := SspService.mkSSP "doc" "uuid"
               (SspService.mkMetadata "T" "t0" "1.0" "1.1.0")
               (SspService.mkCharacteristics "T" "D" "LOW" "operational" "fedramp")
               [seeded "AC-1" "AC-1"; seeded "ac.1" "AC-1"] "t0" "t0" in
  exists impl st1 doc1,
    SspService.addControlImplementation (SspService.mkUpdateEnv "t1" "t2")
      "doc" "ac1" "IMPLEMENTED" (Some "done") None {[ "doc" := doc ]} = (Ok impl, st1) /\
    st1 !! "doc" = Some doc1 /\
    List.filter (fun record => String.eqb (SspService.controlId record) "AC-1")
                (SspService.controlImplementations doc1)
    = [impl; seeded "ac.1" "AC-1"].
Proof.
  intros doc.
  pose (call := SspService.addControlImplementation (SspService.mkUpdateEnv "t1" "t2")
      "doc" "ac1" "IMPLEMENTED" (Some "done") None {[ "doc" := doc ]}).
  assert (call = (fst call, snd call)) as Hcall by apply surjective_pairing.
  assert (fst call = Ok (SspService.mkImplementation "AC-1" "IMPLEMENTED" (Some "done") []
                           (Some "t1"))) as Hfst by (vm_compute; reflexivity).
  rewrite Hfst in Hcall.
  destruct (addControlImplementation_replaces_first (SspService.mkUpdateEnv "t1" "t2")
              "doc" "ac1" "IMPLEMENTED" (Some "done") None {[ "doc" := doc ]}
              (snd call) doc _ (lookup_singleton_eq _ _) Hcall)
    as (doc1 & H1 & H2 & _).
  eexists. exists (snd call), doc1. split; [exact Hcall|]. split; [exact H1|].
  exact H2.
Defined.

(** ** The document service: creation *)

Section Creation.
Import SspService.

(** The first element on which a mapped function throws. *)
Lemma mapM_Throw {A B} (f : A -> result B) (l : list A) (e : Error) :
  mapM f l = Throw e ->
  exists l1 a l2,
    l = (l1 ++ a :: l2)%list /\ Forall (fun x => isOk (f x) = true) l1 /\ f a = Throw e.
Proof.
  induction l as [|a l IH]; cbn; [discriminate|].
  destruct (f a) as [b|e'] eqn:Hf; cbn.
  - destruct (mapM f l) as [bs|e'']; cbn; [discriminate|].
    intros [= <-]. destruct (IH eq_refl) as (l1 & x & l2 & -> & Hl1 & Hx).
    exists (a :: l1), x, l2. repeat split; auto. constructor; [now rewrite Hf|assumption].
  - intros [= <-]. exists [], a, l. repeat split; auto.
Qed.

End Creation.

(** X13.  [createSSP] writes one document, and only when it succeeds.
    When it throws, the directory is as it was, and the error is the
    invalid-level error, the error of the baseline service, or the error
    of [parse] on the first baseline entry that does not parse.  When it
    returns, the id of the document is the [systemId] that was given if
    it is not empty, and the generated one otherwise; the document is
    stored under that id, replacing whatever was stored there, [getSSP]
    of the id returns it, and no other document is touched. *)
Theorem createSSP_writes_one_document
    (getBaselineControls : string -> result (list string))
    (env : SspService.CreateEnv) (title description securityLevel : string)
    (systemId : option string) (st st' : gmap string SspService.SSP)
    (outcome : result SspService.SSP) :
  SspService.createSSP getBaselineControls env title description securityLevel systemId st
  = (outcome, st') ->
  let newId := match systemId with
               | Some (String _ _ as given) => given
               | _ => SspService.uuidForId env
               end in
  match outcome with
  | Throw e =>
      st' = st /\
      ((e = InvalidSecurityLevel securityLevel /\
        ~ In securityLevel SspService.validLevels) \/
       getBaselineControls securityLevel = Throw e \/
       exists parsed bad rest,
         getBaselineControls securityLevel = Ok (parsed ++ bad :: rest)%list /\
         Forall (fun entry => isOk (parse entry) = true) parsed /\
         parse bad = Throw e)
  | Ok ssp =>
      SspService.id ssp = newId /\
      SspService.uuid ssp = SspService.uuidForDocument env /\
      SspService.title (SspService.metadata ssp) = title /\
      SspService.securityImpactLevel (SspService.systemCharacteristics ssp) = securityLevel /\
      In securityLevel SspService.validLevels /\
      st' = <[newId := ssp]> st /\
      SspService.getSSP newId st' = (Ok ssp, st') /\
      (forall other, other <> newId -> st' !! other = st !! other)
  end.
Proof.
  rewrite createSSP_unfold. intros H newId.
  destruct (includes SspService.validLevels securityLevel) eqn:Hlevel.
  - apply includes_In in Hlevel.
    destruct (getBaselineControls securityLevel) as [baseline|e] eqn:Hb.
    + destruct (mapM SspService.normalizeControlId baseline) as [ids|e] eqn:Hn.
      * cbv zeta in H. injection H as <- <-. fold newId.
        cbn [SspService.id SspService.uuid SspService.metadata SspService.title
             SspService.systemCharacteristics SspService.securityImpactLevel].
        repeat split; auto.
        -- rewrite getSSP_lookup. now rewrite lookup_insert_eq.
        -- intros other Hne. now rewrite lookup_insert_ne by congruence.
      * injection H as <- <-. split; [reflexivity|]. right. right.
        apply mapM_Throw in Hn as (l1 & bad & l2 & -> & Hl1 & Hbad).
        exists l1, bad, l2. split; [reflexivity|]. split.
        -- eapply Forall_impl; [exact Hl1|]. intros entry Hok. cbn in Hok.
           unfold SspService.normalizeControlId, normalize in Hok.
           destruct entry; [discriminate|]. now destruct (parse _).
        -- unfold SspService.normalizeControlId, normalize in Hbad.
           destruct bad; [now injection Hbad as <-|].
           destruct (parse _); cbn in Hbad; [discriminate|now injection Hbad as <-].
    + injection H as <- <-. auto.
  - injection H as <- <-. split; [reflexivity|]. left. split; [reflexivity|].
    intros Hin%includes_In. congruence.
Qed.

Lemma createSSP_writes_one_document_witness :
  let old := SspService.mkSSP "sys-1" "uuid-0"
               (SspService.mkMetadata "Old" "t0" "1.0" "1.1.0")
               (SspService.mkCharacteristics "Old" "D" "HIGH" "operational" "fedramp")
               [seeded "AC-1" "AC-1"] "t0" "t0" in
  let call := SspService.createSSP (fun _ => Ok ["ac-1"; "ac 2"])
                (SspService.mkCreateEnv "uuid-1" "uuid-2" "t1" "t2" "t3")
                "New" "Description" "LOW" (Some "sys-1") {[ "sys-1" := old ]} in
  match fst call with
  | Ok ssp => SspService.id ssp = "sys-1" /\ snd call !! "sys-1" = Some ssp
  | Throw _ => False
  end.
Proof.
  intros old call.
  pose proof (createSSP_writes_one_document (fun _ => Ok ["ac-1"; "ac 2"])
                (SspService.mkCreateEnv "uuid-1" "uuid-2" "t1" "t2" "t3")
                "New" "Description" "LOW" (Some "sys-1") {[ "sys-1" := old ]}
                (snd call) (fst call) (surjective_pairing call)) as H.
  cbv zeta in H.
  destruct (fst call) as [ssp|e] eqn:Hfst; [|vm_compute in Hfst; discriminate Hfst].
  destruct H as (Hid & _ & _ & _ & _ & Hst & _).
  split; [exact Hid|]. rewrite Hst. apply lookup_insert_eq.
Defined.

(** ** The implementation percentage: order and end points *)

(** X14.  The hundredths that [validateSSP] prints grow with the
    counts.  For a fixed number of records below [2^32], a pair of counts
    whose weighted sum (implemented plus half of partially implemented)
    is larger gives a percentage that is not smaller, although the
    percentage is computed in binary64; records that are all implemented
    give exactly 100, records that are all partially implemented exactly
    50, and no implemented or partially implemented record exactly 0. *)
Theorem percentage_monotone (i p i' p' t : nat) :
  (0 < t)%nat -> Z.of_nat t < 2 ^ 32 ->
  (i + p <= t)%nat -> (i' + p' <= t)%nat ->
  (2 * i + p < 2 * i' + p')%nat ->
  SspService.toFixed2 (SspService.rawPercentage i p t)
  <= SspService.toFixed2 (SspService.rawPercentage i' p' t) /\
  SspService.toFixed2 (SspService.rawPercentage t 0 t) = 10000 /\
  SspService.parseFloat2 10000 = ofZ 100 /\
  SspService.toFixed2 (SspService.rawPercentage 0 t t) = 5000 /\
  SspService.parseFloat2 5000 = ofZ 50 /\
  SspService.toFixed2 (SspService.rawPercentage 0 0 t) = 0 /\
  SspService.parseFloat2 0 = ofZ 0.
Proof.
  intros Ht Ht' Hip Hip' Hle.
  pose proof (toFixed2_rawPercentage i p t Ht Ht' Hip) as H1.
  pose proof (toFixed2_rawPercentage i' p' t Ht Ht' Hip') as H2.
  pose proof (toFixed2_rawPercentage t 0 t Ht Ht' ltac:(lia)) as H3.
  pose proof (toFixed2_rawPercentage 0 t t Ht Ht' ltac:(lia)) as H4.
  pose proof (toFixed2_rawPercentage 0 0 t Ht Ht' ltac:(lia)) as H5.
  cbv zeta in *.
  set (n := SspService.toFixed2 (SspService.rawPercentage i p t)) in *.
  set (n' := SspService.toFixed2 (SspService.rawPercentage i' p' t)) in *.
  set (full := SspService.toFixed2 (SspService.rawPercentage t 0 t)) in *.
  set (halfway := SspService.toFixed2 (SspService.rawPercentage 0 t t)) in *.
  set (none := SspService.toFixed2 (SspService.rawPercentage 0 0 t)) in *.
  repeat split; try reflexivity.
  - assert (10000 * (2 * Z.of_nat i + Z.of_nat p) + 10000
            <= 10000 * (2 * Z.of_nat i' + Z.of_nat p')) by lia.
    assert ((2 * n - 1) * Z.of_nat t < (2 * n' + 1) * Z.of_nat t) by lia.
    nia.
  - nia.
  - nia.
  - nia.
Qed.

Lemma percentage_monotone_witness :
  SspService.toFixed2 (SspService.rawPercentage 11 1 80)
  <= SspService.toFixed2 (SspService.rawPercentage 11 2 80).
Proof.
  exact (proj1 (percentage_monotone 11 1 11 2 80 ltac:(lia) eq_refl ltac:(lia) ltac:(lia)
                  ltac:(lia))).
Defined.

(** ** The profile-backed resolver: loading and caching *)

Section ProfileSets.
Import OscalService.Profiles.


Lemma find_app {A} (p : A -> bool) (l1 l2 : list A) :
  List.find p (l1 ++ l2) =
  match List.find p l1 with Some x => Some x | None => List.find p l2 end.
Proof. induction l1 as [|a l1 IH]; cbn; [reflexivity|]. now destruct (p a). Qed.




(** A second load from the state that a load left gives the same. *)
Lemma loadBaselineProfiles_again (fs : FileSystem) (st : State) (profileType : string) :
  loadBaselineProfiles fs (snd (loadBaselineProfiles fs st profileType)) profileType
  = loadBaselineProfiles fs st profileType.
Proof.
  unfold loadBaselineProfiles.
  destruct (readdir fs _) as [files|]; [|reflexivity].
  destruct (filter _ files) as [|f fl]; [reflexivity|].
  case_bool_decide; [reflexivity|].
  destruct (String.eqb profileType "fedramp"); reflexivity.
Qed.

(** [getBaselineControls], by the profile set of the profile type. *)
Lemma getBaselineControls_by_set (fs : FileSystem) (st : State)
                                 (securityLevel profileType : string) :
  getBaselineControls fs st securityLevel profileType =
  let kind := if String.eqb profileType "fedramp" then "fedramp" else "baseline" in
  if bool_decide (profileSetOf profileType st = ∅) then
    match loadBaselineProfiles fs st kind with
    | (Throw e, st1) => (Throw e, st1)
    | (Ok _, st1) =>
        (readControlIds fs (profileSetOf profileType st1) (toUpperCase securityLevel)
           profileType, st1)
    end
  else (readControlIds fs (profileSetOf profileType st) (toUpperCase securityLevel)
          profileType, st).
Proof.
  unfold getBaselineControls, profileSetOf.
  destruct (String.eqb profileType "fedramp"); reflexivity.
Qed.

Lemma loadBaselineProfiles_slot (fs : FileSystem) (st : State) (profileType : string) :
  let kind := if String.eqb profileType "fedramp" then "fedramp" else "baseline" in
  match loadBaselineProfiles fs st kind with
  | (Throw e, st1) => profileSetOf profileType st1 = profileSetOf profileType st
  | (Ok found, st1) => profileSetOf profileType st1 = found /\ found <> ∅
  end.
Proof.
  cbv zeta. unfold profileSetOf.
  destruct (String.eqb profileType "fedramp") eqn:Hpt.
  - pose proof (loadBaselineProfiles_cases fs st "fedramp") as H. cbv zeta in H.
    destruct (loadBaselineProfiles fs st "fedramp") as [[found|e] st1].
    + destruct H as (Hne & Hslot & _). now split.
    + now destruct H as (_ & Hfed & _).
  - pose proof (loadBaselineProfiles_cases fs st "baseline") as H. cbv zeta in H.
    destruct (loadBaselineProfiles fs st "baseline") as [[found|e] st1].
    + destruct H as (Hne & Hslot & _). now split.
    + now destruct H as (_ & _ & Hbase).
Qed.

End ProfileSets.

(** X15.  The profile-backed [getBaselineControls] can be repeated: a
    second call with the same arguments, from the state that the first
    call left, returns what the first returned and leaves that state.
    The tier is read through [toUpperCase], so ["low"] and ["LOW"] give
    the same answer.  Once the profile set of the profile type is loaded
    the directory is not listed again: the answer is read off the cached
    set and the state is not changed. *)
Theorem getBaselineControls_repeatable
    (fs : OscalService.Profiles.FileSystem) (st : OscalService.Profiles.State)
    (securityLevel profileType : string) :
  let r := OscalService.Profiles.getBaselineControls fs st securityLevel profileType in
  OscalService.Profiles.getBaselineControls fs (snd r) securityLevel profileType = r /\
  (forall other,
     toUpperCase other = toUpperCase securityLevel ->
     OscalService.Profiles.getBaselineControls fs st other profileType = r) /\
  (profileSetOf profileType st <> ∅ ->
   forall fs',
     OscalService.Profiles.readProfile fs' = OscalService.Profiles.readProfile fs ->
     OscalService.Profiles.getBaselineControls fs' st securityLevel profileType
     = (OscalService.Profiles.readControlIds fs (profileSetOf profileType st)
          (toUpperCase securityLevel) profileType, st)).
Proof.
  intros r. unfold r. clear r.
  split; [|split].
  - rewrite (getBaselineControls_by_set fs st). cbv zeta.
    pose proof (loadBaselineProfiles_slot fs st profileType) as Hslot.
    pose proof (loadBaselineProfiles_again fs st
                  (if String.eqb profileType "fedramp" then "fedramp" else "baseline"))
      as Hagain.
    cbv zeta in Hslot.
    case_bool_decide as Hcached.
    + destruct (OscalService.Profiles.loadBaselineProfiles fs st _)
        as [[found|e] st1] eqn:Hload; cbn [snd] in *.
      * destruct Hslot as [Hset Hne].
        rewrite getBaselineControls_by_set. cbv zeta.
        rewrite bool_decide_eq_false_2 by (rewrite Hset; exact Hne). reflexivity.
      * rewrite getBaselineControls_by_set. cbv zeta.
        rewrite bool_decide_eq_true_2 by congruence.
        now rewrite Hagain.
    + cbn [snd]. rewrite getBaselineControls_by_set. cbv zeta.
      now rewrite bool_decide_eq_false_2.
  - intros other Hother. rewrite !getBaselineControls_by_set. now rewrite Hother.
  - intros Hloaded fs' Hread.
    rewrite getBaselineControls_by_set. cbv zeta.
    rewrite bool_decide_eq_false_2 by assumption.
    unfold OscalService.Profiles.readControlIds. now rewrite Hread.
Qed.


(** X17.  What the profile-backed [getBaselineControls] returns.  When
    the profile set of the profile type has an entry for the upper-cased
    tier, with a path, and the document at that path is read and lists at
    least one identifier, the call returns the identifiers of the
    document and leaves the state as it was.  They are the entries of the
    ['with-ids'] arrays of the ['include-controls'] entries of the
    imports, in document order and with their repetitions: an identifier
    is returned exactly when one of these arrays holds it. *)
Theorem getBaselineControls_reads_profile
    (fs : OscalService.Profiles.FileSystem) (st : OscalService.Profiles.State)
    (securityLevel profileType : string)
    (info : OscalService.Profiles.ProfileInfo) (doc : OscalService.Profiles.ProfileDoc) :
  profileSetOf profileType st !! toUpperCase securityLevel = Some info ->
  OscalService.Profiles.profile_path info <> EmptyString ->
  OscalService.Profiles.readProfile fs (OscalService.Profiles.profile_path info) = Some doc ->
  OscalService.Profiles.extractControlIds doc <> [] ->
  OscalService.Profiles.getBaselineControls fs st securityLevel profileType
  = (Ok (OscalService.Profiles.extractControlIds doc), st) /\
  (forall controlId,
     In controlId (OscalService.Profiles.extractControlIds doc) <->
     exists importObjs importObj includes includeControl ids,
       OscalService.Profiles.imports doc = Some importObjs /\
       In importObj importObjs /\
       OscalService.Profiles.include_controls importObj = Some includes /\
       In includeControl includes /\
       OscalService.Profiles.with_ids includeControl = Some ids /\
       In controlId ids) /\
  (forall importObjs more,
     OscalService.Profiles.imports doc = Some importObjs ->
     OscalService.Profiles.extractControlIds
       (OscalService.Profiles.mkProfileDoc (Some (importObjs ++ more)%list))
     = (OscalService.Profiles.extractControlIds doc
        ++ OscalService.Profiles.extractControlIds
             (OscalService.Profiles.mkProfileDoc (Some more)))%list).
Proof.
  intros Hinfo Hpath Hdoc Hids.
  split; [|split].
  - rewrite getBaselineControls_by_set. cbv zeta.
    rewrite bool_decide_eq_false_2
      by (intros Hempty; rewrite Hempty, lookup_empty in Hinfo; discriminate).
    f_equal. unfold OscalService.Profiles.readControlIds. rewrite Hinfo. cbv zeta.
    destruct (OscalService.Profiles.profile_path info); [contradiction|].
    rewrite Hdoc. now destruct (OscalService.Profiles.extractControlIds doc).
  - intros controlId. unfold OscalService.Profiles.extractControlIds.
    destruct (OscalService.Profiles.imports doc) as [importObjs|].
    + rewrite in_flat_map. split.
      * intros (importObj & Hin & Hid). unfold OscalService.Profiles.idsOfImport in Hid.
        destruct (OscalService.Profiles.include_controls importObj) as [includes|] eqn:Hinc;
          [|contradiction].
        apply in_flat_map in Hid as (includeControl & Hin' & Hid).
        destruct (OscalService.Profiles.with_ids includeControl) as [ids|] eqn:Hw;
          [|contradiction].
        exists importObjs, importObj, includes, includeControl, ids. auto 10.
      * intros (? & importObj & includes & includeControl & ids
                & [= <-] & Hin & Hinc & Hin' & Hw & Hid).
        exists importObj. split; [assumption|].
        unfold OscalService.Profiles.idsOfImport. rewrite Hinc.
        apply in_flat_map. exists includeControl. split; [assumption|]. now rewrite Hw.
    + split; [contradiction|]. intros (? & ? & ? & ? & ? & H & _). discriminate.
  - intros importObjs more Himports.
    unfold OscalService.Profiles.extractControlIds. rewrite Himports.
    cbn [OscalService.Profiles.imports]. apply flat_map_app.
Qed.

Lemma getBaselineControls_reads_profile_witness :
  let doc := OscalService.Profiles.mkProfileDoc
               (Some [OscalService.Profiles.mkImport
                        (Some [OscalService.Profiles.mkInclude (Some ["ac-1"; "ac-2"]);
                               OscalService.Profiles.mkInclude None;
                               OscalService.Profiles.mkInclude (Some ["ac-1"])])]) in
  let info := OscalService.Profiles.mkProfileInfo "low" " Low Impact Baseline" "p/low.json" in
  let st := OscalService.Profiles.mkState ∅ {[ "LOW" := info ]} ∅ in
  let fs := OscalService.Profiles.mkFS (fun _ => None) (fun _ => Some doc) in
  OscalService.Profiles.getBaselineControls fs st "low" "baseline"
  = (Ok ["ac-1"; "ac-2"; "ac-1"], st).
Proof.
  intros doc info st fs.
  exact (proj1 (getBaselineControls_reads_profile fs st "low" "baseline" info doc
                  (lookup_singleton_eq _ _) ltac:(discriminate) eq_refl
                  ltac:(discriminate))).
Defined.

(** ** The catalog search of the stand-in data *)

Section PlaceholderSearch.
Import OscalService.

Lemma slice0_sublist {A} (limit : Z) (l : list A) : sublist (slice0 limit l) l.
Proof. unfold slice0. destruct (limit <? 0); apply sublist_take. Qed.

Lemma slice0_all {A} (limit : Z) (l : list A) :
  Z.of_nat (length l) <= limit -> slice0 limit l = l.
Proof.
  intros H. unfold slice0. destruct (Z.ltb_spec limit 0); [lia|].
  apply take_ge. lia.
Qed.

Lemma slice0_length {A} (limit : Z) (l : list A) :
  length (slice0 limit l)
  = if limit <? 0 then (length l - Z.to_nat (- limit))%nat
    else Nat.min (Z.to_nat limit) (length l).
Proof.
  unfold slice0. destruct (Z.ltb_spec limit 0); rewrite length_take; lia.
Qed.

Lemma filter_length_le {A} (f : A -> bool) (l : list A) :
  (length (List.filter f l) <= length l)%nat.
Proof. induction l as [|a l IH]; cbn; [lia|]. destruct (f a); cbn; lia. Qed.

Lemma searchMatches_short (query family : option string) :
  (length (searchMatches query family) <= 4)%nat.
Proof.
  unfold searchMatches.
  assert (forall l : list ControlSummary, (length l <= 4)%nat ->
            (length match query with
                    | Some (String _ _ as text) =>
                        List.filter
                          (fun control =>
                             stringIncludes (toLowerCase text)
                                            (toLowerCase (summary_id control))
                             || stringIncludes (toLowerCase text)
                                               (toLowerCase (summary_title control))) l
                    | _ => l
                    end <= 4)%nat) as Hq.
  { intros l Hl. destruct query as [[|c q]|]; try assumption.
    etransitivity; [apply filter_length_le|assumption]. }
  apply Hq. destruct family as [[|c f]|]; try (cbn; lia).
  etransitivity; [apply filter_length_le|cbn; lia].
Qed.

End PlaceholderSearch.

(** X18.  [searchControls] of the catalog service filters four fixed
    controls: by family, when one is given, as an exact and
    case-sensitive match; then by query, when one is given, as a
    case-insensitive substring of the id or of the title; and then cuts
    the matches at [limit] (20 when absent), a negative [limit] dropping
    that many matches from the end.  The order of the four controls is
    kept, and the [baseline] argument changes nothing. *)
Theorem searchControls_filters_and_limit
    (query family baseline : option string) (limit : option Z) :
  let results := OscalService.searchControls query family baseline limit in
  let unlimited := OscalService.searchControls query family baseline None in
  results = OscalService.slice0 (default 20 limit) unlimited /\
  sublist results unlimited /\
  sublist unlimited OscalService.sampleControls /\
  (forall l, limit = Some l ->
     length results
     = if l <? 0 then (length unlimited - Z.to_nat (- l))%nat
       else Nat.min (Z.to_nat l) (length unlimited)) /\
  (forall control,
     In control unlimited <->
     In control OscalService.sampleControls /\
     (forall wanted, family = Some wanted -> wanted <> "" ->
        OscalService.summary_family control = wanted) /\
     (forall text, query = Some text -> text <> "" ->
        stringIncludes (toLowerCase text)
                       (toLowerCase (OscalService.summary_id control)) = true \/
        stringIncludes (toLowerCase text)
                       (toLowerCase (OscalService.summary_title control)) = true)) /\
  (forall other, OscalService.searchControls query family other limit = results) /\
  (forall text text',
     toLowerCase text' = toLowerCase text ->
     OscalService.searchControls (Some text') family baseline limit
     = OscalService.searchControls (Some text) family baseline limit).
Proof.
  intros results unlimited.
  assert (forall q l, OscalService.searchControls q family baseline l
                      = OscalService.slice0 (default 20 l) (searchMatches q family)) as Hunfold
    by reflexivity.
  assert (unlimited = searchMatches query family) as Hall.
  { unfold unlimited. rewrite Hunfold. apply slice0_all.
    pose proof (searchMatches_short query family). cbn. lia. }
  split; [|split; [|split; [|split; [|split; [|split]]]]].
  - rewrite Hall. apply Hunfold.
  - unfold results. rewrite Hall, Hunfold. apply slice0_sublist.
  - rewrite Hall. unfold searchMatches.
    destruct query as [[|c q]|];
      destruct family as [[|c' f]|];
      cbv zeta;
      first [reflexivity | apply filter_sublist
            | etransitivity; [apply filter_sublist|apply filter_sublist]].
  - intros l ->. unfold results. rewrite Hunfold, <- Hall. apply slice0_length.
  - intros control. rewrite Hall. unfold searchMatches.
    assert (forall (l : list OscalService.ControlSummary),
              In control
                 match query with
                 | Some (String _ _ as text) =>
                     List.filter
                       (fun control =>
                          stringIncludes (toLowerCase text)
                            (toLowerCase (OscalService.summary_id control))
                          || stringIncludes (toLowerCase text)
                               (toLowerCase (OscalService.summary_title control))) l
                 | _ => l
                 end <->
              In control l /\
              (forall text, query = Some text -> text <> "" ->
                 stringIncludes (toLowerCase text)
                   (toLowerCase (OscalService.summary_id control)) = true \/
                 stringIncludes (toLowerCase text)
                   (toLowerCase (OscalService.summary_title control)) = true)) as Hq.
    { intros l. destruct query as [[|c q]|].
      - split; [intros H; split; [assumption|]; intros text [= <-] Hne; contradiction|tauto].
      - rewrite filter_In, orb_true_iff. split.
        + intros [H1 H2]. split; [assumption|]. now intros text [= <-] _.
        + intros [H1 H2]. split; [assumption|]. now apply H2.
      - split; [intros H; split; [assumption|]; discriminate|tauto]. }
    rewrite Hq. clear Hq.
    destruct family as [[|c f]|].
    + split; [intros [H1 H2]; repeat split; auto; intros w [= <-] Hne; contradiction|tauto].
    + rewrite filter_In, String.eqb_eq. split.
      * intros [[H1 H2] H3]. repeat split; auto. now intros w [= <-] _.
      * intros (H1 & H2 & H3). split; [split; [assumption|now apply H2]|assumption].
    + split; [intros [H1 H2]; repeat split; auto; discriminate|tauto].
  - reflexivity.
  - intros text text' Hlow. rewrite !Hunfold. f_equal.
    unfold searchMatches.
    destruct text as [|c t], text' as [|c' t']; try discriminate; [reflexivity|].
    now rewrite Hlow.
Qed.

(** ** The extension controls service *)

Section ExtensionData.
Import ExtensionControls.

Lemma toUpper_not_s (c : ascii) : Ascii.eqb (Char.toUpper c) "s" = false.
Proof. destruct c as [[] [] [] [] [] [] [] []]; reflexivity. Qed.

(** Before a character other than [s], nothing is removed. *)
Lemma removeBackslashS_step (inRun : bool) (c c' : ascii) (rest : string) :
  Ascii.eqb c "s" = false -> Ascii.eqb c' "s" = false ->
  removeBackslashS inRun (String c (String c' rest))
  = String c (removeBackslashS false (String c' rest)).
Proof.
  intros Hc Hc'. cbn [removeBackslashS]. rewrite Hc, andb_false_r.
  destruct c' as [[] [] [] [] [] [] [] []]; try discriminate Hc'; reflexivity.
Qed.

(** The pattern has a lower-case letter: on an upper-cased text it
    never matches. *)
Lemma removeBackslashS_upper (inRun : bool) (s : string) :
  removeBackslashS inRun (toUpperCase s) = toUpperCase s.
Proof.
  revert inRun. induction s as [|c s IH]; intros inRun; [reflexivity|].
  cbn [toUpperCase]. destruct s as [|c' s].
  - cbn. now rewrite toUpper_not_s, andb_false_r.
  - cbn [toUpperCase] in *.
    rewrite removeBackslashS_step by apply toUpper_not_s.
    now rewrite IH.
Qed.

Lemma normalizedId_upper (s : string) : normalizedId s = toUpperCase s.
Proof. apply removeBackslashS_upper. Qed.

Lemma find_ext {A} (p q : A -> bool) (l : list A) :
  (forall a, p a = q a) -> List.find p l = List.find q l.
Proof. intros H. induction l as [|a l IH]; cbn; [reflexivity|]. now rewrite H, IH. Qed.

(** The controls of the data, in the order of the document. *)
Lemma firstInFamilies_find (wanted : string) (families : list Family) :
  firstInFamilies wanted families
  = List.find (fun control => String.eqb (normalizedId (id control)) wanted)
              (flat_map controls families).
Proof.
  induction families as [|f families IH]; [reflexivity|].
  cbn [firstInFamilies flat_map]. rewrite find_app. unfold firstWithId at 1.
  destruct (List.find _ (controls f)); [reflexivity|exact IH].
Qed.

End ExtensionData.

(** X19.  [getControlById] of the extension service compares ids by
    their upper-cased form and nothing else: the replacement that the
    code applies after [toUpperCase] looks for a backslash followed by
    the lower-case letter [s], which an upper-cased text does not
    contain, so white space inside an id is kept.  With the data loaded,
    the call returns the first control, in document order, whose
    upper-cased id is the upper-cased argument, and [null] when there is
    none; the argument is read through [toUpperCase] only. *)
Theorem getControlById_first_match
    (readJson : string -> ExtensionControls.FileContent)
    (controlId : string) (controlsPath : option string)
    (cache cache' : gmap string ExtensionControls.ControlData)
    (controlData : ExtensionControls.ControlData) :
  ExtensionControls.loadControls readJson controlsPath cache
  = (ExtensionControls.Returned controlData, cache') ->
  (forall text, ExtensionControls.normalizedId text = toUpperCase text) /\
  ExtensionControls.getControlById readJson controlId controlsPath cache
  = (ExtensionControls.Returned
       (List.find (fun control =>
                     String.eqb (toUpperCase (ExtensionControls.id control))
                                (toUpperCase controlId))
                  (allControls controlData)), cache') /\
  (forall found,
     fst (ExtensionControls.getControlById readJson controlId controlsPath cache)
     = ExtensionControls.Returned (Some found) ->
     In found (allControls controlData) /\
     toUpperCase (ExtensionControls.id found) = toUpperCase controlId) /\
  (fst (ExtensionControls.getControlById readJson controlId controlsPath cache)
   = ExtensionControls.Returned None <->
   forall control, In control (allControls controlData) ->
                   toUpperCase (ExtensionControls.id control) <> toUpperCase controlId) /\
  (forall other,
     toUpperCase other = toUpperCase controlId ->
     ExtensionControls.getControlById readJson other controlsPath cache
     = ExtensionControls.getControlById readJson controlId controlsPath cache).
Proof.
  intros Hload.
  assert (forall wanted,
            ExtensionControls.getControlById readJson wanted controlsPath cache
            = (ExtensionControls.Returned
                 (List.find (fun control =>
                               String.eqb (toUpperCase (ExtensionControls.id control))
                                          (toUpperCase wanted))
                            (allControls controlData)), cache')) as Hget.
  { intros wanted. unfold ExtensionControls.getControlById. rewrite Hload. cbv zeta.
    f_equal. f_equal. unfold allControls.
    destruct (ExtensionControls.control_families controlData) as [families|].
    - rewrite firstInFamilies_find. apply find_ext. intros control.
      now rewrite !normalizedId_upper.
    - destruct (ExtensionControls.data_controls controlData) as [flat|]; [|reflexivity].
      unfold ExtensionControls.firstWithId. apply find_ext. intros control.
      now rewrite !normalizedId_upper. }
  split; [exact normalizedId_upper|]. split; [apply Hget|]. split; [|split].
  - intros found. rewrite Hget. cbn [fst]. intros [= Hfind].
    apply find_some in Hfind as [Hin Heq%String.eqb_eq]. now split.
  - rewrite Hget. cbn [fst]. split.
    + intros [= Hfind] control Hin Heq.
      pose proof (find_none _ _ Hfind control Hin) as Hb. cbn in Hb.
      rewrite Heq, String.eqb_refl in Hb. discriminate.
    + intros Hall. destruct (List.find _ _) as [found|] eqn:Hfind; [exfalso|reflexivity].
      apply find_some in Hfind as [Hin Heq%String.eqb_eq]. exact (Hall found Hin Heq).
  - intros other Hother. rewrite !Hget. now rewrite Hother.
Qed.

Lemma getControlById_first_match_witness :
  let spaced := ExtensionControls.mkControl "cn 2" (Some "Spaced") None None None in
  let plain := ExtensionControls.mkControl "CN2" (Some "Plain") None None None in
  let data := ExtensionControls.mkData
                (Some [ExtensionControls.mkFamily "Cloud" [spaced; plain]]) None in
  ExtensionControls.getControlById (fun _ => ExtensionControls.Data data) "cn2" None ∅
  = (ExtensionControls.Returned (Some plain),
     {[ ExtensionControls.DEFAULT_CONTROLS_PATH := data ]}) /\
  ExtensionControls.getControlById (fun _ => ExtensionControls.Data data) "Cn 2" None ∅
  = (ExtensionControls.Returned (Some spaced),
     {[ ExtensionControls.DEFAULT_CONTROLS_PATH := data ]}).
Proof.
  intros spaced plain data.
  assert (ExtensionControls.loadControls (fun _ => ExtensionControls.Data data) None ∅
          = (ExtensionControls.Returned data,
             {[ ExtensionControls.DEFAULT_CONTROLS_PATH := data ]})) as Hload
    by reflexivity.
  split.
  - exact (proj1 (proj2 (getControlById_first_match _ "cn2" None ∅ _ data Hload))).
  - exact (proj1 (proj2 (getControlById_first_match _ "Cn 2" None ∅ _ data Hload))).
Defined.

Section ExtensionLists.
Import ExtensionControls.

Lemma truthy_Some (field : option string) (text : string) :
  truthy field = Some text <-> field = Some text /\ text <> EmptyString.
Proof.
  unfold truthy. destruct field as [[|c s]|]; split; try discriminate.
  - intros [[= <-] H]. contradiction.
  - intros [= <-]. split; [reflexivity|discriminate].
  - intros [[= <-] _]. reflexivity.
  - intros [H _]. discriminate.
Qed.

(** The [Set] of families, as it grows. *)
Lemma addFamily_fold (cs : list Control) (families : list string) :
  List.NoDup families ->
  List.NoDup (fold_left addFamily cs families) /\
  forall familyName,
    In familyName (fold_left addFamily cs families) <->
    In familyName families \/
    exists control, In control cs /\ truthy (family control) = Some familyName.
Proof.
  revert families. induction cs as [|control cs IH]; intros families Hnd.
  - cbn. split; [assumption|]. intros familyName. split; [auto|].
    intros [H|(c & [] & _)]. assumption.
  - cbn [fold_left].
    assert (List.NoDup (addFamily families control) /\
            forall familyName,
              In familyName (addFamily families control) <->
              In familyName families \/ truthy (family control) = Some familyName)
      as [Hnd' Hin'].
    { unfold addFamily. destruct (truthy (family control)) as [own|].
      - destruct (includes families own) eqn:Hinc.
        + apply includes_In in Hinc. split; [assumption|].
          intros familyName. split; [auto|]. intros [H|[= <-]]; assumption.
        + split.
          * apply NoDup_ListNoDup, NoDup_app. repeat split.
            -- now apply NoDup_ListNoDup.
            -- intros x Hx [->|[]%elem_of_nil]%elem_of_cons.
               apply list_elem_of_In, includes_In in Hx. congruence.
            -- apply NoDup_singleton.
          * intros familyName. rewrite in_app_iff. cbn [In]. split.
            -- intros [H|[<-|[]]]; auto.
            -- intros [H|[= <-]]; auto.
      - split; [assumption|]. intros familyName. split; [auto|].
        intros [H|H]; [assumption|discriminate]. }
    destruct (IH _ Hnd') as [Hnd'' Hin'']. split; [assumption|].
    intros familyName. rewrite Hin'', Hin'. cbn [In]. split.
    + intros [[H|H]|(c & Hc & Ht)]; eauto.
    + intros [H|(c & [<-|Hc] & Ht)]; eauto.
Qed.

Lemma filter_true {A} (l : list A) : List.filter (fun _ => true) l = l.
Proof. induction l as [|a l IH]; cbn; [reflexivity|]. now rewrite IH. Qed.

Lemma flat_map_sublist {A B} (f g : A -> list B) (l : list A) :
  (forall a, sublist (f a) (g a)) -> sublist (flat_map f l) (flat_map g l).
Proof.
  intros H. induction l as [|a l IH]; cbn; [constructor|].
  now apply sublist_app.
Qed.

(** The first family that a test accepts heads the concatenation of
    all the families that it accepts. *)
Lemma find_flat_map_prefix {A B} (p : A -> bool) (g : A -> list B) (l : list A) :
  match List.find p l with Some a => g a | None => [] end
  `prefix_of` flat_map (fun a => if p a then g a else []) l.
Proof.
  induction l as [|a l IH]; cbn; [reflexivity|].
  destruct (p a); [apply prefix_app_r; reflexivity|exact IH].
Qed.

End ExtensionLists.

(** X20.  [listControlFamilies] on data with families returns the
    family names in order, as they are.  On flat data it returns the
    family fields of the controls that have a non-empty one, each once:
    the list has no repetition, and a name is in it exactly when some
    control carries it. *)
Theorem listControlFamilies_distinct
    (readJson : string -> ExtensionControls.FileContent)
    (controlsPath : option string)
    (cache cache' : gmap string ExtensionControls.ControlData)
    (controlData : ExtensionControls.ControlData) :
  ExtensionControls.loadControls readJson controlsPath cache
  = (ExtensionControls.Returned controlData, cache') ->
  exists names,
    ExtensionControls.listControlFamilies readJson controlsPath cache
    = (ExtensionControls.Returned names, cache') /\
    (forall families,
       ExtensionControls.control_families controlData = Some families ->
       names = map ExtensionControls.name families) /\
    (ExtensionControls.control_families controlData = None ->
     List.NoDup names /\
     forall familyName,
       In familyName names <->
       familyName <> EmptyString /\
       exists control,
         In control (allControls controlData) /\
         ExtensionControls.family control = Some familyName).
Proof.
  intros Hload. unfold ExtensionControls.listControlFamilies. rewrite Hload.
  eexists. split; [reflexivity|]. unfold allControls.
  destruct (ExtensionControls.control_families controlData) as [families|].
  - split; [now intros ? [= <-]|discriminate].
  - split; [discriminate|]. intros _.
    destruct (addFamily_fold (default [] (ExtensionControls.data_controls controlData)) [])
      as [Hnd Hin]; [constructor|].
    split; [exact Hnd|]. intros familyName. rewrite Hin. cbn [In]. split.
    + intros [[]|(control & Hc & [Hf Hne]%truthy_Some)]. eauto.
    + intros (Hne & control & Hc & Hf). right. exists control.
      split; [assumption|]. now apply truthy_Some.
Qed.

Lemma listControlFamilies_distinct_witness :
  let control fam := ExtensionControls.mkControl "CN-1" None None None fam in
  let data := ExtensionControls.mkData None
                (Some [control (Some "Cloud"); control None; control (Some "");
                       control (Some "Edge"); control (Some "Cloud")]) in
  exists names,
    ExtensionControls.listControlFamilies (fun _ => ExtensionControls.Data data) None ∅
    = (ExtensionControls.Returned names,
       {[ ExtensionControls.DEFAULT_CONTROLS_PATH := data ]}) /\
    List.NoDup names.
Proof.
  intros control data.
  assert (ExtensionControls.loadControls (fun _ => ExtensionControls.Data data) None ∅
          = (ExtensionControls.Returned data,
             {[ ExtensionControls.DEFAULT_CONTROLS_PATH := data ]})) as Hload
    by reflexivity.
  destruct (listControlFamilies_distinct (fun _ => ExtensionControls.Data data) None ∅
              {[ ExtensionControls.DEFAULT_CONTROLS_PATH := data ]} data Hload)
    as (names & H1 & _ & H3).
  exists names. split; [exact H1|]. exact (proj1 (H3 eq_refl)).
Defined.

(** X21.  [searchControls] of the extension service returns controls of
    the data, in document order, each of which passes the tests on the id
    and on the keywords; without criteria it returns all of them.  On
    data with families the family criterion selects whole families, and
    [getControlsByFamily] with the same name returns the controls of the
    first selected family only, a prefix of the search result.  On flat
    data a control without a family field passes the family criterion. *)
Theorem searchControls_criteria
    (readJson : string -> ExtensionControls.FileContent)
    (criteria : ExtensionControls.Criteria) (controlsPath : option string)
    (cache cache' : gmap string ExtensionControls.ControlData)
    (controlData : ExtensionControls.ControlData) :
  ExtensionControls.loadControls readJson controlsPath cache
  = (ExtensionControls.Returned controlData, cache') ->
  exists results,
    ExtensionControls.searchControls readJson criteria controlsPath cache
    = (ExtensionControls.Returned results, cache') /\
    sublist results (allControls controlData) /\
    (forall control,
       In control results ->
       ExtensionControls.matchesId criteria control = true /\
       ExtensionControls.matchesKeywords criteria control = true) /\
    (criteria = ExtensionControls.mkCriteria None None None ->
     results = allControls controlData) /\
    (forall familyName,
       ExtensionControls.control_families controlData <> None ->
       criteria = ExtensionControls.mkCriteria None (Some familyName) None ->
       exists byFamily,
         ExtensionControls.getControlsByFamily readJson familyName controlsPath cache
         = (ExtensionControls.Returned byFamily, cache') /\
         (familyName <> EmptyString -> byFamily `prefix_of` results)) /\
    (forall control,
       ExtensionControls.control_families controlData = None ->
       In control (allControls controlData) ->
       ExtensionControls.family control = None ->
       ExtensionControls.matchesId criteria control = true ->
       ExtensionControls.matchesKeywords criteria control = true ->
       In control results).
Proof.
  intros Hload.
  unfold ExtensionControls.searchControls, ExtensionControls.getControlsByFamily.
  rewrite Hload. cbv zeta.
  eexists. split; [reflexivity|]. unfold allControls.
  destruct (ExtensionControls.control_families controlData) as [families|].
  - split; [|split; [|split; [|split]]].
    + apply flat_map_sublist. intros f.
      destruct (ExtensionControls.familyMatches criteria f);
        [apply filter_sublist|apply sublist_nil_l].
    + intros control (f & Hf & Hin)%in_flat_map.
      destruct (ExtensionControls.familyMatches criteria f); [|contradiction].
      apply filter_In in Hin as [_ H]. now apply andb_prop in H.
    + intros ->. apply flat_map_ext. intros f. cbn. apply filter_true.
    + intros familyName _ ->. eexists. split; [reflexivity|]. intros Hne.
      unfold ExtensionControls.familyMatches, ExtensionControls.matchesId,
        ExtensionControls.matchesKeywords.
      cbn [ExtensionControls.criteria_id ExtensionControls.criteria_familyName
           ExtensionControls.criteria_keywords ExtensionControls.truthy andb].
      destruct familyName as [|c s]; [contradiction|].
      cbn [ExtensionControls.truthy].
      pose proof (find_flat_map_prefix
                    (fun f => stringIncludes (toLowerCase (String c s))
                                (toLowerCase (ExtensionControls.name f)))
                    ExtensionControls.controls families) as Hprefix.
      erewrite (flat_map_ext _ (fun f => if stringIncludes _ _ then _ else []));
        [|intros f; now rewrite filter_true].
      destruct (List.find _ families); exact Hprefix.
    + discriminate.
  - destruct (ExtensionControls.data_controls controlData) as [flat|]; cbn [default].
    + split; [apply filter_sublist|]. split; [|split; [|split]].
      * intros control [_ H]%filter_In.
        apply andb_prop in H as [H1 H2]. apply andb_prop in H1 as [_ H1]. now split.
      * intros ->. apply filter_true.
      * intros familyName Hfam. contradiction.
      * intros control _ Hin Hnone Hid Hkw. apply filter_In. split; [assumption|].
        unfold ExtensionControls.controlFamilyMatches. rewrite Hnone, Hid, Hkw.
        now destruct (ExtensionControls.truthy _).
    + split; [constructor|]. split; [intros control []|]. split; [reflexivity|].
      split; [intros familyName Hfam; contradiction|]. intros control _ [].
Qed.

Lemma searchControls_criteria_witness :
  let control cid fam := ExtensionControls.mkControl cid (Some "Title") None None fam in
  let data := ExtensionControls.mkData None
                (Some [control "CN-1" (Some "Cloud"); control "CN-2" None]) in
  exists results,
    ExtensionControls.searchControls (fun _ => ExtensionControls.Data data)
      (ExtensionControls.mkCriteria None (Some "edge") None) None ∅
    = (ExtensionControls.Returned results,
       {[ ExtensionControls.DEFAULT_CONTROLS_PATH := data ]}) /\
    In (control "CN-2" None) results.
Proof.
  intros control data.
  assert (ExtensionControls.loadControls (fun _ => ExtensionControls.Data data) None ∅
          = (ExtensionControls.Returned data,
             {[ ExtensionControls.DEFAULT_CONTROLS_PATH := data ]})) as Hload
    by reflexivity.
  destruct (searchControls_criteria (fun _ => ExtensionControls.Data data)
              (ExtensionControls.mkCriteria None (Some "edge") None) None ∅
              {[ ExtensionControls.DEFAULT_CONTROLS_PATH := data ]} data Hload)
    as (results & H1 & _ & _ & _ & _ & H6).
  exists results. split; [exact H1|].
  apply H6; [reflexivity| |reflexivity|reflexivity|reflexivity].
  right. left. reflexivity.
Defined.

(** X22.  [loadControls] reads a path at most once with success.  A
    path that is in the cache is answered from the cache, whatever the
    file holds by then; a path that is not is read: data is returned
    and cached under the path, a falsy value is returned without being
    cached, and a file that cannot be read makes the call throw and
    leaves the cache as it was.  No other path of the cache is touched,
    and an absent [controlsPath] is the default path. *)
Theorem loadControls_caches
    (readJson : string -> ExtensionControls.FileContent)
    (controlsPath : option string) (cache : gmap string ExtensionControls.ControlData) :
  let path := default ExtensionControls.DEFAULT_CONTROLS_PATH controlsPath in
  let r := ExtensionControls.loadControls readJson controlsPath cache in
  (forall cached,
     cache !! path = Some cached ->
     forall readJson',
       ExtensionControls.loadControls readJson' controlsPath cache
       = (ExtensionControls.Returned cached, cache)) /\
  (cache !! path = None ->
   match readJson path with
   | ExtensionControls.Data controlData =>
       r = (ExtensionControls.Returned controlData, <[path := controlData]> cache) /\
       forall readJson',
         ExtensionControls.loadControls readJson' controlsPath (snd r)
         = (ExtensionControls.Returned controlData, snd r)
   | ExtensionControls.Falsy =>
       r = (ExtensionControls.Returned ExtensionControls.noData, cache)
   | ExtensionControls.Unreadable =>
       r = (ExtensionControls.LoadFailed path, cache)
   end) /\
  (forall other, other <> path -> snd r !! other = cache !! other) /\
  (forall failed, fst r = ExtensionControls.LoadFailed failed ->
     failed = path /\ snd r = cache /\ readJson path = ExtensionControls.Unreadable).
Proof.
  intros path r. unfold r, ExtensionControls.loadControls. fold path.
  split; [|split; [|split]].
  - intros cached Hc readJson'. now rewrite Hc.
  - intros Hnone. rewrite Hnone.
    destruct (readJson path) as [| |controlData]; try reflexivity.
    split; [reflexivity|]. intros readJson'. cbn [snd]. now rewrite lookup_insert_eq.
  - intros other Hne. destruct (cache !! path); [reflexivity|].
    destruct (readJson path); cbn [snd]; try reflexivity.
    now rewrite lookup_insert_ne by congruence.
  - intros failed. destruct (cache !! path); [discriminate|].
    destruct (readJson path); cbn [fst snd]; try discriminate.
    now intros [= <-].
Qed.
